(** * Document-processor pipeline: a shallow embedding of the orchestration code

    The Python sources under [app/] are embedded as executable Rocq
    definitions: every Celery task body becomes a computation in a small
    state-and-exception monad over an explicit [world] (file system, the two
    database tables, the task broker, Redis, the seen-mail cache, the clock).
    Third-party collaborators (SHA-256, PyMuPDF, the chat-completion API, the
    JSON decoder, the IMAP server) are fields of a record that every
    definition receives, so that the development can be run on concrete
    stand-ins. *)

From Stdlib Require Import ZArith Lia Ascii.
From Stdlib.Strings Require Byte.
From stdpp Require Import gmap strings list fin_maps pretty.

Open Scope Z_scope.
Set Warnings "-register-all".

(** ** Python values and exceptions *)

Module Py.

  (** The exception classes that the modelled code can meet.  All of them
      derive from [Exception], hence all are caught by [except Exception].
      [Diverges] is not a Python exception: it marks a loop that ran out of
      the iterations the model grants it, and the development shows that
      no such loop does. *)
Inductive exn :=
  | FileNotFoundError
  | FileExistsError
  | IsADirectoryError
  | PermissionError
  | ValueError
  | TypeError
  | JSONDecodeError
  | MultipleResultsFound
  | OperationalError
  | FileDataError
  | APIError
  | IMAPError
  | Diverges.

Inductive result (A : Type) :=
  | Ret (a : A)
  | Raise (e : exn).
  Arguments Ret {A} a.
  Arguments Raise {A} e.

  (** JSON documents, as produced by [json.loads]; a Python [dict] with string
      keys is an association list (keys distinct, insertion order kept). *)
Inductive json :=
  | JNull
  | JBool (b : bool)
  | JNum (z : Z)
  | JStr (s : string)
  | JArr (l : list json)
  | JObj (o : list (string * json)).

Definition dict := list (string * json).

  (** [d.get(key)] *)
Fixpoint dict_get (key : string) (d : dict) : option json :=
    match d with
    | [] => None
    | (k, v) :: d' => if decide (k = key) then Some v else dict_get key d'
    end.

  (** [d.get(key, default)] *)
Definition dict_get_default (key : string) (default : json) (d : dict) : json :=
    from_option id default (dict_get key d).

End Py.
Export Py.

(** ** Strings as Python uses them *)

Module PyStr.

Definition chars (s : string) : list ascii := String.list_ascii_of_string s.
Definition str (l : list ascii) : string := String.string_of_list_ascii l.

  (** [s.find(c)] for a one-character needle: lowest index, [None] for -1. *)
Fixpoint find_char (c : ascii) (l : list ascii) : option nat :=
    match l with
    | [] => None
    | x :: l' => if decide (x = c) then Some 0%nat else S <$> find_char c l'
    end.

  (** [s.rfind(c)]: highest index, [None] for -1. *)
Fixpoint rfind_char (c : ascii) (l : list ascii) : option nat :=
    match l with
    | [] => None
    | x :: l' =>
        match rfind_char c l' with
        | Some i => Some (S i)
        | None => if decide (x = c) then Some 0%nat else None
        end
    end.

  (** [s.startswith(p)] *)
Fixpoint starts_with (p l : list ascii) : bool :=
    match p, l with
    | [], _ => true
    | _ :: _, [] => false
    | a :: p', b :: l' => bool_decide (a = b) && starts_with p' l'
    end.

Definition startswith (s p : string) : bool := starts_with (chars p) (chars s).

  (** [s.endswith(c)] for a one-character suffix. *)
Definition ends_with_char (c : ascii) (l : list ascii) : bool :=
    match last l with
    | Some x => bool_decide (x = c)
    | None => false
    end.

  (** [sub in s] *)
Fixpoint contains (sub l : list ascii) : bool :=
    starts_with sub l ||
    match l with
    | [] => false
    | _ :: l' => contains sub l'
    end.

  (** [s.lower()] on the ASCII letters. *)
Definition lower_char (c : ascii) : ascii :=
    let n := nat_of_ascii c in
    if ((65 <=? n) && (n <=? 90))%nat then ascii_of_nat (n + 32) else c.

Definition lower (s : string) : string := str (lower_char <$> chars s).

  (** Truthiness of a [str]. *)
Definition nonempty (s : string) : bool :=
    match s with
    | EmptyString => false
    | String _ _ => true
    end.

End PyStr.

(** ** [os.path] (posixpath) *)

Module OsPath.
  Import PyStr.

Definition sep : ascii := "/"%char.
Definition extsep : ascii := "."%char.

  (** [os.path.join(a, b)] *)
Definition join (a b : string) : string :=
    if starts_with [sep] (chars b) then b
    else if negb (nonempty a) || ends_with_char sep (chars a) then a +:+ b
    else a +:+ String sep b.

  (** [os.path.basename(p)]: [p[p.rfind('/') + 1:]] *)
Definition basename (p : string) : string :=
    let l := chars p in
    match rfind_char sep l with
    | Some i => str (drop (S i) l)
    | None => p
    end.

  (** The scan of [genericpath._splitext] that skips leading dots: is there a
      character other than the dot in [l[from:upto]]? *)
Definition has_non_dot (l : list ascii) (from upto : nat) : bool :=
    existsb (fun c => negb (bool_decide (c = extsep))) (take (upto - from) (drop from l)).

  (** [os.path.splitext(p)] *)
Definition splitext (p : string) : string * string :=
    let l := chars p in
    let filename_index :=
      match rfind_char sep l with Some i => S i | None => 0%nat end in
    match rfind_char extsep l with
    | Some dot_index =>
        if bool_decide (filename_index <= dot_index)%nat
           && has_non_dot l filename_index dot_index
        then (str (take dot_index l), str (drop dot_index l))
        else (p, "")
    | None => (p, "")
    end.

End OsPath.

(** ** [datetime]: the one format the poller reads and writes *)

Module DateTime.

Record datetime := {
    year : Z;
    month : Z;
    day : Z;
    hour : Z;
    minute : Z;
    second : Z;
    microsecond : Z;
  }.

Definition is_leap (y : Z) : bool :=
    (y mod 4 =? 0) && (negb (y mod 100 =? 0) || (y mod 400 =? 0)).

Definition days_in_month (y m : Z) : Z :=
    match m with
    | 1 | 3 | 5 | 7 | 8 | 10 | 12 => 31
    | 4 | 6 | 9 | 11 => 30
    | 2 => if is_leap y then 29 else 28
    | _ => 0
    end.

Definition days_before_year (y : Z) : Z :=
    let p := y - 1 in p * 365 + p / 4 - p / 100 + p / 400.

Definition days_before_month (y m : Z) : Z :=
    foldr (λ k acc, days_in_month y k + acc) 0 (seqZ 1 (m - 1)).

  (** [dt.toordinal()] *)
Definition toordinal (dt : datetime) : Z :=
    days_before_year (year dt) + days_before_month (year dt) (month dt) + day dt.

  (** The instant of an aware UTC datetime, in microseconds; two such
      datetimes compare as their instants do. *)
Definition instant (dt : datetime) : Z :=
    (((toordinal dt * 24 + hour dt) * 60 + minute dt) * 60 + second dt) * 1000000
    + microsecond dt.

  (** [timedelta(days=n)] in microseconds. *)
Definition timedelta_days (n : Z) : Z := n * 86400 * 1000000.

Definition digit_val (c : ascii) : option Z :=
    let n := nat_of_ascii c in
    if ((48 <=? n) && (n <=? 57))%nat then Some (Z.of_nat (n - 48)) else None.

Definition digit_char (d : Z) : ascii := ascii_of_nat (48 + Z.to_nat d).

  (** The decimal value of a run of digits; [None] if a character is not a
      digit. *)
Definition digits (f : list ascii) : option Z :=
    foldl (λ acc c, a ← acc; d ← digit_val c; Some (10 * a + d)) (Some 0) f.

  (** The text before the first character accepted by [sep], and the text
      after that character. *)
Fixpoint split_at (sep : ascii → bool) (l : list ascii)
      : option (list ascii * list ascii) :=
    match l with
    | [] => None
    | c :: l' =>
        if sep c then Some ([], l')
        else '(f, r) ← split_at sep l'; Some (c :: f, r)
    end.

Definition in_range (lo hi v : Z) : option Z :=
    if (lo <=? v) && (v <=? hi) then Some v else None.

  (** A directive of one or two digits, as the regular expressions of
      [_strptime] accept it: a single digit from [lo1] up, or two digits with
      a value between [lo2] and [hi2]. *)
Definition field (lo1 lo2 hi2 : Z) (f : list ascii) : option Z :=
    match f with
    | [_] => v ← digits f; in_range lo1 9 v
    | [_; _] => v ← digits f; in_range lo2 hi2 v
    | _ => None
    end.

  (** [%Y]: exactly four digits. *)
Definition field_Y (f : list ascii) : option Z :=
    if decide (length f = 4%nat) then digits f else None.

  (** [%d] also accepts a blank followed by one digit. *)
Definition field_d (f : list ascii) : option Z :=
    match f with
    | [" "%char; c] => v ← digit_val c; in_range 1 9 v
    | _ => field 1 1 31 f
    end.

Definition is_char (c : ascii) : ascii → bool := λ x, bool_decide (x = c).

  (** The format is matched ignoring case, so the literal T may be lower
      case. *)
Definition is_T : ascii → bool :=
    λ x, bool_decide (x = "T"%char) || bool_decide (x = "t"%char).

  (** [datetime.strptime(s, "%Y-%m-%dT%H:%M:%S")]; [None] is [ValueError].
      The fields are cut at the literal separators, each is checked against
      its directive, and the [datetime] constructor then rejects year 0, a
      day past the end of the month and the leap seconds 60 and 61. *)
Definition strptime (s : string) : option datetime :=
    '(fY, r) ← split_at (is_char "-") (PyStr.chars s);
    '(fm, r) ← split_at (is_char "-") r;
    '(fd, r) ← split_at is_T r;
    '(fH, r) ← split_at (is_char ":") r;
    '(fM, fS) ← split_at (is_char ":") r;
    y ← field_Y fY;
    m ← field 1 1 12 fm;
    d ← field_d fd;
    H ← field 0 0 23 fH;
    Mi ← field 0 0 59 fM;
    S ← field 0 0 61 fS;
    if (1 <=? y) && (d <=? days_in_month y m) && (S <=? 59)
    then Some {| year := y; month := m; day := d; hour := H; minute := Mi;
                 second := S; microsecond := 0 |}
    else None.

Definition pad2 (v : Z) : list ascii := [digit_char (v / 10); digit_char (v mod 10)].

Definition pad4 (v : Z) : list ascii := pad2 (v / 100) ++ pad2 (v mod 100).

  (** [dt.strftime("%Y-%m-%dT%H:%M:%S")] *)
Definition strftime (dt : datetime) : string :=
    PyStr.str (pad4 (year dt) ++ ["-"%char] ++ pad2 (month dt) ++ ["-"%char]
               ++ pad2 (day dt) ++ ["T"%char] ++ pad2 (hour dt) ++ [":"%char]
               ++ pad2 (minute dt) ++ [":"%char] ++ pad2 (second dt)).

End DateTime.
Export DateTime.

(** ** Well-formed timestamps *)

(** The range checks of the [datetime] constructor. *)
Definition is_datetime (dt : datetime) : Prop :=
  1 ≤ year dt ≤ 9999 ∧ 1 ≤ month dt ≤ 12
  ∧ 1 ≤ day dt ≤ days_in_month (year dt) (month dt)
  ∧ 0 ≤ hour dt ≤ 23 ∧ 0 ≤ minute dt ≤ 59 ∧ 0 ≤ second dt ≤ 59
  ∧ 0 ≤ microsecond dt ≤ 999999.

(** [dt.replace(microsecond=0)] *)
Definition whole_second (dt : datetime) : datetime :=
  {| year := year dt; month := month dt; day := day dt; hour := hour dt;
     minute := minute dt; second := second dt; microsecond := 0 |}.

(** ** The world the tasks run in *)

Module World.

Definition bytes := list Byte.byte.

Global Instance byte_eq_dec : EqDecision Byte.byte.
  Proof.
    intros x y.
    destruct (decide (Byte.to_N x = Byte.to_N y)) as [H|H]; [left|right].
    - apply (f_equal Byte.of_N) in H. rewrite !Byte.of_to_N in H. congruence.
    - congruence.
  Defined.

  (** [app.models.FileRecord] (table [files]) *)
Record FileRecord := {
    id : Z;
    filehash : string;
    original_filename : string;
    local_filename : string;
    file_size : Z;
    mime_type : string;
  }.

  (** [app.models.ProcessingLog] (table [processing_logs]) *)
Record ProcessingLog := {
    log_id : Z;
    log_task_id : string;
    log_step_name : string;
    log_status : string;
    log_message : option string;
    log_file_id : option Z;
  }.

  (** A message on the Celery broker: which task, with which arguments. *)
Inductive task_msg :=
  | ProcessDocument (original_local_file : string)
  | ProcessWithTextract (s3_filename : string)
  | ExtractMetadataWithGpt (s3_filename cleaned_text : string)
  | EmbedMetadataIntoPdf (local_file_path extracted_text : string) (metadata : dict)
  | FinalizeDocumentStorage (original_file processed_file : string) (metadata : dict)
  | SendToAllDestinations (file_path : string)
  | UploadToDropbox (file_path : string)
  | UploadToNextcloud (file_path : string)
  | UploadToPaperless (file_path : string)
  | UploadToS3 (file_path : string).

  (** A Redis key: its value and whether an expiry has been set on it. *)
Record redis_entry := {
    redis_value : string;
    redis_ttl : option Z;
  }.

  (** What [processed_mails.json] holds: nothing decodable, or a mapping from
      message id to timestamp string ([json.dump] followed by [json.load]
      gives the mapping back). *)
Inductive cache_content :=
  | NotJson
  | Mapping (m : gmap string string).

  (** Commands sent to an IMAP server. *)
Inductive imap_cmd :=
  | ImapConnect (host : string) (port : Z) (ssl : bool)
  | ImapLogin (username : string)
  | ImapSelect
  | ImapSearch
  | ImapFetch (num : string) (what : string)
  | ImapStore (num : string) (op flag : string)
  | ImapExpunge
  | ImapClose
  | ImapLogout.

Record world := {
    fs : gmap string bytes;            (* regular files by path *)
    files : list FileRecord;           (* committed rows of [files] *)
    logs : list ProcessingLog;         (* committed rows of [processing_logs] *)
    broker : list (string * task_msg); (* enqueued messages with their task ids *)
    entropy : nat;                     (* how many [uuid4()] values were drawn *)
    audits : nat;                      (* how many audit writes were attempted *)
    current_task : option string;      (* [celery._state.get_current_task()] *)
    redis : gmap string redis_entry;
    cache_file : option cache_content; (* [None]: the cache file does not exist *)
    clock : datetime;                  (* [datetime.now(timezone.utc)] *)
    imap_log : list imap_cmd;          (* mailbox I/O performed so far *)
  }.

Definition set_fs (f : gmap string bytes → gmap string bytes) (w : world) : world :=
    {| fs := f (fs w); files := files w; logs := logs w; broker := broker w;
       entropy := entropy w; audits := audits w; current_task := current_task w;
       redis := redis w; cache_file := cache_file w; clock := clock w;
       imap_log := imap_log w |}.

Definition set_files (f : list FileRecord → list FileRecord) (w : world) : world :=
    {| fs := fs w; files := f (files w); logs := logs w; broker := broker w;
       entropy := entropy w; audits := audits w; current_task := current_task w;
       redis := redis w; cache_file := cache_file w; clock := clock w;
       imap_log := imap_log w |}.

Definition set_logs (f : list ProcessingLog → list ProcessingLog) (w : world) : world :=
    {| fs := fs w; files := files w; logs := f (logs w); broker := broker w;
       entropy := entropy w; audits := audits w; current_task := current_task w;
       redis := redis w; cache_file := cache_file w; clock := clock w;
       imap_log := imap_log w |}.

Definition set_broker (f : list (string * task_msg) → list (string * task_msg))
      (w : world) : world :=
    {| fs := fs w; files := files w; logs := logs w; broker := f (broker w);
       entropy := entropy w; audits := audits w; current_task := current_task w;
       redis := redis w; cache_file := cache_file w; clock := clock w;
       imap_log := imap_log w |}.

Definition set_entropy (f : nat → nat) (w : world) : world :=
    {| fs := fs w; files := files w; logs := logs w; broker := broker w;
       entropy := f (entropy w); audits := audits w; current_task := current_task w;
       redis := redis w; cache_file := cache_file w; clock := clock w;
       imap_log := imap_log w |}.

Definition set_audits (f : nat → nat) (w : world) : world :=
    {| fs := fs w; files := files w; logs := logs w; broker := broker w;
       entropy := entropy w; audits := f (audits w); current_task := current_task w;
       redis := redis w; cache_file := cache_file w; clock := clock w;
       imap_log := imap_log w |}.

Definition set_redis (f : gmap string redis_entry → gmap string redis_entry)
      (w : world) : world :=
    {| fs := fs w; files := files w; logs := logs w; broker := broker w;
       entropy := entropy w; audits := audits w; current_task := current_task w;
       redis := f (redis w); cache_file := cache_file w; clock := clock w;
       imap_log := imap_log w |}.

Definition set_cache_file (c : option cache_content) (w : world) : world :=
    {| fs := fs w; files := files w; logs := logs w; broker := broker w;
       entropy := entropy w; audits := audits w; current_task := current_task w;
       redis := redis w; cache_file := c; clock := clock w;
       imap_log := imap_log w |}.

Definition set_imap_log (f : list imap_cmd → list imap_cmd) (w : world) : world :=
    {| fs := fs w; files := files w; logs := logs w; broker := broker w;
       entropy := entropy w; audits := audits w; current_task := current_task w;
       redis := redis w; cache_file := cache_file w; clock := clock w;
       imap_log := f (imap_log w) |}.

End World.
Export World.

(** ** The state-and-exception monad

    A Python function becomes [world → result A * world]: it returns or
    raises, and in both cases leaves a world behind (an exception does not
    undo the effects that preceded it). *)

Module Monad.

Definition M (A : Type) : Type := world → result A * world.

Definition ret {A} (a : A) : M A := λ w, (Ret a, w).

Definition raise {A} (e : exn) : M A := λ w, (Raise e, w).

Definition bind {A B} (m : M A) (k : A → M B) : M B :=
    λ w, match m w with
         | (Ret a, w') => k a w'
         | (Raise e, w') => (Raise e, w')
         end.

  (** [try: m  except Exception as e: h e] *)
Definition try_except {A} (m : M A) (h : exn → M A) : M A :=
    λ w, match m w with
         | (Ret a, w') => (Ret a, w')
         | (Raise e, w') => h e w'
         end.

  (** [try: m  except C: h] for the exception classes accepted by [cls]. *)
Definition try_catch {A} (cls : exn → bool) (m : M A) (h : exn → M A) : M A :=
    λ w, match m w with
         | (Ret a, w') => (Ret a, w')
         | (Raise e, w') => if cls e then h e w' else (Raise e, w')
         end.

  (** [try: m  finally: f] *)
Definition try_finally {A} (m : M A) (f : M unit) : M A :=
    λ w, match m w with
         | (r, w') =>
             match f w' with
             | (Ret _, w'') => (r, w'')
             | (Raise e, w'') => (Raise e, w'')
             end
         end.

Definition get : M world := λ w, (Ret w, w).
Definition modify (f : world → world) : M unit := λ w, (Ret tt, f w).

  (** Lift a fallible library call. *)
Definition lift_option {A} (e : exn) (o : option A) : M A :=
    match o with
    | Some a => ret a
    | None => raise e
    end.

Definition lift_result {A} (r : result A) : M A := λ w, (r, w).

  (** [for x in l: body x] *)
Fixpoint for_each {A} (l : list A) (body : A → M unit) : M unit :=
    match l with
    | [] => ret tt
    | x :: l' => bind (body x) (λ _, for_each l' body)
    end.

  (** A loop that carries a local variable from one iteration to the next. *)
Fixpoint for_fold {A S} (l : list A) (s : S) (body : A → S → M S) : M S :=
    match l with
    | [] => ret s
    | x :: l' => bind (body x s) (λ s', for_fold l' s' body)
    end.

  (** [m] never changes the component [f] of the world, whether it returns
      or raises. *)
Definition preserves {A B} (f : world → B) (m : M A) : Prop :=
    ∀ w, f (m w).2 = f w.

  (** The world [w] with its audit table and audit counter replaced. *)
Definition with_audit (l : list ProcessingLog) (n : nat) (w : world) : world :=
    set_logs (λ _, l) (set_audits (λ _, n) w).

End Monad.
Export Monad.

Notation "x <- m ;; k" := (bind m (λ x, k))
  (at level 100, m at next level, right associativity,
   format "'[v' x  <-  m  ;;  '/' k ']'").
Notation "m ;;; k" := (bind m (λ _, k))
  (at level 100, right associativity,
   format "'[v' m  ;;;  '/' k ']'").

(** ** Collaborators and configuration *)

Module Env.

  (** The three database steps of one audit write in [log_task_progress]. *)
Inductive db_step :=
  | OpenSession
  | QueryFileRecord
  | CommitLog.

Global Instance db_step_eq_dec : EqDecision db_step.
  Proof. solve_decision. Defined.

  (** A part of a parsed e-mail, as [email.message.Message.walk] yields it. *)
Record mail_part := {
    content_maintype : string;
    content_type : string;
    part_filename : option string;
    payload : bytes;
  }.

  (** What [mail.fetch(num, "(RFC822)")] gives for one message number. *)
Record fetched := {
    msg_num : string;
    fetch_ok : bool;                 (* status == "OK" *)
    message_id : option string;      (* the Message-ID header *)
    parts : list mail_part;
    gm_labels : result (option string); (* answer to the X-GM-LABELS fetch *)
  }.

  (** One IMAP account as the poller sees it during a cycle. *)
Record imap_server := {
    login_ok : bool;
    search_ok : bool;                (* status == "OK" *)
    unseen : list fetched;           (* answer to SINCE ... UNSEEN *)
    store_ok : string → string → bool;
  }.

  (** The file-system calls that the operating system can refuse on a path
      that the map of regular files says nothing about: a parent directory
      that is missing or is not a directory, a directory where a file is to
      be written or removed, missing permissions. *)
Inductive fs_op :=
  | OpMakedirs (path : string)      (* os.makedirs(path, exist_ok=True) *)
  | OpWrite (path : string)         (* open(path, "wb"), also inside shutil *)
  | OpRemove (path : string).       (* os.remove(path) *)

  (** Third-party code the tasks call, and the environment they run in. *)
Record collaborators := {
    sha256 : bytes → string;                      (* hashlib.sha256(..).hexdigest() *)
    guess_type : string → option string;          (* mimetypes.guess_type(..)[0] *)
    uuid4 : nat → string;                         (* the n-th uuid4() drawn *)
    fitz_get_text : bytes → option (list string); (* per page; None: fitz.open raises *)
    fitz_set_metadata : bytes → json → json → json → string → option bytes;
    chat_completion : string → result string;     (* choices[0].message.content *)
    json_loads : string → option dict;            (* None: JSONDecodeError *)
    json_dumps : dict → bytes;                    (* json.dump(.., indent=2) *)
    sql_like : string → string → bool;            (* column LIKE pattern *)
    audit_fault : nat → option db_step;           (* the step at which the n-th
                                                     audit write fails, if any *)
    imap_connect : string → Z → bool → option imap_server;
    os_refuses : fs_op → option exn;              (* the error with which the
                                                     operating system refuses
                                                     a call, if it does *)
  }.

  (** [app.config.Settings], the fields the tasks read. *)
Record Settings := {
    workdir : string;
    imap1_host : option string;
    imap1_port : option Z;
    imap1_username : option string;
    imap1_password : option string;
    imap1_ssl : bool;
    imap1_delete_after_process : bool;
    imap2_host : option string;
    imap2_port : option Z;
    imap2_username : option string;
    imap2_password : option string;
    imap2_ssl : bool;
    imap2_delete_after_process : bool;
  }.

End Env.
Export Env.

(** ** app/utils.py *)

Section Utils.
  Context (E : collaborators).

Definition path_exists (w : world) (p : string) : bool :=
    bool_decide (is_Some (fs w !! p)).

  (** [open(path, "rb").read()] *)
Definition read_file (path : string) : M bytes :=
    w <- get ;; lift_option FileNotFoundError (fs w !! path).

  (** [open(path, "wb").write(data)]: the file is created or replaced,
      unless the operating system refuses to open it for writing. *)
Definition write_file (path : string) (data : bytes) : M unit :=
    match os_refuses E (OpWrite path) with
    | Some e => raise e
    | None => modify (set_fs <[path := data]>)
    end.

  (** [os.remove(path)] *)
Definition os_remove (path : string) : M unit :=
    w <- get ;;
    if path_exists w path then
      match os_refuses E (OpRemove path) with
      | Some e => raise e
      | None => modify (set_fs (delete path))
      end
    else raise FileNotFoundError.

  (** [os.makedirs(path, exist_ok=True)]: a regular file in the place of the
      directory makes it raise [FileExistsError]; directories themselves
      are not part of the map, so success leaves the world as it is. *)
Definition os_makedirs (path : string) : M unit :=
    w <- get ;;
    if path_exists w path then raise FileExistsError
    else
      match os_refuses E (OpMakedirs path) with
      | Some e => raise e
      | None => ret tt
      end.

  (** [hash_file]: the chunks read in the loop are fed to one running digest,
      which is the digest of the whole content. *)
Definition hash_file (filepath : string) : M string :=
    data <- read_file filepath ;;
    ret (sha256 E data).

Definition next_id (ids : list Z) : Z := 1 + foldr Z.max 0 ids.

Definition db_step_runs (n : nat) (s : db_step) : M unit :=
    if decide (audit_fault E n = Some s) then raise OperationalError else ret tt.

  (** Truthiness of an optional integer and of an optional string. *)
Definition truthy_id (o : option Z) : bool :=
    match o with
    | Some z => negb (z =? 0)
    | None => false
    end.

Definition truthy_str (o : option string) : bool :=
    match o with
    | Some s => PyStr.nonempty s
    | None => false
    end.

  (** [db.query(FileRecord).filter(...).first()] *)
Definition query_first (p : FileRecord → bool) (rs : list FileRecord) : option FileRecord :=
    head (List.filter p rs).

Definition log_task_progress (task_id step_name status : string)
      (message : option string) (file_id : option Z) (file_path : option string)
      : M (option Z) :=
    try_except
      (w <- get ;;
       let n := audits w in
       modify (set_audits S) ;;;
       db_step_runs n OpenSession ;;;
       file_id <-
         (if negb (truthy_id file_id) && truthy_str file_path then
            db_step_runs n QueryFileRecord ;;;
            w <- get ;;
            match query_first
                    (λ r, bool_decide (Some (local_filename r) = file_path))
                    (files w) with
            | Some file_record => ret (Some (id file_record))
            | None => ret file_id
            end
          else ret file_id) ;;
       db_step_runs n CommitLog ;;;
       w <- get ;;
       let log_entry :=
         {| log_id := next_id (log_id <$> logs w);
            log_task_id := task_id;
            log_step_name := step_name;
            log_status := status;
            log_message := message;
            log_file_id := file_id |} in
       modify (set_logs (λ l, l ++ [log_entry])) ;;;
       ret (Some (log_id log_entry)))
      (λ e, ret None).

Definition exn_str (e : exn) : string :=
    match e with
    | FileNotFoundError => "FileNotFoundError"
    | FileExistsError => "FileExistsError"
    | IsADirectoryError => "IsADirectoryError"
    | PermissionError => "PermissionError"
    | ValueError => "ValueError"
    | TypeError => "TypeError"
    | JSONDecodeError => "JSONDecodeError"
    | MultipleResultsFound => "MultipleResultsFound"
    | OperationalError => "OperationalError"
    | FileDataError => "FileDataError"
    | APIError => "APIError"
    | IMAPError => "IMAPError"
    | Diverges => "Diverges"
    end.

  (** The [log_task] decorator applied to a task body [func] whose first
      positional argument is the string [arg0].  The wrapper is a plain
      function without a [request] attribute, so the task id it logs
      is the fallback. *)
Definition log_task {A} (step_name : string) (arg0 : string) (func : M A) : M A :=
    let task_id := "unknown_task" in
    let file_path := Some arg0 in
    log_task_progress task_id step_name "pending" (Some "Task queued") None file_path ;;;
    try_except
      (log_task_progress task_id step_name "in_progress" (Some "Task started")
         None file_path ;;;
       result <- func ;;
       log_task_progress task_id step_name "success" (Some "Task completed")
         None file_path ;;;
       ret result)
      (λ e,
         log_task_progress task_id step_name "failure"
           (Some ("Error: " +:+ exn_str e)) None file_path ;;;
         raise e).

Definition task_logger (message level : string) (task_id step_name status : option string)
      (file_path : option string) (file_id : option Z) : M (option Z) :=
    task_id <-
      match task_id with
      | Some t => ret t
      | None => w <- get ;; ret (default "unknown_task" (current_task w))
      end ;;
    let step_name := default "general" step_name in
    let status :=
      match status with
      | Some s => s
      | None =>
          if decide (level = "error") then "failure"
          else if decide (level = "warning") then "warning"
          else "in_progress"
      end in
    log_task_progress task_id step_name status (Some message) file_id file_path.

  (** Whether the database fault planned for the [n]-th audit write is met by
      a write with these arguments: the file lookup only runs when no file
      id was passed and a path was. *)
Definition lookup_needed (file_id : option Z) (file_path : option string) : bool :=
    negb (truthy_id file_id) && truthy_str file_path.

Definition fault_hits (n : nat) (file_id : option Z) (file_path : option string) : bool :=
    match audit_fault E n with
    | Some OpenSession | Some CommitLog => true
    | Some QueryFileRecord => lookup_needed file_id file_path
    | None => false
    end.

  (** [uuid.uuid4()] *)
Definition draw_uuid : M string :=
    w <- get ;;
    modify (set_entropy S) ;;;
    ret (uuid4 E (entropy w)).

  (** [task.delay(args)]: the message is put on the broker under a fresh task
      id, which is what the returned [AsyncResult] carries. *)
Definition delay (msg : task_msg) : M string :=
    task_id <- draw_uuid ;;
    modify (set_broker (λ b, b ++ [(task_id, msg)])) ;;;
    ret task_id.

End Utils.

(** ** app/tasks/send_to_all.py and app/tasks/finalize_document_storage.py *)

Section FanOut.
  Context (E : collaborators).

Definition send_to_all_destinations_body (file_path : string) : M dict :=
    task_logger E ("Sending " +:+ file_path +:+ " to all destinations") "info"
      None (Some "send_to_all") None None None ;;;
    dropbox_task <- delay E (UploadToDropbox file_path) ;;
    nextcloud_task <- delay E (UploadToNextcloud file_path) ;;
    paperless_task <- delay E (UploadToPaperless file_path) ;;
    task_logger E
      ("Enqueued file for all destinations: Dropbox (task: " +:+ dropbox_task
       +:+ "), Nextcloud (task: " +:+ nextcloud_task
       +:+ "), Paperless (task: " +:+ paperless_task +:+ ")")
      "info" None (Some "send_to_all") (Some "success") None None ;;;
    ret [("status", JStr "All upload tasks enqueued");
         ("file_path", JStr file_path);
         ("task_ids", JObj [("dropbox", JStr dropbox_task);
                            ("nextcloud", JStr nextcloud_task);
                            ("paperless", JStr paperless_task)])].

Definition send_to_all_destinations (file_path : string) : M dict :=
    log_task E "send_to_all_destinations" file_path
      (send_to_all_destinations_body file_path).

Definition finalize_document_storage_body
      (original_file processed_file : string) (metadata : dict) : M dict :=
    task_logger E ("Finalizing document storage for " +:+ processed_file) "info"
      None (Some "finalize_storage") None None None ;;;
    send_task <- delay E (SendToAllDestinations processed_file) ;;
    task_logger E ("Triggered send to all destinations with task ID: " +:+ send_task)
      "info" None (Some "finalize_storage") (Some "success") None None ;;;
    ret [("status", JStr "Completed");
         ("file", JStr processed_file);
         ("send_task_id", JStr send_task)].

Definition finalize_document_storage
      (original_file processed_file : string) (metadata : dict) : M dict :=
    log_task E "finalize_storage" original_file
      (finalize_document_storage_body original_file processed_file metadata).

End FanOut.

(** ** app/tasks/process_document.py *)

Section ProcessDocument.
  Context (E : collaborators) (settings : Settings).

  (** [db.query(FileRecord).filter(FileRecord.filehash == h).one_or_none()] *)
Definition one_or_none (h : string) : M (option FileRecord) :=
    w <- get ;;
    match List.filter (λ r, bool_decide (filehash r = h)) (files w) with
    | [] => ret None
    | [r] => ret (Some r)
    | _ => raise MultipleResultsFound
    end.

  (** Lines 62-72: the new row is added with an empty [local_filename] and
      committed; [db.refresh] loads the id the database assigned. *)
Definition create_file_record (self_id original_local_file filehash original_filename : string)
      (file_size : Z) (mime_type : string) : M FileRecord :=
    task_logger E ("Creating file record for " +:+ original_local_file) "info"
      (Some self_id) (Some "create_file_record") None None None ;;;
    w <- get ;;
    let new_record :=
      {| id := next_id (id <$> files w);
         filehash := filehash;
         original_filename := original_filename;
         local_filename := "";
         file_size := file_size;
         mime_type := mime_type |} in
    modify (set_files (λ rs, rs ++ [new_record])) ;;;
    ret new_record.

  (** [new_record.local_filename = path; db.commit()] *)
Definition update_local_filename (record_id : Z) (path : string) : M unit :=
    modify (set_files (fmap (λ r,
      if decide (id r = record_id)
      then {| id := id r; filehash := filehash r;
              original_filename := original_filename r;
              local_filename := path;
              file_size := file_size r; mime_type := mime_type r |}
      else r))).

  (** [shutil.copy(src, dst)] between regular files. *)
Definition shutil_copy (src dst : string) : M unit :=
    data <- read_file src ;;
    write_file E dst data.

  (** Lines 74-89: the working copy is made under [<workdir>/tmp] and only
      then does a second commit record its path. *)
Definition place_working_copy (self_id original_local_file : string)
      (new_record : FileRecord) : M (string * string) :=
    task_logger E "Copying to workdir" "info"
      (Some self_id) (Some "copy_to_workdir") None None (Some (id new_record)) ;;;
    let file_ext := (OsPath.splitext original_local_file).2 in
    file_uuid <- draw_uuid E ;;
    let new_filename := file_uuid +:+ file_ext in
    let tmp_dir := OsPath.join (workdir settings) "tmp" in
    os_makedirs E tmp_dir ;;;
    let new_local_path := OsPath.join tmp_dir new_filename in
    shutil_copy original_local_file new_local_path ;;;
    update_local_filename (id new_record) new_local_path ;;;
    ret (new_filename, new_local_path).

  (** [fitz.open(path)] followed by [page.get_text()] on every page. *)
Definition fitz_open_text (path : string) : M (list string) :=
    data <- read_file path ;;
    lift_option FileDataError (fitz_get_text E data).

  (** [any(page.get_text() for page in pdf_doc)] *)
Definition has_text (pages : list string) : bool :=
    existsb PyStr.nonempty pages.

  (** The loop [extracted_text += page.get_text("text") + "\n"] *)
Definition extract_text (pages : list string) : string :=
    foldl (λ acc page, acc +:+ page +:+ String "010" "") "" pages.

  (** Lines 93-126. *)
Definition dispatch_text_extraction (self_id original_local_file : string)
      (new_record : FileRecord) (new_filename new_local_path : string) : M dict :=
    task_logger E "Checking for embedded text" "info"
      (Some self_id) (Some "check_embedded_text") None None (Some (id new_record)) ;;;
    pdf_doc <- fitz_open_text new_local_path ;;
    if has_text pdf_doc then
      task_logger E
        ("PDF " +:+ original_local_file +:+ " contains embedded text. Processing locally.")
        "info" (Some self_id) (Some "process_document") None None (Some (id new_record)) ;;;
      task_logger E "Extracting text locally" "info"
        (Some self_id) (Some "extract_text_locally") None None (Some (id new_record)) ;;;
      pdf_doc <- fitz_open_text new_local_path ;;
      let extracted_text := extract_text pdf_doc in
      task_logger E "Text extracted locally. Queuing for metadata extraction." "info"
        (Some self_id) (Some "process_document") (Some "success") None
        (Some (id new_record)) ;;;
      metadata_task <- delay E (ExtractMetadataWithGpt new_filename extracted_text) ;;
      task_logger E ("Triggered metadata extraction task: " +:+ metadata_task) "info"
        (Some self_id) (Some "process_document") None None None ;;;
      ret [("file", JStr new_local_path);
           ("status", JStr "Text extracted locally");
           ("file_id", JNum (id new_record))]
    else
      task_logger E "No embedded text found. Queuing for OCR." "info"
        (Some self_id) (Some "process_document") (Some "success") None
        (Some (id new_record)) ;;;
      ocr_task <- delay E (ProcessWithTextract new_filename) ;;
      task_logger E ("Triggered OCR task: " +:+ ocr_task) "info"
        (Some self_id) (Some "process_document") None None None ;;;
      ret [("file", JStr new_local_path);
           ("status", JStr "Queued for OCR");
           ("file_id", JNum (id new_record))].

  (** Lines 33-72, up to and including the first commit: either the task is
      over (missing file, duplicate), or the new row has just been
      committed. *)
Definition ingest (self_id original_local_file : string) : M (dict + FileRecord) :=
    task_logger E ("Processing " +:+ original_local_file) "info"
      (Some self_id) (Some "process_document") None (Some original_local_file) None ;;;
    w <- get ;;
    if negb (path_exists w original_local_file) then
      task_logger E ("File " +:+ original_local_file +:+ " not found.") "error"
        (Some self_id) (Some "process_document") None None None ;;;
      ret (inl [("error", JStr "File not found")])
    else
      task_logger E ("Computing hash for " +:+ original_local_file) "info"
        (Some self_id) (Some "compute_hash") None None None ;;;
      filehash <- hash_file E original_local_file ;;
      let original_filename := OsPath.basename original_local_file in
      data <- read_file original_local_file ;;
      let file_size := Z.of_nat (length data) in
      let mime_type :=
        match guess_type E original_local_file with
        | Some t => if PyStr.nonempty t then t else "application/octet-stream"
        | None => "application/octet-stream"
        end in
      task_logger E "Checking for duplicate files" "info"
        (Some self_id) (Some "check_duplicates") None None None ;;;
      existing_record <- one_or_none filehash ;;
      match existing_record with
      | Some existing_record =>
          task_logger E
            ("Duplicate file detected (hash=" +:+ PyStr.str (take 10 (PyStr.chars filehash))
             +:+ "...). Skipping processing.")
            "info" (Some self_id) (Some "process_document") (Some "success") None
            (Some (id existing_record)) ;;;
          ret (inl [("status", JStr "duplicate_file");
                    ("file_id", JNum (id existing_record));
                    ("detail", JStr "File already processed.")])
      | None =>
          new_record <-
            create_file_record self_id original_local_file filehash original_filename
              file_size mime_type ;;
          ret (inr new_record)
      end.

Definition process_document_body (self_id original_local_file : string) : M dict :=
    ingested <- ingest self_id original_local_file ;;
    match ingested with
    | inl result => ret result
    | inr new_record =>
        placed <- place_working_copy self_id original_local_file new_record ;;
        dispatch_text_extraction self_id original_local_file new_record
          placed.1 placed.2
    end.

  (** The name and the path of the working copy that an invocation started
      in [w] creates, and the one message it leaves on the broker. *)
Definition working_name (w : world) (original_local_file : string) : string :=
    uuid4 E (entropy w) +:+ (OsPath.splitext original_local_file).2.

Definition working_path (w : world) (original_local_file : string) : string :=
    OsPath.join (OsPath.join (workdir settings) "tmp")
      (working_name w original_local_file).

Definition successor (pages : list string) (new_filename : string) : task_msg :=
    if has_text pages
    then ExtractMetadataWithGpt new_filename (extract_text pages)
    else ProcessWithTextract new_filename.

Definition mime_type_of (original_local_file : string) : string :=
    match guess_type E original_local_file with
    | Some t => if PyStr.nonempty t then t else "application/octet-stream"
    | None => "application/octet-stream"
    end.

  (** The row that the first commit of an invocation started in [w] inserts
      for a file with content [data], and the row once the second commit has
      recorded the working copy. *)
Definition inserted_record (w : world) (original_local_file : string) (data : bytes)
      : FileRecord :=
    {| id := next_id (id <$> files w);
       filehash := sha256 E data;
       original_filename := OsPath.basename original_local_file;
       local_filename := "";
       file_size := Z.of_nat (length data);
       mime_type := mime_type_of original_local_file |}.

Definition placed_record (w : world) (original_local_file : string) (data : bytes)
      : FileRecord :=
    {| id := next_id (id <$> files w);
       filehash := sha256 E data;
       original_filename := OsPath.basename original_local_file;
       local_filename := working_path w original_local_file;
       file_size := Z.of_nat (length data);
       mime_type := mime_type_of original_local_file |}.

Definition dispatch_result (pages : list string) (new_local_path : string)
      (file_id : Z) : dict :=
    [("file", JStr new_local_path);
     ("status", JStr (if has_text pages then "Text extracted locally"
                      else "Queued for OCR"));
     ("file_id", JNum file_id)].

  (** The world a first sighting leaves behind, audit entries apart: the row
      with its working path, the working copy on disk and, when the copy
      opens as a PDF with the given pages, one message on the broker. *)
Definition after_placement (w : world) (original_local_file : string) (data : bytes)
      : world :=
    set_files (λ rs, rs ++ [placed_record w original_local_file data])
      (set_fs <[working_path w original_local_file := data]> (set_entropy S w)).

Definition after_dispatch (w : world) (original_local_file : string) (data : bytes)
      (pages : list string) : world :=
    set_broker
      (λ b, b ++ [(uuid4 E (S (entropy w)),
                   successor pages (working_name w original_local_file))])
      (set_entropy S (after_placement w original_local_file data)).

  (** The error, if any, with which the working copy of an invocation started
      in [w] cannot be placed: a regular file where [<workdir>/tmp] should
      be, or the operating system refusing the directory or the copy. *)
Definition placement_error (w : world) (original_local_file : string) : option exn :=
    let tmp_dir := OsPath.join (workdir settings) "tmp" in
    if path_exists w tmp_dir then Some FileExistsError
    else
      match os_refuses E (OpMakedirs tmp_dir) with
      | Some e => Some e
      | None => os_refuses E (OpWrite (working_path w original_local_file))
      end.

  (** The world a first sighting leaves behind, audit entries apart, when
      the working copy could not be placed: the row of the first commit, as
      it was inserted. *)
Definition after_failed_placement (w : world) (original_local_file : string)
      (data : bytes) : world :=
    set_files (λ rs, rs ++ [inserted_record w original_local_file data])
      (set_entropy S w).

Definition duplicate_result (existing_record : FileRecord) : dict :=
    [("status", JStr "duplicate_file");
     ("file_id", JNum (id existing_record));
     ("detail", JStr "File already processed.")].

Definition process_document (self_id original_local_file : string) : M dict :=
    log_task E "process_document" original_local_file
      (process_document_body self_id original_local_file).

End ProcessDocument.

(** ** Invocations of [process_document] running side by side

    An invocation reaches the [files] table in two transactions of one
    session: the first (lines 52-71) looks for a row with the hash and, when
    there is none, inserts the new row and commits; the second (lines 87-89)
    records the path of the working copy.  Concurrent invocations interleave
    at these transactions; what the task does between two of its commits is
    run together with the commit that follows. *)

Section Invocations.
  Context (E : collaborators) (settings : Settings).

  (** Where an invocation stands. *)
Inductive stage :=
  | Queued (self_id original_local_file : string)
  | RowCommitted (self_id original_local_file : string) (new_record : FileRecord)
      (* after the commit of line 71 *)
  | CopyPlaced (self_id original_local_file : string) (new_record : FileRecord)
      (new_filename new_local_path : string)
      (* after the commit of line 89 *)
  | Over (outcome : result dict).

  (** The next part of the task body for an invocation standing at [s]. *)
Definition stage_step (s : stage) (w : world) : option (stage * world) :=
    match s with
    | Queued self_id original_local_file =>
        match ingest E self_id original_local_file w with
        | (Ret (inl result), w') => Some (Over (Ret result), w')
        | (Ret (inr new_record), w') =>
            Some (RowCommitted self_id original_local_file new_record, w')
        | (Raise e, w') => Some (Over (Raise e), w')
        end
    | RowCommitted self_id original_local_file new_record =>
        match place_working_copy E settings self_id original_local_file new_record w with
        | (Ret placed, w') =>
            Some (CopyPlaced self_id original_local_file new_record placed.1 placed.2,
                  w')
        | (Raise e, w') => Some (Over (Raise e), w')
        end
    | CopyPlaced self_id original_local_file new_record new_filename new_local_path =>
        let '(outcome, w') :=
          dispatch_text_extraction E self_id original_local_file new_record
            new_filename new_local_path w in
        Some (Over outcome, w')
    | Over _ => None
    end.

  (** The content hashes of the rows of [files], in table order. *)
Definition hashes (w : world) : list string := filehash <$> files w.

  (** Modelled from the spec: the session factory and the declaration of the
      table (app/database.py, app/models.py) are not among the sources, so
      how the database isolates two sessions is taken from section 5 of the
      spec, which has the Document Record accessed through short-lived,
      stage-scoped transactions: a transaction is one move of the pool, and
      no other invocation moves inside it.  The invocations of a pool share
      the database, the disk and the broker. *)
Record pool := {
    store : world;
    running : list stage;
  }.

Inductive pool_moves : pool → pool → Prop :=
  | move_invocation w stages i s s' w' :
      stages !! i = Some s →
      stage_step s w = Some (s', w') →
      pool_moves {| store := w; running := stages |}
                 {| store := w'; running := <[i := s']> stages |}.

  (** An invocation run on its own, part after part. *)
Fixpoint run_stages (fuel : nat) (s : stage) (w : world) : stage * world :=
    match fuel with
    | O => (s, w)
    | S fuel' =>
        match stage_step s w with
        | Some (s', w') => run_stages fuel' s' w'
        | None => (s, w)
        end
    end.

End Invocations.

(** ** app/tasks/extract_metadata_with_gpt.py *)

(** [re.search(r"```(?:json)?\s*(\{.*?\})\s*```", text, re.DOTALL)], written
    out for this one pattern.  A [str] is a sequence of code points below
    256. *)
Module Re.
  Import PyStr.

  (** [\s] on a [str] pattern: the characters for which [str.isspace] holds. *)
Definition is_space (c : ascii) : bool :=
    let n := nat_of_ascii c in
    ((9 <=? n) && (n <=? 13) || (28 <=? n) && (n <=? 32)
     || (n =? 133) || (n =? 160))%nat.

Definition fence : list ascii := ["`"; "`"; "`"]%char.

  (** Greedy [\s*]: what is left once all leading white space is consumed.
      What follows [\s*] in the pattern is never white space, so giving some
      of it back cannot help. *)
Fixpoint skip_space (l : list ascii) : list ascii :=
    match l with
    | c :: l' => if is_space c then skip_space l' else l
    | [] => []
    end.

  (** Lazy [.*?] then [\}\s*```]: the first closing brace that is followed
      by optional white space and a fence ends the group.  [acc] is the
      group matched so far, reversed. *)
Fixpoint close_group (l acc : list ascii) : option (list ascii) :=
    match l with
    | [] => None
    | c :: l' =>
        if bool_decide (c = "}"%char) && starts_with fence (skip_space l')
        then Some (rev (c :: acc))
        else close_group l' (c :: acc)
    end.

  (** [\s*(\{.*?\})\s*```] *)
Definition open_group (l : list ascii) : option (list ascii) :=
    match skip_space l with
    | c :: l' => if bool_decide (c = "{"%char) then close_group l' [c] else None
    | [] => None
    end.

  (** The pattern anchored at the start of [l]; [(?:json)?] first tries to
      consume the word and falls back to consuming nothing. *)
Definition match_here (l : list ascii) : option (list ascii) :=
    if starts_with fence l then
      let l := drop 3 l in
      if starts_with (chars "json") l then
        match open_group (drop 4 l) with
        | Some g => Some g
        | None => open_group l
        end
      else open_group l
    else None.

  (** The leftmost match; the value is group 1. *)
Fixpoint search (l : list ascii) : option (list ascii) :=
    match match_here l with
    | Some g => Some g
    | None =>
        match l with
        | [] => None
        | _ :: l' => search l'
        end
    end.

End Re.

Section ExtractMetadata.
  Context (E : collaborators).

Definition extract_json_from_text (text : string) : option string :=
    let l := PyStr.chars text in
    match Re.search l with
    | Some g => Some (PyStr.str g)
    | None =>
        match PyStr.find_char "{" l, PyStr.rfind_char "}" l with
        | Some start, Some end_ =>
            if bool_decide (start < end_)%nat
            then Some (PyStr.str (take (S end_ - start) (drop start l)))
            else None
        | _, _ => None
        end
    end.

  (** The stage signals a response without JSON by an empty dict and a
      logged failure. *)
Definition no_json_found (s3_filename : string) : M dict :=
    task_logger E ("Could not find valid JSON in GPT response for " +:+ s3_filename)
      "error" None (Some "extract_metadata") None None None ;;;
    ret [].

Definition extract_metadata_with_gpt_body (self_id s3_filename cleaned_text : string)
      : M dict :=
    (* session = SessionLocal() *)
    try_finally
      (try_except
         (task_logger E ("Starting metadata extraction for " +:+ s3_filename) "info"
            (Some self_id) (Some "extract_metadata") None None None ;;;
          task_logger E ("Sending classification request for " +:+ s3_filename) "info"
            None (Some "extract_metadata") None None None ;;;
          content <- lift_result (chat_completion E cleaned_text) ;;
          task_logger E ("Received raw classification response for " +:+ s3_filename)
            "info" None (Some "extract_metadata") None None None ;;;
          match extract_json_from_text content with
          | None => no_json_found s3_filename
          | Some json_text =>
              if negb (PyStr.nonempty json_text) then no_json_found s3_filename
              else
                metadata <- lift_option JSONDecodeError (json_loads E json_text) ;;
                task_logger E ("Successfully extracted metadata from " +:+ s3_filename)
                  "info" None (Some "extract_metadata") None None None ;;;
                embed_task <-
                  delay E (EmbedMetadataIntoPdf s3_filename cleaned_text metadata) ;;
                task_logger E ("Triggered embed_metadata task with ID: " +:+ embed_task)
                  "info" None (Some "extract_metadata") None None None ;;;
                w <- get ;;
                match query_first
                        (λ r, sql_like E (local_filename r) ("%" +:+ s3_filename))
                        (files w) with
                | Some file_record =>
                    task_logger E
                      ("Found file record ID " +:+ pretty (id file_record)
                       +:+ ", updating metadata") "info"
                      None (Some "extract_metadata") None None None
                | None =>
                    task_logger E ("No file record found for " +:+ s3_filename)
                      "warning" None (Some "extract_metadata") None None None
                end ;;;
                ret [("file", JStr s3_filename); ("metadata", JObj metadata)]
          end)
         (λ e,
            task_logger E
              ("OpenAI classification failed for " +:+ s3_filename +:+ ": "
               +:+ exn_str e)
              "error" None (Some "extract_metadata") None None None ;;;
            ret []))
      (* session.close() *)
      (ret tt).

Definition extract_metadata_with_gpt (self_id s3_filename cleaned_text : string)
      : M dict :=
    log_task E "extract_metadata" s3_filename
      (extract_metadata_with_gpt_body self_id s3_filename cleaned_text).

End ExtractMetadata.

(** ** app/tasks/embed_metadata_into_pdf.py *)

Section EmbedMetadata.
  Context (E : collaborators) (settings : Settings).

  (** The [while True] loop of [unique_filepath], run for at most [fuel]
      counters starting at [counter]. *)
Fixpoint unique_filepath_loop (w : world) (directory base_filename extension : string)
      (fuel counter : nat) : option string :=
    match fuel with
    | O => None
    | S fuel' =>
        let candidate :=
          OsPath.join directory
            (base_filename +:+ "_" +:+ pretty counter +:+ extension) in
        if path_exists w candidate
        then unique_filepath_loop w directory base_filename extension fuel' (S counter)
        else Some candidate
    end.

  (** The name tried for a given counter. *)
Definition candidate (directory base_filename extension : string) (counter : nat)
      : string :=
    OsPath.join directory (base_filename +:+ "_" +:+ pretty counter +:+ extension).

  (** One counter more than there are files is granted to the loop. *)
Definition unique_filepath (directory base_filename extension : string) : M string :=
    w <- get ;;
    let candidate := OsPath.join directory (base_filename +:+ extension) in
    if negb (path_exists w candidate) then ret candidate
    else lift_option Diverges
           (unique_filepath_loop w directory base_filename extension
              (S (size (fs w))) 1).

Definition persist_metadata (metadata : dict) (final_pdf_path : string) : M string :=
    let base := (OsPath.splitext final_pdf_path).1 in
    let json_path := base +:+ ".json" in
    write_file E json_path (json_dumps E metadata) ;;;
    ret json_path.

  (** [sep.join(l)] *)
Definition str_join (sep : string) (l : list string) : string :=
    match l with
    | [] => ""
    | x :: l' => foldl (λ acc y, acc +:+ sep +:+ y) x l'
    end.

  (** The strings that iterating over a JSON value yields, where [str.join]
      accepts it: the items of a list of strings, the characters of a string,
      the keys of an object. *)
Definition iter_strings (v : json) : option (list string) :=
    match v with
    | JArr l => mapM (λ x, match x with JStr s => Some s | _ => None end) l
    | JStr s => Some ((λ c, String c "") <$> PyStr.chars s)
    | JObj o => Some (o.*1)
    | _ => None
    end.

  (** [fitz.open], [doc.set_metadata], [doc.save(incremental=True, ...)] *)
Definition embed_standard_fields (processed_file : string) (metadata : dict) : M unit :=
    data <- read_file processed_file ;;
    lift_option FileDataError (fitz_get_text E data) ;;;
    keywords <-
      lift_option TypeError
        (str_join ", " <$> iter_strings (dict_get_default "tags" (JArr []) metadata)) ;;
    data' <-
      lift_option FileDataError
        (fitz_set_metadata E data
           (dict_get_default "filename" (JStr "Unknown Document") metadata)
           (dict_get_default "absender" (JStr "Unknown") metadata)
           (dict_get_default "document_type" (JStr "Unknown") metadata)
           keywords) ;;
    write_file E processed_file data'.

  (** [shutil.move(src, dst)] between regular files, [dst] not a directory. *)
Definition shutil_move (src dst : string) : M unit :=
    if decide (src = dst) then ret tt
    else
      data <- read_file src ;;
      write_file E dst data ;;;
      os_remove E src.

  (** The body of the [try] block, lines 80-134. *)
Definition embed_and_move (original_file processed_file : string) (metadata : dict)
      : M dict :=
    task_logger E ("Embedding metadata into " +:+ processed_file) "info"
      None (Some "embed_metadata") None None None ;;;
    embed_standard_fields processed_file metadata ;;;
    task_logger E "Metadata embedded successfully" "info"
      None (Some "embed_metadata") None None None ;;;
    suggested_filename <-
      match dict_get_default "filename"
              (JStr (OsPath.splitext (OsPath.basename original_file)).1) metadata with
      | JStr s => ret (OsPath.splitext s).1
      | _ => raise TypeError
      end ;;
    let final_dir := OsPath.join (workdir settings) "processed" in
    os_makedirs E final_dir ;;;
    final_file_path <- unique_filepath final_dir suggested_filename ".pdf" ;;
    shutil_move processed_file final_file_path ;;;
    task_logger E ("Moved processed file to " +:+ final_file_path) "info"
      None (Some "embed_metadata") None None None ;;;
    w <- get ;;
    (if path_exists w processed_file then os_remove E processed_file else ret tt) ;;;
    json_path <- persist_metadata metadata final_file_path ;;
    task_logger E ("Metadata persisted to " +:+ json_path) "info"
      None (Some "embed_metadata") None None None ;;;
    finalize_doc_task <-
      delay E (FinalizeDocumentStorage original_file final_file_path metadata) ;;
    task_logger E
      ("Triggered final document storage with task ID: " +:+ finalize_doc_task) "info"
      None (Some "embed_metadata") None None None ;;;
    let workdir_tmp := OsPath.join (workdir settings) "tmp" in
    w <- get ;;
    (if PyStr.startswith original_file workdir_tmp && path_exists w original_file then
       try_except
         (os_remove E original_file ;;;
          task_logger E ("Deleted original file from " +:+ original_file) "info"
            None (Some "embed_metadata") None None None ;;;
          ret tt)
         (λ e,
            task_logger E
              ("Could not delete original file " +:+ original_file +:+ ": "
               +:+ exn_str e)
              "warning" None (Some "embed_metadata") None None None ;;;
            ret tt)
     else ret tt) ;;;
    ret [("file", JStr final_file_path);
         ("metadata_file", JStr json_path);
         ("status", JStr "Metadata embedded")].

  (** [/tmp/processed_<name>] *)
Definition working_copy_of (local_file_path : string) : string :=
    OsPath.join "/tmp" ("processed_" +:+ OsPath.basename local_file_path).

  (** Lines 59-68: the path as given, else the same name under
      [<workdir>/tmp], else nothing. *)
Definition locate_input (local_file_path : string) : M (option string) :=
    w <- get ;;
    if negb (path_exists w local_file_path) then
      let alt_path :=
        OsPath.join (OsPath.join (workdir settings) "tmp")
          (OsPath.basename local_file_path) in
      if path_exists w alt_path then
        task_logger E ("Using alternative path: " +:+ alt_path) "info"
          None (Some "embed_metadata") None None None ;;;
        ret (Some alt_path)
      else
        task_logger E
          ("Local file " +:+ local_file_path +:+ " not found, cannot embed metadata.")
          "error" None (Some "embed_metadata") None None None ;;;
        ret None
    else ret (Some local_file_path).

Definition embed_metadata_into_pdf_body (local_file_path extracted_text : string)
      (metadata : dict) : M dict :=
    located <- locate_input local_file_path ;;
    match located with
    | None => ret [("error", JStr "File not found")]
    | Some local_file_path =>
        let original_file := local_file_path in
        let processed_file := working_copy_of local_file_path in
        shutil_copy E original_file processed_file ;;;
        task_logger E ("Created working copy at " +:+ processed_file) "info"
          None (Some "embed_metadata") None None None ;;;
        try_except
          (embed_and_move original_file processed_file metadata)
          (λ e,
             task_logger E
               ("Failed to embed metadata into " +:+ processed_file +:+ ": "
                +:+ exn_str e)
               "error" None (Some "embed_metadata") None None None ;;;
             ret [("error", JStr (exn_str e))])
    end.

Definition embed_metadata_into_pdf (local_file_path extracted_text : string)
      (metadata : dict) : M dict :=
    log_task E "embed_metadata" local_file_path
      (embed_metadata_into_pdf_body local_file_path extracted_text metadata).

End EmbedMetadata.

(** ** app/tasks/imap_tasks.py *)

Section Imap.
  Context (E : collaborators) (settings : Settings).

Definition LOCK_KEY : string := "imap_lock".
Definition LOCK_EXPIRE : Z := 300.

  (** [redis_client.setnx(key, value)] *)
Definition redis_setnx (key value : string) : M bool :=
    w <- get ;;
    match redis w !! key with
    | Some _ => ret false
    | None =>
        modify (set_redis <[key := {| redis_value := value; redis_ttl := None |}]>) ;;;
        ret true
    end.

  (** [redis_client.expire(key, seconds)] *)
Definition redis_expire (key : string) (seconds : Z) : M unit :=
    modify (set_redis (alter
      (λ e, {| redis_value := redis_value e; redis_ttl := Some seconds |}) key)).

  (** [redis_client.delete(key)] *)
Definition redis_delete (key : string) : M unit :=
    modify (set_redis (delete key)).

Definition acquire_lock : M bool :=
    lock_acquired <- redis_setnx LOCK_KEY "locked" ;;
    if lock_acquired then
      redis_expire LOCK_KEY LOCK_EXPIRE ;;;
      ret true
    else ret false.

Definition release_lock : M unit :=
    redis_delete LOCK_KEY.

Definition cleanup_old_entries (processed_emails : gmap string string)
      : M (gmap string string) :=
    w <- get ;;
    let seven_days_ago := instant (clock w) - timedelta_days 7 in
    map_fold
      (λ msg_id date_str (earlier : M (gmap string string)),
         valid_emails <- earlier ;;
         aware_dt <- lift_option ValueError (strptime date_str) ;;
         if seven_days_ago <? instant aware_dt
         then ret (<[msg_id := date_str]> valid_emails)
         else ret valid_emails)
      (ret ∅) processed_emails.

  (** Whether a cache entry stamped [date_str] is strictly newer than seven
      days before [now]. *)
Definition is_recent (now : datetime) (date_str : string) : bool :=
    match strptime date_str with
    | Some aware_dt => instant now - timedelta_days 7 <? instant aware_dt
    | None => false
    end.

Definition is_JSONDecodeError (e : exn) : bool :=
    match e with
    | JSONDecodeError => true
    | _ => false
    end.

Definition load_processed_emails : M (gmap string string) :=
    w <- get ;;
    match cache_file w with
    | Some content =>
        try_catch is_JSONDecodeError
          (processed_emails <-
             match content with
             | Mapping m => ret m
             | NotJson => raise JSONDecodeError
             end ;;
           cleanup_old_entries processed_emails)
          (λ _, ret ∅)
    | None => ret ∅
    end.

Definition save_processed_emails (processed_emails : gmap string string) : M unit :=
    modify (set_cache_file (Some (Mapping processed_emails))).

Definition imap_do (c : imap_cmd) : M unit :=
    modify (set_imap_log (λ l, l ++ [c])).

  (** [mail.store(num, op, flag)] *)
Definition imap_store (mail : imap_server) (num op flag : string) : M unit :=
    imap_do (ImapStore num op flag) ;;;
    if store_ok mail num flag then ret tt else raise IMAPError.

Definition fetch_attachments_and_enqueue (email_message : list mail_part) : M bool :=
    for_fold email_message false
      (λ part has_attachment,
         if decide (content_maintype part = "multipart") then ret has_attachment
         else
           let filename := part_filename part in
           if truthy_str filename
              && bool_decide (content_type part = "application/pdf")
           then
             let file_path := OsPath.join (workdir settings) (default "" filename) in
             write_file E file_path (payload part) ;;;
             delay E (UploadToS3 file_path) ;;;
             ret true
           else ret has_attachment).

  (** Whether the Gmail label fetch reports [label] on the message. *)
Definition labelled (msg : fetched) (label : string) : bool :=
    match gm_labels msg with
    | Ret (Some raw_labels) =>
        PyStr.contains (PyStr.chars label) (PyStr.chars raw_labels)
    | _ => false
    end.

Definition is_gmail (host : string) : bool :=
    PyStr.contains (PyStr.chars "gmail") (PyStr.chars (PyStr.lower host)).

Definition email_already_has_label (msg : fetched) (label : string) : M bool :=
    try_except
      (imap_do (ImapFetch (msg_num msg) "(X-GM-LABELS)") ;;;
       label_data <- lift_result (gm_labels msg) ;;
       match label_data with
       | Some raw_labels =>
           ret (PyStr.contains (PyStr.chars label) (PyStr.chars raw_labels))
       | None => ret false
       end)
      (λ e, ret false).

Definition mark_as_processed_with_star (mail : imap_server) (num : string) : M unit :=
    try_except (imap_store mail num "+FLAGS" "\Flagged") (λ e, ret tt).

Definition mark_as_processed_with_label (mail : imap_server) (num label : string)
      : M unit :=
    try_except (imap_store mail num "+X-GM-LABELS" label) (λ e, ret tt).

  (** One iteration of the loop over the message numbers, lines 174-220;
      the dict of processed mails is the loop-carried state. *)
Definition handle_message (mail : imap_server) (host : string)
      (delete_after_process : bool) (msg : fetched)
      (processed_emails : gmap string string) : M (gmap string string) :=
    imap_do (ImapFetch (msg_num msg) "(RFC822)") ;;;
    if negb (fetch_ok msg) then ret processed_emails
    else if negb (truthy_str (message_id msg)) then ret processed_emails
    else
      let msg_id := default "" (message_id msg) in
      if bool_decide (is_Some (processed_emails !! msg_id)) then ret processed_emails
      else
        let is_gmail_host :=
          PyStr.contains (PyStr.chars "gmail") (PyStr.chars (PyStr.lower host)) in
        labelled <-
          (if is_gmail_host then email_already_has_label msg "Ingested"
           else ret false) ;;
        if labelled then ret processed_emails
        else
          fetch_attachments_and_enqueue (parts msg) ;;;
          (if is_gmail_host then
             mark_as_processed_with_star mail (msg_num msg) ;;;
             mark_as_processed_with_label mail (msg_num msg) "Ingested"
           else ret tt) ;;;
          w <- get ;;
          let processed_emails := <[msg_id := strftime (clock w)]> processed_emails in
          save_processed_emails processed_emails ;;;
          (if delete_after_process
           then imap_store mail (msg_num msg) "+FLAGS" "\Deleted"
           else imap_store mail (msg_num msg) "-FLAGS" "\Seen") ;;;
          ret processed_emails.

Definition pull_inbox (mailbox_key host : string) (port : Z) (username password : string)
      (use_ssl delete_after_process : bool) : M unit :=
    processed_emails <- load_processed_emails ;;
    try_except
      (imap_do (ImapConnect host port use_ssl) ;;;
       mail <- lift_option IMAPError (imap_connect E host port use_ssl) ;;
       imap_do (ImapLogin username) ;;;
       (if login_ok mail then ret tt else raise IMAPError) ;;;
       imap_do ImapSelect ;;;
       imap_do ImapSearch ;;;
       if negb (search_ok mail) then
         imap_do ImapClose ;;;
         imap_do ImapLogout
       else
         for_fold (unseen mail) processed_emails
           (handle_message mail host delete_after_process) ;;;
         (if delete_after_process then imap_do ImapExpunge else ret tt) ;;;
         imap_do ImapClose ;;;
         imap_do ImapLogout)
      (λ e, ret tt).

Definition check_and_pull_mailbox (mailbox_key : string) (host : option string)
      (port : option Z) (username password : option string)
      (use_ssl delete_after_process : bool) : M unit :=
    if negb (truthy_str host && truthy_id port && truthy_str username
             && truthy_str password)
    then ret tt
    else
      pull_inbox mailbox_key (default "" host) (default 0 port) (default "" username)
        (default "" password) use_ssl delete_after_process.

  (** The body of the [try] block of [pull_all_inboxes]. *)
Definition pull_configured_mailboxes : M unit :=
    check_and_pull_mailbox "imap1" (imap1_host settings) (imap1_port settings)
      (imap1_username settings) (imap1_password settings) (imap1_ssl settings)
      (imap1_delete_after_process settings) ;;;
    check_and_pull_mailbox "imap2" (imap2_host settings) (imap2_port settings)
      (imap2_username settings) (imap2_password settings) (imap2_ssl settings)
      (imap2_delete_after_process settings).

Definition pull_all_inboxes : M unit :=
    locked <- acquire_lock ;;
    if negb locked then ret tt
    else try_finally pull_configured_mailboxes release_lock.

End Imap.

(** ** Two scheduled ticks of the poller running side by side

    Each tick executes [pull_all_inboxes] one Redis command at a time; the
    commands of the two ticks interleave arbitrarily.  Redis itself may drop
    a key whose expiry was set: that is the only move of the environment. *)

Section Ticks.
  Context (E : collaborators) (settings : Settings).

  (** Where a tick stands in [pull_all_inboxes]. *)
Inductive pc :=
  | AtStart                                   (* before [setnx] *)
  | LockSet                                   (* [setnx] gave True, before [expire] *)
  | InBody                                    (* inside the [try] block *)
  | AtFinally (outcome : result unit)         (* before [release_lock()] *)
  | Returned (outcome : result unit) (acquired : bool).

  (** The next command of a tick standing at [p]. *)
Definition tick_step (p : pc) (w : world) : option (pc * world) :=
    match p with
    | AtStart =>
        match redis_setnx LOCK_KEY "locked" w with
        | (Ret true, w') => Some (LockSet, w')
        | (Ret false, w') => Some (Returned (Ret tt) false, w')
        | (Raise e, w') => Some (Returned (Raise e) false, w')
        end
    | LockSet => Some (InBody, (redis_expire LOCK_KEY LOCK_EXPIRE w).2)
    | InBody =>
        let '(outcome, w') := pull_configured_mailboxes E settings w in
        Some (AtFinally outcome, w')
    | AtFinally outcome => Some (Returned outcome true, (release_lock w).2)
    | Returned _ _ => None
    end.

Definition lock_held (w : world) : Prop := is_Some (redis w !! LOCK_KEY).

  (** A tick that is past lock acquisition and has not yet released. *)
Definition holding (p : pc) : bool :=
    match p with
    | LockSet | InBody | AtFinally _ => true
    | AtStart | Returned _ _ => false
    end.

Record system := {
    shared : world;
    tick1 : pc;
    tick2 : pc;
  }.

  (** Redis drops the lock key once its time to live has run out. *)
Definition lock_expires (w : world) : option world :=
    match redis w !! LOCK_KEY with
    | Some e =>
        match redis_ttl e with
        | Some _ => Some (set_redis (delete LOCK_KEY) w)
        | None => None
        end
    | None => None
    end.

Inductive tick_moves : system → system → Prop :=
  | move_tick1 w p1 p2 p1' w' :
      tick_step p1 w = Some (p1', w') →
      tick_moves {| shared := w; tick1 := p1; tick2 := p2 |}
                 {| shared := w'; tick1 := p1'; tick2 := p2 |}
  | move_tick2 w p1 p2 p2' w' :
      tick_step p2 w = Some (p2', w') →
      tick_moves {| shared := w; tick1 := p1; tick2 := p2 |}
                 {| shared := w'; tick1 := p1; tick2 := p2' |}.

Inductive moves : system → system → Prop :=
  | move_tick s s' : tick_moves s s' → moves s s'
  | move_expiry w p1 p2 w' :
      lock_expires w = Some w' →
      moves {| shared := w; tick1 := p1; tick2 := p2 |}
            {| shared := w'; tick1 := p1; tick2 := p2 |}.

  (** What the lock guarantees in every state the two ticks can reach: not
      both are past acquisition, and while one is, the key is in Redis. *)
Definition lock_invariant (s : system) : Prop :=
    holding (tick1 s) && holding (tick2 s) = false
    ∧ (holding (tick1 s) || holding (tick2 s) = true → lock_held (shared s)).

  (** Both ticks are about to start. *)
Definition starting (w : world) : system :=
    {| shared := w; tick1 := AtStart; tick2 := AtStart |}.

  (** A tick run on its own, command after command. *)
Fixpoint run_tick (fuel : nat) (p : pc) (w : world) : pc * world :=
    match fuel with
    | O => (p, w)
    | S fuel' =>
        match tick_step p w with
        | Some (p', w') => run_tick fuel' p' w'
        | None => (p, w)
        end
    end.

End Ticks.

(** ** Stand-ins for the collaborators, to run the model on examples *)

Module Demo.

Definition pdf_with_text : bytes := [Byte.x25; Byte.x50; Byte.x44; Byte.x46; Byte.x01].
Definition pdf_scanned : bytes := [Byte.x25; Byte.x50; Byte.x44; Byte.x46; Byte.x02].
Definition not_a_pdf : bytes := [Byte.x00].

Definition hex_digit (n : N) : ascii :=
    ascii_of_N (if (n <? 10)%N then 48 + n else 87 + n).

  (** An injective stand-in for the digest: the bytes in hexadecimal. *)
Definition hex (data : bytes) : string :=
    PyStr.str (data ≫= λ b, let n := Byte.to_N b in
                             [hex_digit (n / 16); hex_digit (n mod 16)]).

Definition pages_of (data : bytes) : option (list string) :=
    if decide (data = pdf_with_text) then Some ["Invoice 42"; ""]
    else if decide (data = pdf_scanned) then Some [""; ""]
    else None.

Definition invoice_mail : fetched :=
    {| msg_num := "1"; fetch_ok := true;
       message_id := Some "<invoice-42@example.org>";
       parts := [{| content_maintype := "multipart"; content_type := "multipart/mixed";
                    part_filename := None; payload := [] |};
                 {| content_maintype := "text"; content_type := "text/plain";
                    part_filename := None; payload := [Byte.x68; Byte.x69] |};
                 {| content_maintype := "application";
                    content_type := "application/pdf";
                    part_filename := Some "invoice.pdf";
                    payload := pdf_with_text |}];
       gm_labels := Ret None |}.

Definition mailbox : imap_server :=
    {| login_ok := true; search_ok := true; unseen := [invoice_mail];
       store_ok := λ _ _, true |}.

Definition E : collaborators :=
    {| sha256 := hex;
       guess_type := λ _, Some "application/pdf";
       uuid4 := λ n, "uuid-" +:+ pretty n;
       fitz_get_text := pages_of;
       fitz_set_metadata := λ data _ _ _ _, Some data;
       chat_completion := λ text, Ret text;
       json_loads := λ _, Some [("filename", JStr "2024-01-01_Invoice")];
       json_dumps := λ _, [];
       sql_like := λ _ _, false;
       audit_fault := λ _, None;
       imap_connect := λ _ _ _, Some mailbox;
       os_refuses := λ _, None |}.

Definition settings : Settings :=
    {| workdir := "/workdir";
       imap1_host := Some "mail.example.org"; imap1_port := Some 993;
       imap1_username := Some "scanner"; imap1_password := Some "secret";
       imap1_ssl := true; imap1_delete_after_process := false;
       imap2_host := None; imap2_port := Some 993;
       imap2_username := None; imap2_password := None;
       imap2_ssl := true; imap2_delete_after_process := false |}.

Definition noon : datetime :=
    {| year := 2025; month := 3; day := 10; hour := 12; minute := 0; second := 0;
       microsecond := 250000 |}.

Definition empty_world : world :=
    {| fs := ∅; files := []; logs := []; broker := []; entropy := 0; audits := 0;
       current_task := None; redis := ∅; cache_file := None; clock := noon;
       imap_log := [] |}.

  (** A working directory with a text PDF, a renamed copy of it, a scan and
      a file that is no PDF. *)
  (** A seen-mail cache read at [noon] of 2025-03-10: one entry of the
      day before, one exactly seven days old, one older. *)
Definition seen_mails : gmap string string :=
    list_to_map [("<a@example.org>", "2025-03-09T08:15:00");
                 ("<b@example.org>", "2025-03-03T12:00:00");
                 ("<c@example.org>", "2025-01-31T23:59:59");
                 ("<d@example.org>", "2025-03-03T12:00:01")].

Definition world_with_cache : world :=
    set_cache_file (Some (Mapping seen_mails)) empty_world.

  (** A document as the ingest stage leaves it: a working copy under
      [<workdir>/tmp]. *)
Definition staged : world :=
    set_fs (λ _, {["/workdir/tmp/uuid-0.pdf" := pdf_with_text]}) empty_world.

Definition invoice_metadata : dict :=
    [("filename", JStr "2024-01-01_Invoice"); ("absender", JStr "ACME");
     ("tags", JArr [JStr "invoice"; JStr "acme"])].

Definition inbox : world :=
    set_fs (λ _, list_to_map [("/workdir/a.pdf", pdf_with_text);
                              ("/workdir/renamed.pdf", pdf_with_text);
                              ("/workdir/scan.pdf", pdf_scanned);
                              ("/workdir/notes.txt", not_a_pdf)])
      empty_world.

  (** The same working directory with a regular file where the directory
      [<workdir>/tmp] should be. *)
Definition inbox_without_tmp : world :=
    set_fs <["/workdir/tmp" := not_a_pdf]> inbox.

  (** An operating system that lets no file under [/workdir/tmp] be
      removed. *)
Definition E_tmp_protected : collaborators :=
    {| sha256 := sha256 E; guess_type := guess_type E; uuid4 := uuid4 E;
       fitz_get_text := fitz_get_text E; fitz_set_metadata := fitz_set_metadata E;
       chat_completion := chat_completion E; json_loads := json_loads E;
       json_dumps := json_dumps E; sql_like := sql_like E;
       audit_fault := audit_fault E; imap_connect := imap_connect E;
       os_refuses := λ op, match op with
                           | OpRemove path =>
                               if PyStr.startswith path "/workdir/tmp"
                               then Some PermissionError else None
                           | _ => None
                           end |}.

  (** A staged document whose name ends in [.json], and metadata whose
      suggested file name is an absolute path. *)
Definition staged_as_json : world :=
    set_fs (λ _, {["/workdir/tmp/x.json" := pdf_with_text]}) empty_world.

Definition metadata_with_a_path : dict :=
    [("filename", JStr "/tmp/processed_x")].

End Demo.


(** * Verification *)

(** ** Reasoning about the monad *)

Section MonadLaws.
  Context {A B : Type}.

Lemma bind_ret_eq (m : M A) (k : A → M B) w a w' :
    m w = (Ret a, w') → bind m k w = k a w'.
  Proof. intros H. unfold bind. by rewrite H. Qed.

Lemma bind_raise_eq (m : M A) (k : A → M B) w e w' :
    m w = (Raise e, w') → bind m k w = (Raise e, w').
  Proof. intros H. unfold bind. by rewrite H. Qed.

Lemma bind_ret (a : A) (k : A → M B) w : bind (ret a) k w = k a w.
  Proof. done. Qed.

Lemma bind_raise (e : exn) (k : A → M B) w : bind (raise e) k w = (Raise e, w).
  Proof. done. Qed.

Lemma bind_get (k : world → M B) w : bind get k w = k w w.
  Proof. done. Qed.

Lemma bind_modify (f : world → world) (k : unit → M B) w :
    bind (modify f) k w = k tt (f w).
  Proof. done. Qed.

Lemma bind_bind {C} (m : M A) (k : A → M B) (k' : B → M C) w :
    bind (bind m k) k' w = bind m (λ a, bind (k a) k') w.
  Proof. unfold bind. by destruct (m w) as [[a|e] w']. Qed.

Lemma try_except_ret_eq (m : M A) (h : exn → M A) w a w' :
    m w = (Ret a, w') → try_except m h w = (Ret a, w').
  Proof. intros H. unfold try_except. by rewrite H. Qed.

Lemma try_except_raise_eq (m : M A) (h : exn → M A) w e w' :
    m w = (Raise e, w') → try_except m h w = h e w'.
  Proof. intros H. unfold try_except. by rewrite H. Qed.

End MonadLaws.

(** Simplification of projections out of updated worlds. *)
Ltac wsimpl :=
  cbn [fs files logs broker entropy audits current_task redis cache_file clock
       imap_log set_fs set_files set_logs set_broker set_entropy set_audits
       set_redis set_cache_file set_imap_log with_audit fst snd] in *.

Lemma world_ext (w w' : world) :
  fs w = fs w' → files w = files w' → logs w = logs w' → broker w = broker w' →
  entropy w = entropy w' → audits w = audits w' → current_task w = current_task w' →
  redis w = redis w' → cache_file w = cache_file w' → clock w = clock w' →
  imap_log w = imap_log w' → w = w'.
Proof. destruct w, w'. cbn. by intros -> -> -> -> -> -> -> -> -> -> ->. Qed.

(** Two worlds are equal when all their components are. *)
Ltac world_eq := apply world_ext; wsimpl; try done.

(** ** The audit trail never interferes *)

Lemma with_audit_with_audit l n l' n' w :
  with_audit l' n' (with_audit l n w) = with_audit l' n' w.
Proof. done. Qed.

Lemma with_audit_id w : with_audit (logs w) (audits w) w = w.
Proof. by destruct w. Qed.

Section UtilsFacts.
  Context (E : collaborators).

Lemma log_task_progress_cases task_id step_name status message file_id file_path w :
    ∃ r l,
      log_task_progress E task_id step_name status message file_id file_path w
      = (Ret r, with_audit l (S (audits w)) w)
      ∧ if fault_hits E (audits w) file_id file_path
        then r = None ∧ l = logs w
        else ∃ entry, r = Some (log_id entry) ∧ l = logs w ++ [entry]
                      ∧ log_id entry = next_id (log_id <$> logs w)
                      ∧ log_task_id entry = task_id
                      ∧ log_step_name entry = step_name
                      ∧ log_status entry = status
                      ∧ log_message entry = message.
  Proof.
    unfold log_task_progress, try_except, db_step_runs, bind, get, modify, ret, raise,
      fault_hits, lookup_needed, with_audit.
    destruct w as [a b c d e f g h i j k].
    destruct (audit_fault E f) as [s|] eqn:Hf; cbn; rewrite ?Hf;
      [destruct s|];
      destruct (negb (truthy_id file_id) && truthy_str file_path);
      repeat (case_decide; try congruence); cbn;
      repeat (case_decide; try congruence);
      try destruct (query_first _ _); cbn.
    all: eexists _, _; split; [reflexivity|].
    all: first [done | by eexists {| log_id := _ |}].
  Qed.

Lemma log_task_progress_run task_id step_name status message file_id file_path w :
    ∃ r l n,
      log_task_progress E task_id step_name status message file_id file_path w
      = (Ret r, with_audit l n w).
  Proof.
    destruct (log_task_progress_cases task_id step_name status message file_id file_path w)
      as (r & l & ? & _).
    eauto.
  Qed.

Lemma task_logger_run message level task_id step_name status file_path file_id w :
    ∃ r l n,
      task_logger E message level task_id step_name status file_path file_id w
      = (Ret r, with_audit l n w).
  Proof.
    unfold task_logger.
    destruct task_id as [t|]; [rewrite bind_ret | rewrite bind_bind, bind_get, bind_ret].
    all: apply log_task_progress_run.
  Qed.

  (** The decorator is transparent: the task body runs in a world that
      differs from the caller's only by audit entries, and its outcome, be
      it a value or an exception, is passed on unchanged. *)
Lemma log_task_run {A} step_name arg0 (func : M A) w :
    ∃ l n l' n',
      log_task E step_name arg0 func w
      = ((func (with_audit l n w)).1, with_audit l' n' (func (with_audit l n w)).2).
  Proof.
    unfold log_task.
    destruct (log_task_progress_run "unknown_task" step_name "pending"
                (Some "Task queued") None (Some arg0) w) as (r0 & l0 & n0 & H0).
    rewrite (bind_ret_eq _ _ _ _ _ H0).
    destruct (log_task_progress_run "unknown_task" step_name "in_progress"
                (Some "Task started") None (Some arg0) (with_audit l0 n0 w))
      as (r1 & l1 & n1 & H1).
    rewrite with_audit_with_audit in H1.
    exists l1, n1.
    destruct (func (with_audit l1 n1 w)) as [[a|e] w2] eqn:Hf.
    - destruct (log_task_progress_run "unknown_task" step_name "success"
                  (Some "Task completed") None (Some arg0) w2) as (r2 & l2 & n2 & H2).
      exists l2, n2. cbn [fst snd].
      apply try_except_ret_eq.
      rewrite (bind_ret_eq _ _ _ _ _ H1).
      rewrite (bind_ret_eq _ _ _ _ _ Hf).
      by rewrite (bind_ret_eq _ _ _ _ _ H2).
    - destruct (log_task_progress_run "unknown_task" step_name "failure"
                  (Some ("Error: " +:+ exn_str e)) None (Some arg0) w2)
        as (r2 & l2 & n2 & H2).
      exists l2, n2. cbn [fst snd].
      erewrite try_except_raise_eq.
      + by rewrite (bind_ret_eq _ _ _ _ _ H2).
      + rewrite (bind_ret_eq _ _ _ _ _ H1).
        by rewrite (bind_raise_eq _ _ _ _ _ Hf).
  Qed.

Lemma delay_run msg w :
    delay E msg w
    = (Ret (uuid4 E (entropy w)),
       set_broker (λ b, b ++ [(uuid4 E (entropy w), msg)]) (set_entropy S w)).
  Proof. done. Qed.

End UtilsFacts.

(** Run the audit write at the head of the goal. *)
Ltac mlog :=
  match goal with
  | |- context [bind (task_logger ?E ?a ?b ?c ?d ?e ?f ?g) ?k ?w] =>
      let r := fresh "r" in
      let l := fresh "l" in
      let n := fresh "n" in
      let H := fresh "H" in
      destruct (task_logger_run E a b c d e f g w) as (r & l & n & H);
      rewrite (bind_ret_eq _ k w _ _ H); clear H; try clear r; cbv beta
  end.

Ltac mdelay :=
  match goal with
  | |- context [bind (delay ?E ?msg) ?k ?w] =>
      rewrite (bind_ret_eq _ k w _ _ (delay_run E msg w)); cbv beta
  end.

(** ** C4: the fan-out *)

(** C4. Every invocation of [send_to_all_destinations] returns, and it
    returns a dict carrying the three task ids under which exactly three
    messages were appended to the broker, one for Dropbox, one for Nextcloud
    and one for Paperless, in that order; nothing is executed or awaited:
    neither the file system nor the file table changes, and no outcome of any
    upload enters the computation. *)
Theorem send_to_all_enqueues_three_uploads (E : collaborators) (file_path : string)
    (w : world) :
  ∃ dropbox nextcloud paperless w',
    send_to_all_destinations E file_path w
    = (Ret [("status", JStr "All upload tasks enqueued");
            ("file_path", JStr file_path);
            ("task_ids", JObj [("dropbox", JStr dropbox);
                               ("nextcloud", JStr nextcloud);
                               ("paperless", JStr paperless)])], w')
    ∧ broker w' = broker w ++ [(dropbox, UploadToDropbox file_path);
                               (nextcloud, UploadToNextcloud file_path);
                               (paperless, UploadToPaperless file_path)]
    ∧ fs w' = fs w ∧ files w' = files w.
Proof.
  unfold send_to_all_destinations.
  destruct (log_task_run E "send_to_all_destinations" file_path
              (send_to_all_destinations_body E file_path) w)
    as (l & n & l' & n' & ->).
  unfold send_to_all_destinations_body.
  mlog. mdelay. mdelay. mdelay. mlog.
  unfold ret. cbn [fst snd].
  eexists _, _, _, _. split; [reflexivity|].
  wsimpl. by rewrite <- !app_assoc.
Qed.

(** ** The ingest stage *)

Lemma next_id_above (ids : list Z) (x : Z) : x ∈ ids → x < next_id ids.
Proof.
  unfold next_id. induction 1 as [x ids|x y ids _ IH]; cbn; lia.
Qed.

Lemma path_exists_true w p data : fs w !! p = Some data → path_exists w p = true.
Proof. intros H. unfold path_exists. rewrite H. by apply bool_decide_eq_true. Qed.

Lemma path_exists_false w p : fs w !! p = None → path_exists w p = false.
Proof.
  intros H. unfold path_exists. rewrite H. apply bool_decide_eq_false.
  by intros [? [=]].
Qed.

Lemma read_file_run w p data : fs w !! p = Some data → read_file p w = (Ret data, w).
Proof. intros H. unfold read_file. by rewrite bind_get, H. Qed.

Ltac mnorm :=
  repeat first [rewrite bind_bind | rewrite bind_get | rewrite bind_modify
               | rewrite bind_ret | rewrite bind_raise];
  cbv beta.

Ltac mread :=
  match goal with
  | |- context [bind (read_file ?p) ?k ?w] =>
      erewrite (bind_ret_eq (read_file p) k w);
      [| apply read_file_run; wsimpl; eassumption]; cbv beta
  end.

Section ProcessDocumentFacts.
  Context (E : collaborators) (settings : Settings).

Lemma ingest_new self_id path data w :
    fs w !! path = Some data →
    List.filter (λ r, bool_decide (filehash r = sha256 E data)) (files w) = [] →
    ∃ l n,
      ingest E self_id path w
      = (Ret (inr (inserted_record E w path data)),
         with_audit l n (set_files (λ rs, rs ++ [inserted_record E w path data]) w)).
  Proof.
    intros Hfs Hnew. unfold ingest.
    mlog. rewrite bind_get.
    rewrite (path_exists_true _ _ data) by done. cbn [negb].
    mlog. unfold hash_file. rewrite bind_bind.
    mread. rewrite bind_ret. mread.
    mlog.
    unfold one_or_none. rewrite bind_bind, bind_get. wsimpl.
    rewrite Hnew. rewrite bind_ret.
    unfold create_file_record. rewrite bind_bind. mlog.
    by eexists _, _.
  Qed.

Lemma ingest_duplicate self_id path data w existing_record :
    fs w !! path = Some data →
    List.filter (λ r, bool_decide (filehash r = sha256 E data)) (files w)
    = [existing_record] →
    ∃ l n,
      ingest E self_id path w = (Ret (inl (duplicate_result existing_record)), with_audit l n w).
  Proof.
    intros Hfs Hone. unfold ingest.
    mlog. rewrite bind_get.
    rewrite (path_exists_true _ _ data) by done. cbn [negb].
    mlog. unfold hash_file. rewrite bind_bind.
    mread. rewrite bind_ret. mread.
    mlog.
    unfold one_or_none. rewrite bind_bind, bind_get. wsimpl.
    rewrite Hone. rewrite bind_ret. mlog.
    by eexists _, _.
  Qed.

Lemma ingest_ambiguous self_id path data w r1 r2 rs :
    fs w !! path = Some data →
    List.filter (λ r, bool_decide (filehash r = sha256 E data)) (files w)
    = r1 :: r2 :: rs →
    ∃ l n,
      ingest E self_id path w = (Raise MultipleResultsFound, with_audit l n w).
  Proof.
    intros Hfs Hmany. unfold ingest.
    mlog. rewrite bind_get.
    rewrite (path_exists_true _ _ data) by done. cbn [negb].
    mlog. unfold hash_file. rewrite bind_bind.
    mread. rewrite bind_ret. mread.
    mlog.
    unfold one_or_none. rewrite bind_bind, bind_get. wsimpl.
    rewrite Hmany. rewrite bind_raise.
    by eexists _, _.
  Qed.

Lemma ingest_missing self_id path w :
    fs w !! path = None →
    ∃ l n,
      ingest E self_id path w
      = (Ret (inl [("error", JStr "File not found")]), with_audit l n w).
  Proof.
    intros Hfs. unfold ingest.
    mlog. rewrite bind_get.
    rewrite path_exists_false by done. cbn [negb].
    mlog. by eexists _, _.
  Qed.

  (** The second commit touches the freshly inserted row only. *)
Lemma update_local_filename_fresh rs (r : FileRecord) p :
    id r = next_id (id <$> rs) →
    (λ x, if decide (id x = id r)
          then {| id := id x; filehash := filehash x;
                  original_filename := original_filename x;
                  local_filename := p;
                  file_size := file_size x; mime_type := mime_type x |}
          else x) <$> (rs ++ [r])
    = rs ++ [{| id := id r; filehash := filehash r;
                original_filename := original_filename r;
                local_filename := p;
                file_size := file_size r; mime_type := mime_type r |}].
  Proof.
    intros Hid. rewrite fmap_app. f_equal.
    - rewrite <- (list_fmap_id rs) at 2. apply list_fmap_ext.
      intros i x Hx. case_decide as Heq; [|done].
      assert (id x < next_id (id <$> rs)); [|lia].
      apply next_id_above, list_elem_of_fmap. exists x. split; [done|].
      by eapply list_elem_of_lookup_2.
    - cbn. by rewrite decide_True.
  Qed.

Lemma place_working_copy_run self_id path data w l0 n0 :
    fs w !! path = Some data →
    ∃ l n,
      place_working_copy E settings self_id path (inserted_record E w path data)
        (with_audit l0 n0
           (set_files (λ rs, rs ++ [inserted_record E w path data]) w))
      = match placement_error E settings w path with
        | None =>
            (Ret (working_name E w path, working_path E settings w path),
             with_audit l n (after_placement E settings w path data))
        | Some e => (Raise e, with_audit l n (after_failed_placement E w path data))
        end.
  Proof.
    intros Hfs. unfold place_working_copy, placement_error.
    mlog. unfold draw_uuid. mnorm.
    unfold os_makedirs. mnorm.
    match goal with
    | |- context [path_exists ?w0 ?p] => change (path_exists w0 p) with (path_exists w p)
    end.
    destruct (path_exists w _).
    { mnorm. exists l, n. unfold after_failed_placement. f_equal; by world_eq. }
    destruct (os_refuses E (OpMakedirs _)) as [e|].
    { mnorm. exists l, n. unfold after_failed_placement. f_equal; by world_eq. }
    mnorm. unfold shutil_copy. mnorm. mread.
    unfold write_file. fold (working_name E w path).
    fold (working_path E settings w path).
    destruct (os_refuses E (OpWrite _)) as [e|].
    { mnorm. exists l, n. unfold after_failed_placement. f_equal; by world_eq. }
    mnorm. unfold update_local_filename. mnorm.
    eexists _, _. unfold ret. f_equal. world_eq.
    by rewrite update_local_filename_fresh.
  Qed.

Lemma fitz_open_text_run w p data :
    fs w !! p = Some data →
    fitz_open_text E p w
    = (match fitz_get_text E data with
       | Some pages => Ret pages
       | None => Raise FileDataError
       end, w).
  Proof.
    intros Hfs. unfold fitz_open_text. mread. by destruct (fitz_get_text E data).
  Qed.

Lemma dispatch_text_extraction_pdf self_id path new_record name p data pages w :
    fs w !! p = Some data →
    fitz_get_text E data = Some pages →
    ∃ l n,
      dispatch_text_extraction E self_id path new_record name p w
      = (Ret (dispatch_result pages p (id new_record)),
         with_audit l n
           (set_broker (λ b, b ++ [(uuid4 E (entropy w), successor pages name)])
              (set_entropy S w))).
  Proof.
    intros Hfs Hpdf. unfold dispatch_text_extraction, dispatch_result, successor.
    mlog.
    erewrite bind_ret_eq; [|erewrite fitz_open_text_run, Hpdf by (wsimpl; done); done].
    destruct (has_text pages).
    - mlog. mlog.
      erewrite bind_ret_eq; [|erewrite fitz_open_text_run, Hpdf by (wsimpl; done); done].
      mlog. mdelay. mlog.
      by eexists _, _.
    - mlog. mdelay. mlog.
      by eexists _, _.
  Qed.

Lemma dispatch_text_extraction_not_pdf self_id path new_record name p data w :
    fs w !! p = Some data →
    fitz_get_text E data = None →
    ∃ l n,
      dispatch_text_extraction E self_id path new_record name p w
      = (Raise FileDataError, with_audit l n w).
  Proof.
    intros Hfs Hpdf. unfold dispatch_text_extraction.
    mlog.
    erewrite bind_raise_eq; [|erewrite fitz_open_text_run, Hpdf by (wsimpl; done); done].
    by eexists _, _.
  Qed.

Lemma process_document_body_pdf self_id path data pages w :
    fs w !! path = Some data →
    List.filter (λ r, bool_decide (filehash r = sha256 E data)) (files w) = [] →
    placement_error E settings w path = None →
    fitz_get_text E data = Some pages →
    ∃ l n,
      process_document_body E settings self_id path w
      = (Ret (dispatch_result pages (working_path E settings w path)
                (next_id (id <$> files w))),
         with_audit l n (after_dispatch E settings w path data pages)).
  Proof.
    intros Hfs Hnew Hplace Hpdf. unfold process_document_body.
    destruct (ingest_new self_id path data w Hfs Hnew) as (l0 & n0 & H0).
    rewrite (bind_ret_eq _ _ _ _ _ H0). cbv beta iota.
    destruct (place_working_copy_run self_id path data w l0 n0 Hfs) as (l1 & n1 & H1).
    rewrite Hplace in H1.
    rewrite (bind_ret_eq _ _ _ _ _ H1). cbv beta. cbn [fst snd].
    edestruct (dispatch_text_extraction_pdf self_id path (inserted_record E w path data)
                 (working_name E w path) (working_path E settings w path) data pages
                 (with_audit l1 n1 (after_placement E settings w path data)))
      as (l2 & n2 & H2); [|done|].
    { unfold after_placement. wsimpl. apply lookup_insert_eq. }
    rewrite H2. by eexists _, _.
  Qed.

Lemma process_document_body_unplaced self_id path data e w :
    fs w !! path = Some data →
    List.filter (λ r, bool_decide (filehash r = sha256 E data)) (files w) = [] →
    placement_error E settings w path = Some e →
    ∃ l n,
      process_document_body E settings self_id path w
      = (Raise e, with_audit l n (after_failed_placement E w path data)).
  Proof.
    intros Hfs Hnew Hplace. unfold process_document_body.
    destruct (ingest_new self_id path data w Hfs Hnew) as (l0 & n0 & H0).
    rewrite (bind_ret_eq _ _ _ _ _ H0). cbv beta iota.
    destruct (place_working_copy_run self_id path data w l0 n0 Hfs) as (l1 & n1 & H1).
    rewrite Hplace in H1.
    rewrite (bind_raise_eq _ _ _ _ _ H1). by eexists _, _.
  Qed.

Lemma process_document_body_not_pdf self_id path data w :
    fs w !! path = Some data →
    List.filter (λ r, bool_decide (filehash r = sha256 E data)) (files w) = [] →
    placement_error E settings w path = None →
    fitz_get_text E data = None →
    ∃ l n,
      process_document_body E settings self_id path w
      = (Raise FileDataError, with_audit l n (after_placement E settings w path data)).
  Proof.
    intros Hfs Hnew Hplace Hpdf. unfold process_document_body.
    destruct (ingest_new self_id path data w Hfs Hnew) as (l0 & n0 & H0).
    rewrite (bind_ret_eq _ _ _ _ _ H0). cbv beta iota.
    destruct (place_working_copy_run self_id path data w l0 n0 Hfs) as (l1 & n1 & H1).
    rewrite Hplace in H1.
    rewrite (bind_ret_eq _ _ _ _ _ H1). cbv beta. cbn [fst snd].
    edestruct (dispatch_text_extraction_not_pdf self_id path
                 (inserted_record E w path data)
                 (working_name E w path) (working_path E settings w path) data
                 (with_audit l1 n1 (after_placement E settings w path data)))
      as (l2 & n2 & H2); [|done|].
    { unfold after_placement. wsimpl. apply lookup_insert_eq. }
    rewrite H2. by eexists _, _.
  Qed.

Lemma process_document_body_duplicate self_id path data w existing_record :
    fs w !! path = Some data →
    List.filter (λ r, bool_decide (filehash r = sha256 E data)) (files w)
    = [existing_record] →
    ∃ l n,
      process_document_body E settings self_id path w
      = (Ret (duplicate_result existing_record), with_audit l n w).
  Proof.
    intros Hfs Hone. unfold process_document_body.
    destruct (ingest_duplicate self_id path data w _ Hfs Hone) as (l0 & n0 & H0).
    rewrite (bind_ret_eq _ _ _ _ _ H0). by eexists _, _.
  Qed.

Lemma process_document_body_ambiguous self_id path data w r1 r2 rs :
    fs w !! path = Some data →
    List.filter (λ r, bool_decide (filehash r = sha256 E data)) (files w)
    = r1 :: r2 :: rs →
    ∃ l n,
      process_document_body E settings self_id path w
      = (Raise MultipleResultsFound, with_audit l n w).
  Proof.
    intros Hfs Hmany. unfold process_document_body.
    destruct (ingest_ambiguous self_id path data w _ _ _ Hfs Hmany) as (l0 & n0 & H0).
    rewrite (bind_raise_eq _ _ _ _ _ H0). by eexists _, _.
  Qed.

Lemma process_document_body_missing self_id path w :
    fs w !! path = None →
    ∃ l n,
      process_document_body E settings self_id path w
      = (Ret [("error", JStr "File not found")], with_audit l n w).
  Proof.
    intros Hfs. unfold process_document_body.
    destruct (ingest_missing self_id path w Hfs) as (l0 & n0 & H0).
    rewrite (bind_ret_eq _ _ _ _ _ H0). by eexists _, _.
  Qed.

Lemma filter_hash_nil (h : string) (rs : list FileRecord) :
    (∀ r, r ∈ rs → filehash r ≠ h) →
    List.filter (λ r, bool_decide (filehash r = h)) rs = [].
  Proof.
    induction rs as [|r rs IH]; intros Hall; [done|]. cbn.
    rewrite bool_decide_eq_false_2 by (apply Hall; left).
    apply IH. intros r' Hr'. apply Hall. by right.
  Qed.

Lemma filter_hash_unique (h : string) (rs : list FileRecord) :
    NoDup (filehash <$> rs) →
    List.filter (λ r, bool_decide (filehash r = h)) rs = []
    ∨ ∃ r, List.filter (λ r, bool_decide (filehash r = h)) rs = [r]
           ∧ r ∈ rs ∧ filehash r = h.
  Proof.
    induction rs as [|r rs IH]; intros Hnd; [by left|].
    apply NoDup_cons in Hnd as [Hr Hnd]. cbn.
    destruct (decide (filehash r = h)) as [Heq|Hne].
    - rewrite bool_decide_eq_true_2 by done. right. exists r.
      rewrite filter_hash_nil; [repeat split; [left|done]|].
      intros r' Hr' Heq'. apply Hr. rewrite Heq, <- Heq'.
      apply list_elem_of_fmap. eauto.
    - rewrite bool_decide_eq_false_2 by done.
      destruct (IH Hnd) as [->|(r' & -> & ? & ?)]; [by left|].
      right. exists r'. repeat split; [by right|done].
  Qed.

Lemma filter_hash_elem_of (h : string) (rs : list FileRecord) :
    List.filter (λ r, bool_decide (filehash r = h)) rs = [] →
    h ∉ filehash <$> rs.
  Proof.
    intros Hnil (r & -> & Hr)%list_elem_of_fmap.
    assert (r ∈ List.filter (λ r', bool_decide (filehash r' = filehash r)) rs) as Hin.
    { apply list_elem_of_In, filter_In. split; [by apply list_elem_of_In|].
      by apply bool_decide_eq_true. }
    rewrite Hnil in Hin. by apply elem_of_nil in Hin.
  Qed.

Lemma filter_hash_app_new (h : string) (rs : list FileRecord) (r : FileRecord) :
    List.filter (λ r, bool_decide (filehash r = h)) rs = [] →
    filehash r = h →
    List.filter (λ r, bool_decide (filehash r = h)) (rs ++ [r]) = [r].
  Proof.
    intros Hnil Hr. rewrite List.filter_app, Hnil. cbn.
    by rewrite bool_decide_eq_true_2.
  Qed.

  (** What one invocation on an existing file does, by what the table holds
      for the content hash, by whether the working copy can be placed and by
      whether it opens as a PDF. *)
Lemma process_document_cases self_id path data w :
    fs w !! path = Some data →
    ∃ l n,
      match List.filter (λ r, bool_decide (filehash r = sha256 E data)) (files w),
            placement_error E settings w path, fitz_get_text E data with
      | [], Some e, _ =>
          process_document E settings self_id path w
          = (Raise e, with_audit l n (after_failed_placement E w path data))
      | [], None, Some pages =>
          process_document E settings self_id path w
          = (Ret (dispatch_result pages (working_path E settings w path)
                    (next_id (id <$> files w))),
             with_audit l n (after_dispatch E settings w path data pages))
      | [], None, None =>
          process_document E settings self_id path w
          = (Raise FileDataError,
             with_audit l n (after_placement E settings w path data))
      | [existing_record], _, _ =>
          process_document E settings self_id path w
          = (Ret (duplicate_result existing_record), with_audit l n w)
      | _ :: _ :: _, _, _ =>
          process_document E settings self_id path w
          = (Raise MultipleResultsFound, with_audit l n w)
      end.
  Proof.
    intros Hfs. unfold process_document.
    destruct (log_task_run E "process_document" path
                (process_document_body E settings self_id path) w)
      as (l & n & l' & n' & ->).
    destruct (List.filter _ (files w)) as [|r1 [|r2 rs]] eqn:Hfilter.
    - destruct (placement_error E settings w path) as [e|] eqn:Hplace.
      { destruct (process_document_body_unplaced self_id path data e
                    (with_audit l n w) Hfs Hfilter Hplace) as (l2 & n2 & ->).
        by eexists _, _. }
      destruct (fitz_get_text E data) as [pages|] eqn:Hpdf.
      + destruct (process_document_body_pdf self_id path data pages
                    (with_audit l n w) Hfs Hfilter Hplace Hpdf) as (l2 & n2 & ->).
        by eexists _, _.
      + destruct (process_document_body_not_pdf self_id path data
                    (with_audit l n w) Hfs Hfilter Hplace Hpdf) as (l2 & n2 & ->).
        by eexists _, _.
    - destruct (process_document_body_duplicate self_id path data
                  (with_audit l n w) r1 Hfs Hfilter) as (l2 & n2 & ->).
      by eexists _, _.
    - destruct (process_document_body_ambiguous self_id path data
                  (with_audit l n w) r1 r2 rs Hfs Hfilter) as (l2 & n2 & ->).
      by eexists _, _.
  Qed.

End ProcessDocumentFacts.

(** ** C2: one successor per first sighting *)

Lemma has_text_spec (pages : list string) :
  has_text pages = true ↔ ∃ page, page ∈ pages ∧ page ≠ "".
Proof.
  unfold has_text. rewrite existsb_exists. split.
  - intros (page & Hin%list_elem_of_In & Hne). exists page. split; [done|].
    by destruct page.
  - intros (page & Hin & Hne). exists page. split; [by apply list_elem_of_In|].
    by destruct page.
Qed.

Lemma string_app_nil_r (s : string) : s +:+ "" = s.
Proof.
  induction s as [|a s IH]; [done|].
  change (String a (s +:+ "") = String a s). by rewrite IH.
Qed.

Lemma string_app_assoc (s t u : string) : (s +:+ t) +:+ u = s +:+ (t +:+ u).
Proof.
  induction s as [|a s IH]; [done|].
  change (String a ((s +:+ t) +:+ u) = String a (s +:+ (t +:+ u))). by rewrite IH.
Qed.

Lemma extract_text_is_the_concatenation (pages : list string) :
  extract_text pages = String.concat "" ((λ page, page +:+ String "010" "") <$> pages).
Proof.
  unfold extract_text.
  enough (∀ acc, foldl (λ acc page, acc +:+ page +:+ String "010" "") acc pages
                 = acc +:+ String.concat "" ((λ page, page +:+ String "010" "") <$> pages))
    as Hfold by apply (Hfold "").
  induction pages as [|page pages IH]; intros acc; cbn [foldl fmap list_fmap].
  - by rewrite string_app_nil_r.
  - rewrite IH, string_app_assoc. f_equal.
    destruct pages as [|page' pages]; [by rewrite string_app_nil_r|done].
Qed.

Lemma placement_error_None (E : collaborators) (settings : Settings) w path :
  placement_error E settings w path = None
  ↔ fs w !! OsPath.join (workdir settings) "tmp" = None
    ∧ os_refuses E (OpMakedirs (OsPath.join (workdir settings) "tmp")) = None
    ∧ os_refuses E (OpWrite (OsPath.join (OsPath.join (workdir settings) "tmp")
                               (uuid4 E (entropy w) +:+ (OsPath.splitext path).2)))
      = None.
Proof.
  unfold placement_error, path_exists, working_path, working_name.
  case_bool_decide as Htmp.
  - split; [done|]. intros [Hnone _]. rewrite Hnone in Htmp. by destruct Htmp.
  - apply eq_None_not_Some in Htmp.
    destruct (os_refuses E (OpMakedirs _)); [split; [done|by intros (_ & ? & _)]|].
    split; [done|by intros (_ & _ & ?)].
Qed.

(** C2, as the code has it. An invocation of [process_document] on an
    existing file whose hash is not in the table always ends.  When the
    working copy can be placed under [<workdir>/tmp] (no regular file is in
    the place of that directory and the operating system refuses neither the
    directory nor the copy) and opens as a PDF, the invocation returns and
    appends exactly one message to the broker: the classification stage,
    carrying the text of every page in order, each followed by a line feed,
    when some page has embedded text; the OCR stage when no page has.  When
    the working copy cannot be placed or does not open as a PDF, the
    invocation raises and appends nothing. *)
Theorem process_document_enqueues_one_successor (E : collaborators)
    (settings : Settings) (self_id path : string) (data : bytes) (w : world) :
  fs w !! path = Some data →
  (∀ r, r ∈ files w → filehash r ≠ sha256 E data) →
  let tmp_dir := OsPath.join (workdir settings) "tmp" in
  let new_filename := uuid4 E (entropy w) +:+ (OsPath.splitext path).2 in
  ∃ outcome w',
    process_document E settings self_id path w = (outcome, w')
    ∧ (fs w !! tmp_dir = None →
       os_refuses E (OpMakedirs tmp_dir) = None →
       os_refuses E (OpWrite (OsPath.join tmp_dir new_filename)) = None →
       ∀ pages, fitz_get_text E data = Some pages →
       ∃ result task_id msg,
         outcome = Ret result
         ∧ broker w' = broker w ++ [(task_id, msg)]
         ∧ ((∃ page, page ∈ pages ∧ page ≠ "")
            ∧ msg = ExtractMetadataWithGpt new_filename
                      (String.concat "" ((λ page, page +:+ String "010" "") <$> pages))
            ∨ (∀ page, page ∈ pages → page = "")
              ∧ msg = ProcessWithTextract new_filename))
    ∧ (is_Some (fs w !! tmp_dir)
       ∨ is_Some (os_refuses E (OpMakedirs tmp_dir))
       ∨ is_Some (os_refuses E (OpWrite (OsPath.join tmp_dir new_filename)))
       ∨ fitz_get_text E data = None →
       (∃ e, outcome = Raise e) ∧ broker w' = broker w).
Proof.
  intros Hfs Hnew tmp_dir new_filename.
  destruct (process_document_cases E settings self_id path data w Hfs) as (l & n & Hrun).
  rewrite (filter_hash_nil _ _ Hnew) in Hrun.
  pose proof (placement_error_None E settings w path) as Hplace.
  fold tmp_dir new_filename in Hplace.
  destruct (placement_error E settings w path) as [e|].
  - eexists _, _. split; [exact Hrun|]. split.
    + intros H1 H2 H3. destruct Hplace as [_ Hback]. by specialize (Hback (conj H1 (conj H2 H3))).
    + intros _. split; [by eexists|done].
  - destruct Hplace as [(Htmp & Hmk & Hwr) _]; [done|].
    destruct (fitz_get_text E data) as [pages|] eqn:Hpdf.
    + eexists _, _. split; [exact Hrun|]. split.
      * intros _ _ _ pages' [= <-]. eexists _, _, _. split; [done|]. split; [done|].
        unfold successor. rewrite extract_text_is_the_concatenation.
        destruct (has_text pages) eqn:Htext.
        -- left. split; [by apply has_text_spec|done].
        -- right. split; [|done]. intros page Hin.
           destruct (decide (page = "")) as [|Hne]; [done|].
           assert (has_text pages = true) by (apply has_text_spec; eauto). congruence.
      * rewrite Htmp, Hmk, Hwr. intros [[? [=]]|[[? [=]]|[[? [=]]|[=]]]].
    + eexists _, _. split; [exact Hrun|]. split.
      * intros _ _ _ pages [=].
      * intros _. split; [by eexists|done].
Qed.

Lemma process_document_enqueues_one_successor_witness :
  let tmp_dir := OsPath.join (workdir Demo.settings) "tmp" in
  let new_filename :=
    uuid4 Demo.E (entropy Demo.inbox) +:+ (OsPath.splitext "/workdir/a.pdf").2 in
  ∃ outcome w',
    process_document Demo.E Demo.settings "task-1" "/workdir/a.pdf" Demo.inbox
    = (outcome, w')
    ∧ (fs Demo.inbox !! tmp_dir = None →
       os_refuses Demo.E (OpMakedirs tmp_dir) = None →
       os_refuses Demo.E (OpWrite (OsPath.join tmp_dir new_filename)) = None →
       ∀ pages, fitz_get_text Demo.E Demo.pdf_with_text = Some pages →
       ∃ result task_id msg,
         outcome = Ret result
         ∧ broker w' = broker Demo.inbox ++ [(task_id, msg)]
         ∧ ((∃ page, page ∈ pages ∧ page ≠ "")
            ∧ msg = ExtractMetadataWithGpt new_filename
                      (String.concat "" ((λ page, page +:+ String "010" "") <$> pages))
            ∨ (∀ page, page ∈ pages → page = "")
              ∧ msg = ProcessWithTextract new_filename))
    ∧ (is_Some (fs Demo.inbox !! tmp_dir)
       ∨ is_Some (os_refuses Demo.E (OpMakedirs tmp_dir))
       ∨ is_Some (os_refuses Demo.E (OpWrite (OsPath.join tmp_dir new_filename)))
       ∨ fitz_get_text Demo.E Demo.pdf_with_text = None →
       (∃ e, outcome = Raise e) ∧ broker w' = broker Demo.inbox).
Proof.
  apply (process_document_enqueues_one_successor Demo.E Demo.settings "task-1"
           "/workdir/a.pdf" Demo.pdf_with_text Demo.inbox).
  - reflexivity.
  - intros r Hr. inversion Hr.
Defined.

(** C2 as stated fails: a file that exists and whose hash is new, but that
    does not open as a PDF, gets no successor at all; the invocation raises
    once the row is committed and the copy placed. *)
Lemma unreadable_file_gets_no_successor :
  fs Demo.inbox !! "/workdir/notes.txt" = Some Demo.not_a_pdf
  ∧ files Demo.inbox = []
  ∧ (process_document Demo.E Demo.settings "task-1" "/workdir/notes.txt" Demo.inbox).1
    = Raise FileDataError
  ∧ broker (process_document Demo.E Demo.settings "task-1" "/workdir/notes.txt"
              Demo.inbox).2
    = [].
Proof. repeat split; vm_compute; reflexivity. Qed.

(** ** C1: the second sighting of a content *)



(** ** C10: audit writes never raise *)

(** C10. For every input, every world and every database fault,
    [log_task_progress] returns: with [None] and an unchanged audit table
    when the fault planned for this write is met, with the id of the one
    appended entry otherwise.  Nothing but the audit table and the counter
    of audit writes changes. *)
Theorem log_task_progress_never_raises (E : collaborators)
    (task_id step_name status : string) (message : option string)
    (file_id : option Z) (file_path : option string) (w : world) :
  ∃ r l,
    log_task_progress E task_id step_name status message file_id file_path w
    = (Ret r, with_audit l (S (audits w)) w)
    ∧ if fault_hits E (audits w) file_id file_path
      then r = None ∧ l = logs w
      else ∃ entry, r = Some (log_id entry) ∧ l = logs w ++ [entry].
Proof.
  destruct (log_task_progress_cases E task_id step_name status message file_id
              file_path w) as (r & l & Hrun & Hcase).
  exists r, l. split; [done|].
  destruct (fault_hits E (audits w) file_id file_path); [done|].
  destruct Hcase as (entry & ? & ? & _). eauto.
Qed.

(** ** C5: a response without JSON *)

Lemma try_finally_ret_tt {A} (m : M A) w : try_finally m (ret tt) w = m w.
Proof. unfold try_finally, ret. by destruct (m w). Qed.

Lemma bind_lift_result_ret {A B} (a : A) (k : A → M B) w :
  bind (lift_result (Ret a)) k w = k a w.
Proof. done. Qed.

(** C5. When the model answers and [extract_json_from_text] finds nothing in
    the answer, [extract_metadata_with_gpt] returns the empty dict, raises
    nothing, and leaves the broker as it was: no embedding stage is
    enqueued. *)
Theorem response_without_json_ends_the_pipeline (E : collaborators)
    (self_id s3_filename cleaned_text content : string) (w : world) :
  chat_completion E cleaned_text = Ret content →
  extract_json_from_text content = None →
  ∃ w',
    extract_metadata_with_gpt E self_id s3_filename cleaned_text w = (Ret [], w')
    ∧ broker w' = broker w.
Proof.
  intros Hchat Hnone. unfold extract_metadata_with_gpt.
  destruct (log_task_run E "extract_metadata" s3_filename
              (extract_metadata_with_gpt_body E self_id s3_filename cleaned_text) w)
    as (l & n & l' & n' & ->).
  unfold extract_metadata_with_gpt_body.
  rewrite try_finally_ret_tt.
  match goal with
  | |- context [try_except ?m ?h ?w0] =>
      assert (∃ l0 n0, m w0 = (Ret [], with_audit l0 n0 w0)) as (l0 & n0 & Hbody)
  end.
  { mlog. mlog. rewrite Hchat, bind_lift_result_ret. mlog.
    rewrite Hnone. unfold no_json_found. mlog. by eexists _, _. }
  rewrite (try_except_ret_eq _ _ _ _ _ Hbody).
  eexists. split; [reflexivity|]. by wsimpl.
Qed.

Lemma response_without_json_ends_the_pipeline_witness :
  ∃ w',
    extract_metadata_with_gpt Demo.E "task-3" "uuid-0.pdf" "I cannot read this."
      Demo.inbox = (Ret [], w')
    ∧ broker w' = broker Demo.inbox.
Proof.
  apply (response_without_json_ends_the_pipeline Demo.E "task-3" "uuid-0.pdf"
           "I cannot read this." "I cannot read this." Demo.inbox).
  - reflexivity.
  - reflexivity.
Defined.

(** ** C9: where the poller sends attachments *)

Section ImapFacts.
  Context (E : collaborators) (settings : Settings).

Lemma imap_store_run mail num op flag w :
    imap_store mail num op flag w
    = (if store_ok mail num flag then Ret tt else Raise IMAPError,
       set_imap_log (λ l, l ++ [ImapStore num op flag]) w).
  Proof.
    unfold imap_store, imap_do. rewrite bind_modify.
    by destruct (store_ok mail num flag).
  Qed.

Lemma email_already_has_label_run msg label w :
    email_already_has_label msg label w
    = (Ret (labelled msg label),
       set_imap_log (λ l, l ++ [ImapFetch (msg_num msg) "(X-GM-LABELS)"]) w).
  Proof.
    unfold email_already_has_label, try_except, imap_do, labelled.
    rewrite bind_modify. unfold lift_result, bind.
    by destruct (gm_labels msg) as [[raw|]|e].
  Qed.

Lemma mark_as_processed_with_star_run mail num w :
    mark_as_processed_with_star mail num w
    = (Ret tt, set_imap_log (λ l, l ++ [ImapStore num "+FLAGS" "\Flagged"]) w).
  Proof.
    unfold mark_as_processed_with_star, try_except. rewrite imap_store_run.
    by destruct (store_ok mail num _).
  Qed.

Lemma mark_as_processed_with_label_run mail num label w :
    mark_as_processed_with_label mail num label w
    = (Ret tt, set_imap_log (λ l, l ++ [ImapStore num "+X-GM-LABELS" label]) w).
  Proof.
    unfold mark_as_processed_with_label, try_except. rewrite imap_store_run.
    by destruct (store_ok mail num _).
  Qed.

End ImapFacts.

(** C9. The code does not do what the claim says.  A full poller cycle
    over a mailbox that holds one unseen message with one PDF attachment
    writes the attachment to the working directory and leaves exactly one
    message on the broker, addressed to [upload_to_s3]; nothing is handed
    to [process_document], the entry point that the three ingress paths of
    main.py enqueue. *)
Lemma poller_enqueues_upload_to_s3 :
  (pull_all_inboxes Demo.E Demo.settings Demo.empty_world).1 = Ret tt
  ∧ fs (pull_all_inboxes Demo.E Demo.settings Demo.empty_world).2
    !! "/workdir/invoice.pdf" = Some Demo.pdf_with_text
  ∧ broker (pull_all_inboxes Demo.E Demo.settings Demo.empty_world).2
    = [("uuid-0", UploadToS3 "/workdir/invoice.pdf")]
  ∧ List.filter (λ m, match m.2 with ProcessDocument _ => true | _ => false end)
      (broker (pull_all_inboxes Demo.E Demo.settings Demo.empty_world).2)
    = [].
Proof. repeat split; vm_compute; reflexivity. Qed.

(** ** C6: the seen-mail cache on load *)

Lemma cleanup_old_entries_run (processed_emails : gmap string string) (w : world) :
  map_Forall (λ _ date_str, is_Some (strptime date_str)) processed_emails →
  cleanup_old_entries processed_emails w
  = (Ret (filter (λ kv, is_recent (clock w) kv.2 = true) processed_emails), w).
Proof.
  unfold cleanup_old_entries. rewrite bind_get.
  revert processed_emails.
  apply (map_fold_weak_ind
    (λ (acc : M (gmap string string)) m,
       map_Forall (λ _ date_str, is_Some (strptime date_str)) m →
       acc w = (Ret (filter (λ kv, is_recent (clock w) kv.2 = true) m), w))).
  - intros _. by rewrite map_filter_empty.
  - intros msg_id date_str m acc Hfresh IH [[dt Hdt] Hall]%map_Forall_insert; [|done].
    rewrite (bind_ret_eq _ _ _ _ _ (IH Hall)).
    rewrite Hdt. cbn [lift_option]. rewrite bind_ret.
    rewrite map_filter_insert. cbn [snd].
    assert (is_recent (clock w) date_str
            = (instant (clock w) - timedelta_days 7 <? instant dt)) as ->.
    { unfold is_recent. by rewrite Hdt. }
    destruct (instant (clock w) - timedelta_days 7 <? instant dt).
    + by rewrite decide_True.
    + rewrite decide_False by done. by rewrite delete_id.
Qed.


(** C6. Loading a stored seen-mail cache whose timestamps all have the
    format the poller writes returns, without touching the world, exactly the
    entries whose timestamp is strictly newer than seven days before the
    current UTC time, each under its message id and with its timestamp string
    unchanged; every other entry is absent from the result. *)
Theorem load_keeps_exactly_the_recent_entries (stored : gmap string string)
    (w : world) :
  cache_file w = Some (Mapping stored) →
  map_Forall (λ _ date_str, is_Some (strptime date_str)) stored →
  ∃ kept,
    load_processed_emails w = (Ret kept, w)
    ∧ ∀ msg_id date_str,
        kept !! msg_id = Some date_str
        ↔ stored !! msg_id = Some date_str
          ∧ ∃ aware_dt, strptime date_str = Some aware_dt
                        ∧ instant (clock w) - timedelta_days 7 < instant aware_dt.
Proof.
  intros Hcache Hall.
  exists (filter (λ kv, is_recent (clock w) kv.2 = true) stored). split.
  - unfold load_processed_emails. rewrite bind_get, Hcache.
    unfold try_catch. rewrite bind_ret.
    by rewrite (cleanup_old_entries_run stored w Hall).
  - intros msg_id date_str. rewrite map_lookup_filter_Some. cbn [snd].
    unfold is_recent. split.
    + intros [Hin Hrecent]. split; [done|].
      destruct (strptime date_str) as [dt|]; [|done].
      exists dt. split; [done|]. by apply Z.ltb_lt.
    + intros [Hin (dt & -> & Hlt)]. split; [done|]. by apply Z.ltb_lt.
Qed.

Lemma load_keeps_exactly_the_recent_entries_witness :
  ∃ kept,
    load_processed_emails Demo.world_with_cache = (Ret kept, Demo.world_with_cache)
    ∧ ∀ msg_id date_str,
        kept !! msg_id = Some date_str
        ↔ Demo.seen_mails !! msg_id = Some date_str
          ∧ ∃ aware_dt, strptime date_str = Some aware_dt
                        ∧ instant (clock Demo.world_with_cache) - timedelta_days 7
                          < instant aware_dt.
Proof.
  apply (load_keeps_exactly_the_recent_entries Demo.seen_mails Demo.world_with_cache).
  - reflexivity.
  - apply map_Forall_to_list. vm_compute.
    repeat (constructor; [by eexists|]). constructor.
Defined.

(** On the demo cache, read at noon of 2025-03-10: the entry of the day
    before and the one a second younger than seven days stay, the one
    exactly seven days old and the older one go. *)
Example load_demo_cache :
  (load_processed_emails Demo.world_with_cache).1
  = Ret (list_to_map [("<a@example.org>", "2025-03-09T08:15:00");
                      ("<d@example.org>", "2025-03-03T12:00:01")]).
Proof. vm_compute. reflexivity. Qed.

(** A timestamp that [strptime] rejects makes the load raise [ValueError]:
    only [JSONDecodeError] is caught. *)
Example load_raises_on_a_malformed_timestamp :
  (load_processed_emails
     (set_cache_file (Some (Mapping {["<a@example.org>" := "yesterday"]}))
        Demo.empty_world)).1
  = Raise ValueError.
Proof. vm_compute. reflexivity. Qed.

(** ** C8: what [embed_metadata_into_pdf] leaves behind *)

Section Inversion.
  Context {A B : Type}.

Lemma bind_ret_inv (m : M A) (k : A → M B) w b w' :
    bind m k w = (Ret b, w') →
    ∃ a w1, m w = (Ret a, w1) ∧ k a w1 = (Ret b, w').
  Proof.
    unfold bind. destruct (m w) as [[a|e] w1]; [eauto|discriminate].
  Qed.

Lemma try_except_ret_inv (m : M A) (h : exn → M A) w a w' :
    try_except m h w = (Ret a, w') →
    m w = (Ret a, w') ∨ ∃ e w1, m w = (Raise e, w1) ∧ h e w1 = (Ret a, w').
  Proof.
    unfold try_except. destruct (m w) as [[a'|e] w1]; [by left|eauto].
  Qed.

End Inversion.

(** Open the head of a run that is known to return. *)
Ltac minv H :=
  let a := fresh "a" in
  let w := fresh "w" in
  let H1 := fresh "Hstep" in
  apply bind_ret_inv in H as (a & w & H1 & H);
  try match type of H1 with
      | task_logger ?E ?m ?l ?t ?s ?st ?fp ?fi ?w0 = _ =>
          let r' := fresh "r" in
          let l' := fresh "l" in
          let n' := fresh "n" in
          let H' := fresh "H" in
          destruct (task_logger_run E m l t s st fp fi w0) as (r' & l' & n' & H');
          rewrite H' in H1; injection H1 as <- <-; clear H'
      end.

(** *** The search for a free file name always ends *)

Lemma chars_app (s t : string) : PyStr.chars (s +:+ t) = PyStr.chars s ++ PyStr.chars t.
Proof.
  induction s as [|c s IH]; [done|].
  change (c :: PyStr.chars (s +:+ t) = c :: (PyStr.chars s ++ PyStr.chars t)).
  by rewrite IH.
Qed.

Lemma chars_inj (s t : string) : PyStr.chars s = PyStr.chars t → s = t.
Proof.
  intros H. apply (f_equal String.string_of_list_ascii) in H.
  unfold PyStr.chars in H. by rewrite !String.string_of_list_ascii_of_string in H.
Qed.

Lemma string_app_inv_tail (s1 s2 e : string) : s1 +:+ e = s2 +:+ e → s1 = s2.
Proof.
  intros H. apply chars_inj.
  apply (f_equal PyStr.chars) in H. rewrite !chars_app in H.
  by apply app_inv_tail in H.
Qed.

Lemma join_inj_on_suffix (directory base : string) (r1 r2 : string) :
  OsPath.join directory (base +:+ String "_" r1)
  = OsPath.join directory (base +:+ String "_" r2) →
  r1 = r2.
Proof.
  unfold OsPath.join.
  assert (∀ r, PyStr.starts_with [OsPath.sep] (PyStr.chars (base +:+ String "_" r))
               = PyStr.starts_with [OsPath.sep] (PyStr.chars (base +:+ "_"))) as Hhead.
  { intros r. by destruct base as [|c base]. }
  rewrite (Hhead r1), (Hhead r2).
  destruct (PyStr.starts_with _ _).
  - intros H. apply (inj (String.app base)) in H. by simplify_eq.
  - destruct (negb _ || _); intros H.
    + apply (inj (String.app directory)), (inj (String.app base)) in H.
      by simplify_eq.
    + apply (inj (String.app directory)) in H.
      injection H as H. apply (inj (String.app base)) in H. by simplify_eq.
Qed.

Lemma candidate_inj directory base_filename extension :
  Inj (=) (=) (candidate directory base_filename extension).
Proof.
  intros k1 k2 H. unfold candidate in H.
  apply join_inj_on_suffix, string_app_inv_tail in H.
  by apply (inj pretty) in H.
Qed.

Lemma unique_filepath_loop_None w directory base_filename extension fuel counter :
  unique_filepath_loop w directory base_filename extension fuel counter = None →
  ∀ k, (counter ≤ k < counter + fuel)%nat →
       is_Some (fs w !! candidate directory base_filename extension k).
Proof.
  revert counter. induction fuel as [|fuel IH]; intros counter Hnone k Hk; [lia|].
  cbn in Hnone. fold (candidate directory base_filename extension counter) in Hnone.
  destruct (path_exists w _) eqn:Hexists; [|done].
  destruct (decide (k = counter)) as [->|].
  - unfold path_exists in Hexists. by apply bool_decide_eq_true in Hexists.
  - apply (IH (S counter) Hnone). lia.
Qed.

(** More names than files cannot all be taken. *)
Lemma unique_filepath_loop_total w directory base_filename extension :
  is_Some (unique_filepath_loop w directory base_filename extension
             (S (size (fs w))) 1).
Proof.
  destruct (unique_filepath_loop _ _ _ _ _ _) as [p|] eqn:Hloop; [by eexists|].
  exfalso.
  pose proof (unique_filepath_loop_None _ _ _ _ _ _ Hloop) as Htaken.
  set (names := candidate directory base_filename extension <$> seq 1 (S (size (fs w)))).
  assert (NoDup names) as Hnd.
  { apply (NoDup_fmap_2 _ (Inj0 := candidate_inj _ _ _)), NoDup_seq. }
  assert (names ⊆+ elements (dom (fs w))) as Hsub.
  { apply NoDup_submseteq; [done|]. intros p (k & -> & Hk)%list_elem_of_fmap.
    apply elem_of_elements, elem_of_dom, Htaken.
    apply elem_of_seq in Hk. lia. }
  apply submseteq_length in Hsub.
  unfold names in Hsub. rewrite length_fmap, length_seq in Hsub.
  assert (length (elements (dom (fs w))) = size (fs w)) as Hsize.
  { by rewrite <- size_dom. }
  lia.
Qed.

(** [unique_filepath] returns, and what it returns is a path at which no
    file exists. *)
Lemma unique_filepath_returns directory base_filename extension w :
  ∃ p, unique_filepath directory base_filename extension w = (Ret p, w)
       ∧ fs w !! p = None.
Proof.
  unfold unique_filepath. rewrite bind_get.
  destruct (path_exists w _) eqn:Hexists; cbn [negb].
  - destruct (unique_filepath_loop_total w directory base_filename extension)
      as [p Hp].
    rewrite Hp. exists p. split; [done|].
    clear Hexists. revert Hp. generalize 1%nat. generalize (S (size (fs w))).
    intros fuel. induction fuel as [|fuel IH]; intros counter Hp; [done|].
    cbn in Hp. destruct (path_exists w _) eqn:Hc; [by eapply IH|].
    injection Hp as <-. unfold path_exists in Hc.
    apply bool_decide_eq_false in Hc. by apply eq_None_not_Some.
  - eexists. split; [done|]. unfold path_exists in Hexists.
    apply bool_decide_eq_false in Hexists. by apply eq_None_not_Some.
Qed.

(** *** The success path, step by step *)

Section EmbedFacts.
  Context (E : collaborators) (settings : Settings).

Lemma locate_input_run local_file_path w :
    ∃ l n,
      locate_input E settings local_file_path w
      = (Ret (if path_exists w local_file_path then Some local_file_path
              else if path_exists w
                        (OsPath.join (OsPath.join (workdir settings) "tmp")
                           (OsPath.basename local_file_path))
                   then Some (OsPath.join (OsPath.join (workdir settings) "tmp")
                                (OsPath.basename local_file_path))
                   else None),
         with_audit l n w).
  Proof.
    unfold locate_input. rewrite bind_get.
    destruct (path_exists w local_file_path); cbn [negb].
    - exists (logs w), (audits w). by rewrite with_audit_id.
    - destruct (path_exists w _); mlog; by eexists _, _.
  Qed.

Lemma read_file_ret_inv p w data w' :
    read_file p w = (Ret data, w') → w' = w ∧ fs w !! p = Some data.
  Proof.
    unfold read_file. rewrite bind_get.
    destruct (fs w !! p); cbn; [by intros [= <- <-]|done].
  Qed.

Lemma lift_option_ret_inv {A} e (o : option A) w a w' :
    lift_option e o w = (Ret a, w') → o = Some a ∧ w' = w.
  Proof. destruct o; cbn; [by intros [= <- <-]|done]. Qed.

Lemma write_file_ret_inv p data w u w' :
    write_file E p data w = (Ret u, w') → w' = set_fs <[p := data]> w.
  Proof. unfold write_file. destruct (os_refuses E _); [done|]. by intros [= _ <-]. Qed.

Lemma os_remove_ret_inv p w u w' :
    os_remove E p w = (Ret u, w') →
    w' = set_fs (delete p) w ∧ os_refuses E (OpRemove p) = None.
  Proof.
    unfold os_remove. rewrite bind_get. destruct (path_exists w p); [|done].
    destruct (os_refuses E _); [done|]. by intros [= _ <-].
  Qed.

Lemma os_makedirs_ret_inv p w u w' : os_makedirs E p w = (Ret u, w') → w' = w.
  Proof.
    unfold os_makedirs. rewrite bind_get. destruct (path_exists w p); [done|].
    destruct (os_refuses E _); [done|]. by intros [= _ <-].
  Qed.

Lemma unique_filepath_ret_inv directory base_filename extension w p w' :
    unique_filepath directory base_filename extension w = (Ret p, w') →
    w' = w ∧ fs w !! p = None.
  Proof.
    destruct (unique_filepath_returns directory base_filename extension w)
      as (p0 & -> & Hfree).
    by intros [= <- <-].
  Qed.

Lemma embed_standard_fields_ret_inv processed_file metadata w u w' :
    embed_standard_fields E processed_file metadata w = (Ret u, w') →
    ∃ data data',
      fs w !! processed_file = Some data
      ∧ w' = set_fs <[processed_file := data']> w.
  Proof.
    unfold embed_standard_fields. intros H.
    apply bind_ret_inv in H as (data & w1 & [-> Hd]%read_file_ret_inv & H).
    apply bind_ret_inv in H as (? & w2 & [_ ->]%lift_option_ret_inv & H).
    apply bind_ret_inv in H as (kw & w3 & [_ ->]%lift_option_ret_inv & H).
    apply bind_ret_inv in H as (data' & w4 & [_ ->]%lift_option_ret_inv & H).
    apply write_file_ret_inv in H. by exists data, data'.
  Qed.

Lemma shutil_move_ret_inv src dst w u w' :
    shutil_move E src dst w = (Ret u, w') →
    src ≠ dst →
    ∃ data,
      fs w !! src = Some data
      ∧ w' = set_fs (delete src) (set_fs <[dst := data]> w).
  Proof.
    unfold shutil_move. intros H Hne. rewrite decide_False in H by done.
    apply bind_ret_inv in H as (data & w1 & [-> Hd]%read_file_ret_inv & H).
    apply bind_ret_inv in H as (? & w2 & ->%write_file_ret_inv & H).
    apply os_remove_ret_inv in H as [-> _]. by exists data.
  Qed.

  (** What a successful run of the [try] block leaves on disk. *)
Lemma embed_and_move_ret_inv original_file processed_file metadata w result w' :
    embed_and_move E settings original_file processed_file metadata w
    = (Ret result, w') →
    ∃ final_file_path data',
      let json_path := (OsPath.splitext final_file_path).1 +:+ ".json" in
      let on_disk :=
        <[json_path := json_dumps E metadata]>
          (delete processed_file
             (<[final_file_path := data']> (<[processed_file := data']> (fs w)))) in
      result = [("file", JStr final_file_path);
                ("metadata_file", JStr json_path);
                ("status", JStr "Metadata embedded")]
      ∧ final_file_path ≠ processed_file
      ∧ (<[processed_file := data']> (fs w)) !! final_file_path = None
      ∧ (∃ task_id,
           broker w'
           = broker w
             ++ [(task_id,
                  FinalizeDocumentStorage original_file final_file_path metadata)])
      ∧ (fs w' = delete original_file on_disk
         ∧ PyStr.startswith original_file (OsPath.join (workdir settings) "tmp") = true
         ∧ os_refuses E (OpRemove original_file) = None
         ∨ fs w' = on_disk
           ∧ (PyStr.startswith original_file (OsPath.join (workdir settings) "tmp")
              = false
              ∨ on_disk !! original_file = None
              ∨ is_Some (os_refuses E (OpRemove original_file)))).
  Proof.
    intros Hrun. unfold embed_and_move in Hrun.
    minv Hrun.
    minv Hrun. apply embed_standard_fields_ret_inv in Hstep as (data & data' & Hdata & ->).
    minv Hrun.
    minv Hrun.
    assert (w0 = with_audit l0 n0 (set_fs <[processed_file := data']> (with_audit l n w)))
      as -> by (destruct (dict_get_default _ _ _); unfold ret, raise in Hstep; by simplify_eq).
    clear Hstep.
    minv Hrun. apply os_makedirs_ret_inv in Hstep as ->.
    minv Hrun. apply unique_filepath_ret_inv in Hstep as [-> Hfree]. wsimpl.
    rename a2 into final_file_path.
    assert (final_file_path ≠ processed_file) as Hne.
    { intros ->. by rewrite lookup_insert_eq in Hfree. }
    minv Hrun. apply shutil_move_ret_inv in Hstep as (moved & Hmoved & ->); [|done].
    wsimpl. rewrite lookup_insert_eq in Hmoved. injection Hmoved as <-.
    minv Hrun.
    rewrite bind_get in Hrun.
    match type of Hrun with
    | context [path_exists ?w0 processed_file] =>
        assert (path_exists w0 processed_file = false) as Hgone
          by (unfold path_exists; wsimpl; rewrite lookup_delete_eq;
              apply bool_decide_eq_false; by intros [? [=]])
    end.
    rewrite Hgone, bind_ret in Hrun. clear Hgone.
    minv Hrun. unfold persist_metadata in Hstep.
    minv Hstep. apply write_file_ret_inv in Hstep0 as ->.
    injection Hstep as <- <-.
    minv Hrun.
    revert Hrun. mdelay. intros Hrun.
    minv Hrun.
    rewrite bind_get in Hrun.
    match type of Hrun with
    | bind _ _ ?w0 = _ => set (w_end := w0) in *
    end.
    exists final_file_path, data'. cbv zeta.
    set (on_disk := <[(OsPath.splitext final_file_path).1 +:+ ".json"
                      := json_dumps E metadata]>
                      (delete processed_file
                         (<[final_file_path := data']>
                            (<[processed_file := data']> (fs w))))).
    assert (fs w_end = on_disk) as Hdisk by done.
    destruct (PyStr.startswith original_file _) eqn:Hprefix; cbn [andb] in Hrun;
      last first.
    { rewrite bind_ret in Hrun. unfold ret in Hrun. injection Hrun as <- <-.
      split; [done|]. split; [done|]. split; [done|]. split; [by eexists|].
      right. split; [done|]. by left. }
    destruct (path_exists w_end original_file) eqn:Hexists; last first.
    { rewrite bind_ret in Hrun. unfold ret in Hrun. injection Hrun as <- <-.
      split; [done|]. split; [done|]. split; [done|]. split; [by eexists|].
      right. split; [done|].
      right. left. rewrite <- Hdisk. unfold path_exists in Hexists.
      apply bool_decide_eq_false in Hexists. by apply eq_None_not_Some. }
    assert (os_remove E original_file w_end
            = match os_refuses E (OpRemove original_file) with
              | Some e => (Raise e, w_end)
              | None => (Ret tt, set_fs (delete original_file) w_end)
              end) as Hremove.
    { unfold os_remove. rewrite bind_get, Hexists.
      by destruct (os_refuses E (OpRemove original_file)). }
    match type of Hrun with
    | context [try_except ?m ?h] =>
        assert (∃ l n, try_except m h w_end
                       = (Ret tt,
                          with_audit l n
                            (if bool_decide (os_refuses E (OpRemove original_file) = None)
                             then set_fs (delete original_file) w_end
                             else w_end)))
          as (l4 & n4 & Htry)
    end.
    { destruct (os_refuses E (OpRemove original_file)) as [e|] eqn:Hrefuse.
      - erewrite try_except_raise_eq; [|by rewrite (bind_raise_eq _ _ _ _ _ Hremove)].
        mlog. rewrite bool_decide_eq_false_2 by done. by eexists _, _.
      - match goal with
        | |- ∃ l n, try_except ?m ?h ?w0 = _ =>
            assert (∃ l n, m w0 = (Ret tt, with_audit l n
                                             (set_fs (delete original_file) w_end)))
              as (l5 & n5 & Hin)
        end.
        { rewrite (bind_ret_eq _ _ _ _ _ Hremove). mlog. by eexists _, _. }
        rewrite (try_except_ret_eq _ _ _ _ _ Hin).
        rewrite bool_decide_eq_true_2 by done. by eexists _, _. }
    rewrite (bind_ret_eq _ _ _ _ _ Htry) in Hrun. unfold ret in Hrun.
    injection Hrun as <- <-.
    split; [done|]. split; [done|]. split; [done|].
    split; [by destruct (bool_decide _); eexists|].
    destruct (os_refuses E (OpRemove original_file)) as [e|] eqn:Hrefuse.
    - rewrite bool_decide_eq_false_2 by done. right. split; [done|].
      right. right. by eexists.
    - rewrite bool_decide_eq_true_2 by done. left. by split.
  Qed.

Lemma shutil_copy_ret_inv src dst w u w' :
    shutil_copy E src dst w = (Ret u, w') →
    ∃ data, fs w !! src = Some data ∧ w' = set_fs <[dst := data]> w.
  Proof.
    unfold shutil_copy. intros H.
    apply bind_ret_inv in H as (data & w1 & [-> Hd]%read_file_ret_inv & H).
    apply write_file_ret_inv in H. by exists data.
  Qed.

End EmbedFacts.

Lemma chars_str l : PyStr.chars (PyStr.str l) = l.
Proof. apply String.list_ascii_of_string_of_list_ascii. Qed.

Lemma rfind_char_lookup c l i : PyStr.rfind_char c l = Some i → l !! i = Some c.
Proof.
  revert i. induction l as [|x l IH]; intros i; [done|]. cbn.
  destruct (PyStr.rfind_char c l); [intros [= <-]; by apply IH|].
  destruct (decide (x = c)) as [->|]; [by intros [= <-]|done].
Qed.

(** The working copy never has the name of the file it is copied from, so
    [shutil.copy] is never asked to copy a file onto itself. *)
Lemma working_copy_is_another_file (p : string) : working_copy_of p ≠ p.
Proof.
  assert (working_copy_of p = "/tmp/processed_" +:+ OsPath.basename p) as -> by done.
  intros Heq. apply (f_equal PyStr.chars) in Heq. rewrite chars_app in Heq.
  unfold OsPath.basename in Heq.
  destruct (PyStr.rfind_char OsPath.sep (PyStr.chars p)) as [i|] eqn:Hfind.
  - rewrite chars_str in Heq.
    pose proof (rfind_char_lookup _ _ _ Hfind) as Hsep.
    pose proof (lookup_lt_Some _ _ _ Hsep) as Hlt.
    pose proof (f_equal length Heq) as Hlen.
    rewrite length_app, length_drop in Hlen. cbn in Hlen.
    assert (i = 14%nat) as -> by lia.
    rewrite <- Heq in Hsep. by cbn in Hsep.
  - apply (f_equal length) in Heq. rewrite length_app in Heq. cbn in Heq. lia.
Qed.

Section EmbedOutcome.
  Context (E : collaborators) (settings : Settings).

  (** What is on disk once the stage has returned its success result for
      the input found at [original_file]. *)
Lemma embed_located_ret_inv original_file metadata final_file_path json_path w w' :
    (shutil_copy E original_file (working_copy_of original_file) ;;;
     task_logger E ("Created working copy at " +:+ working_copy_of original_file)
       "info" None (Some "embed_metadata") None None None ;;;
     try_except
       (embed_and_move E settings original_file (working_copy_of original_file)
          metadata)
       (λ e,
          task_logger E
            ("Failed to embed metadata into " +:+ working_copy_of original_file
             +:+ ": " +:+ exn_str e)
            "error" None (Some "embed_metadata") None None None ;;;
          ret [("error", JStr (exn_str e))])) w
    = (Ret [("file", JStr final_file_path);
            ("metadata_file", JStr json_path);
            ("status", JStr "Metadata embedded")], w') →
    is_Some (fs w !! original_file)
    ∧ json_path = (OsPath.splitext final_file_path).1 +:+ ".json"
    ∧ (∃ task_id,
         broker w'
         = broker w
           ++ [(task_id,
                FinalizeDocumentStorage original_file final_file_path metadata)])
    ∧ (json_path ≠ working_copy_of original_file →
       fs w' !! working_copy_of original_file = None)
    ∧ (PyStr.startswith original_file (OsPath.join (workdir settings) "tmp") = true →
       os_refuses E (OpRemove original_file) = None →
       fs w' !! original_file = None)
    ∧ (PyStr.startswith original_file (OsPath.join (workdir settings) "tmp") = true →
       is_Some (os_refuses E (OpRemove original_file)) →
       is_Some (fs w' !! original_file))
    ∧ (PyStr.startswith original_file (OsPath.join (workdir settings) "tmp") = false →
       is_Some (fs w' !! original_file)
       ∧ (json_path ≠ original_file → fs w' !! original_file = fs w !! original_file)).
  Proof.
    intros Hrun.
    pose proof (working_copy_is_another_file original_file) as Hcopy.
    set (processed_file := working_copy_of original_file) in *.
    apply bind_ret_inv in Hrun as (u & w0 & (data & Hdata & ->)%shutil_copy_ret_inv & Hrun).
    minv Hrun.
    apply try_except_ret_inv in Hrun as [Hok|(e & w2 & _ & Hfail)]; last first.
    { minv Hfail. discriminate. }
    apply embed_and_move_ret_inv in Hok
      as (final & data' & Hresult & Hfinal & Hfree & Hbroker & Hdisk).
    cbv zeta in Hresult, Hdisk. injection Hresult as <- ->.
    revert Hfree Hbroker Hdisk. wsimpl. intros Hfree Hbroker Hdisk.
    set (json_path := (OsPath.splitext final_file_path).1 +:+ ".json") in *.
    assert (final_file_path ≠ original_file) as Hother.
    { intros ->. by rewrite !lookup_insert_ne, Hdata in Hfree. }
    set (on_disk := <[json_path := json_dumps E metadata]> _) in Hdisk.
    assert (json_path ≠ processed_file → on_disk !! processed_file = None) as Hgone.
    { intros Hne. unfold on_disk. rewrite lookup_insert_ne by done.
      apply lookup_delete_eq. }
    assert (is_Some (on_disk !! original_file)
            ∧ (json_path ≠ original_file → on_disk !! original_file = Some data))
      as [Hkept Hsame].
    { assert (json_path ≠ original_file → on_disk !! original_file = Some data) as H.
      { intros Hne. unfold on_disk.
        by rewrite lookup_insert_ne, lookup_delete_ne, !lookup_insert_ne by done. }
      split; [|done].
      destruct (decide (json_path = original_file)) as [Heq|Hne].
      - unfold on_disk. rewrite Heq, lookup_insert_eq. by eexists.
      - rewrite H by done. by eexists. }
    split; [by eexists|]. split; [done|]. split; [done|].
    destruct Hdisk as [(-> & Hprefix & Haccept)|[-> Hwhy]].
    - split.
      { intros Hne. destruct (decide (original_file = processed_file)) as [<-|?].
        - apply lookup_delete_eq.
        - rewrite lookup_delete_ne by done. by apply Hgone. }
      split; [intros _ _; apply lookup_delete_eq|].
      split; [intros _ [e He]; congruence|].
      intros Hout. congruence.
    - split; [done|]. split.
      { intros Hprefix Haccept. destruct Hwhy as [Hout|[Hnone|[e He]]].
        - congruence.
        - done.
        - congruence. }
      split; [done|]. intros _. split; [done|].
      intros Hne. by rewrite Hsame, Hdata.
  Qed.

End EmbedOutcome.

(** C8, as the code has it. When [embed_metadata_into_pdf] returns its
    success result, the finalize stage has been enqueued for the original
    input, which is the path given or, when no file is there, the file of
    the same name under [<workdir>/tmp].  The temporary working copy
    [/tmp/processed_<name>] is then gone, unless the JSON sidecar was written
    to that very path.  An original whose path starts with [<workdir>/tmp]
    is gone when the operating system did not refuse its removal, and is
    still there when it did.  An original whose path does not start with
    [<workdir>/tmp] is kept: it is still there, with the content it had,
    unless the JSON sidecar was written to that very path. *)
Theorem embed_success_removes_working_copy (E : collaborators) (settings : Settings)
    (local_file_path extracted_text : string) (metadata : dict)
    (final_file_path json_path : string) (w w' : world) :
  embed_metadata_into_pdf E settings local_file_path extracted_text metadata w
  = (Ret [("file", JStr final_file_path);
          ("metadata_file", JStr json_path);
          ("status", JStr "Metadata embedded")], w') →
  let workdir_tmp := OsPath.join (workdir settings) "tmp" in
  let original_file :=
    if path_exists w local_file_path then local_file_path
    else OsPath.join workdir_tmp (OsPath.basename local_file_path) in
  let processed_file :=
    OsPath.join "/tmp" ("processed_" +:+ OsPath.basename original_file) in
  is_Some (fs w !! original_file)
  ∧ json_path = (OsPath.splitext final_file_path).1 +:+ ".json"
  ∧ (∃ task_id,
       broker w'
       = broker w
         ++ [(task_id, FinalizeDocumentStorage original_file final_file_path metadata)])
  ∧ (json_path ≠ processed_file → fs w' !! processed_file = None)
  ∧ (PyStr.startswith original_file workdir_tmp = true →
     os_refuses E (OpRemove original_file) = None →
     fs w' !! original_file = None)
  ∧ (PyStr.startswith original_file workdir_tmp = true →
     is_Some (os_refuses E (OpRemove original_file)) →
     is_Some (fs w' !! original_file))
  ∧ (PyStr.startswith original_file workdir_tmp = false →
     is_Some (fs w' !! original_file)
     ∧ (json_path ≠ original_file → fs w' !! original_file = fs w !! original_file)).
Proof.
  unfold embed_metadata_into_pdf.
  destruct (log_task_run E "embed_metadata" local_file_path
              (embed_metadata_into_pdf_body E settings local_file_path extracted_text
                 metadata) w) as (l & n & l' & n' & ->).
  destruct (embed_metadata_into_pdf_body _ _ _ _ _ _) as [result w1] eqn:Hbody.
  cbn [fst snd]. intros [= -> <-]. cbv zeta.
  unfold embed_metadata_into_pdf_body in Hbody.
  destruct (locate_input_run E settings local_file_path (with_audit l n w))
    as (l0 & n0 & Hlocate).
  rewrite (bind_ret_eq _ _ _ _ _ Hlocate) in Hbody. clear Hlocate.
  change (path_exists (with_audit l n w)) with (path_exists w) in Hbody.
  destruct (path_exists w local_file_path).
  - apply embed_located_ret_inv in Hbody. revert Hbody. by wsimpl.
  - destruct (path_exists w _); [|discriminate].
    apply embed_located_ret_inv in Hbody. revert Hbody. by wsimpl.
Qed.

Lemma embed_success_removes_working_copy_witness :
  is_Some (fs Demo.staged !! "/workdir/tmp/uuid-0.pdf")
  ∧ "/workdir/processed/2024-01-01_Invoice.json"
    = (OsPath.splitext "/workdir/processed/2024-01-01_Invoice.pdf").1 +:+ ".json"
  ∧ (∃ task_id,
       broker (embed_metadata_into_pdf Demo.E Demo.settings "uuid-0.pdf" "Invoice 42"
                 Demo.invoice_metadata Demo.staged).2
       = broker Demo.staged
         ++ [(task_id,
              FinalizeDocumentStorage "/workdir/tmp/uuid-0.pdf"
                "/workdir/processed/2024-01-01_Invoice.pdf" Demo.invoice_metadata)])
  ∧ ("/workdir/processed/2024-01-01_Invoice.json" ≠ "/tmp/processed_uuid-0.pdf" →
     fs (embed_metadata_into_pdf Demo.E Demo.settings "uuid-0.pdf" "Invoice 42"
           Demo.invoice_metadata Demo.staged).2
     !! "/tmp/processed_uuid-0.pdf" = None)
  ∧ (PyStr.startswith "/workdir/tmp/uuid-0.pdf" "/workdir/tmp" = true →
     os_refuses Demo.E (OpRemove "/workdir/tmp/uuid-0.pdf") = None →
     fs (embed_metadata_into_pdf Demo.E Demo.settings "uuid-0.pdf" "Invoice 42"
           Demo.invoice_metadata Demo.staged).2
     !! "/workdir/tmp/uuid-0.pdf" = None)
  ∧ (PyStr.startswith "/workdir/tmp/uuid-0.pdf" "/workdir/tmp" = true →
     is_Some (os_refuses Demo.E (OpRemove "/workdir/tmp/uuid-0.pdf")) →
     is_Some (fs (embed_metadata_into_pdf Demo.E Demo.settings "uuid-0.pdf"
                    "Invoice 42" Demo.invoice_metadata Demo.staged).2
              !! "/workdir/tmp/uuid-0.pdf"))
  ∧ (PyStr.startswith "/workdir/tmp/uuid-0.pdf" "/workdir/tmp" = false →
     is_Some (fs (embed_metadata_into_pdf Demo.E Demo.settings "uuid-0.pdf"
                    "Invoice 42" Demo.invoice_metadata Demo.staged).2
              !! "/workdir/tmp/uuid-0.pdf")
     ∧ ("/workdir/processed/2024-01-01_Invoice.json" ≠ "/workdir/tmp/uuid-0.pdf" →
        fs (embed_metadata_into_pdf Demo.E Demo.settings "uuid-0.pdf" "Invoice 42"
              Demo.invoice_metadata Demo.staged).2
        !! "/workdir/tmp/uuid-0.pdf"
        = fs Demo.staged !! "/workdir/tmp/uuid-0.pdf")).
Proof.
  apply (embed_success_removes_working_copy Demo.E Demo.settings "uuid-0.pdf"
           "Invoice 42" Demo.invoice_metadata
           "/workdir/processed/2024-01-01_Invoice.pdf"
           "/workdir/processed/2024-01-01_Invoice.json" Demo.staged).
  vm_compute. reflexivity.
Defined.

(** C8 as stated fails in three ways.  When the model returned [null] for
    the tags, the stage ends in its failure branch and both the temporary
    working copy and the original are still there.  When the stage succeeds
    on an original outside [<workdir>/tmp], the original stays.  And when
    the operating system refuses to remove the original, the stage logs a
    warning, returns its success result, and the original stays. *)
Lemma embed_failure_leaves_the_working_copy :
  ((embed_metadata_into_pdf Demo.E Demo.settings "uuid-0.pdf" "Invoice 42"
      [("tags", JNull)] Demo.staged).1 = Ret [("error", JStr "TypeError")]
   ∧ fs (embed_metadata_into_pdf Demo.E Demo.settings "uuid-0.pdf" "Invoice 42"
           [("tags", JNull)] Demo.staged).2 !! "/tmp/processed_uuid-0.pdf"
     = Some Demo.pdf_with_text
   ∧ fs (embed_metadata_into_pdf Demo.E Demo.settings "uuid-0.pdf" "Invoice 42"
           [("tags", JNull)] Demo.staged).2 !! "/workdir/tmp/uuid-0.pdf"
     = Some Demo.pdf_with_text)
  ∧ ((embed_metadata_into_pdf Demo.E Demo.settings "/workdir/a.pdf" "Invoice 42"
        Demo.invoice_metadata Demo.inbox).1
     = Ret [("file", JStr "/workdir/processed/2024-01-01_Invoice.pdf");
            ("metadata_file", JStr "/workdir/processed/2024-01-01_Invoice.json");
            ("status", JStr "Metadata embedded")]
     ∧ fs (embed_metadata_into_pdf Demo.E Demo.settings "/workdir/a.pdf" "Invoice 42"
             Demo.invoice_metadata Demo.inbox).2 !! "/workdir/a.pdf"
       = Some Demo.pdf_with_text)
  ∧ ((embed_metadata_into_pdf Demo.E_tmp_protected Demo.settings "uuid-0.pdf"
        "Invoice 42" Demo.invoice_metadata Demo.staged).1
     = Ret [("file", JStr "/workdir/processed/2024-01-01_Invoice.pdf");
            ("metadata_file", JStr "/workdir/processed/2024-01-01_Invoice.json");
            ("status", JStr "Metadata embedded")]
     ∧ fs (embed_metadata_into_pdf Demo.E_tmp_protected Demo.settings "uuid-0.pdf"
             "Invoice 42" Demo.invoice_metadata Demo.staged).2
       !! "/workdir/tmp/uuid-0.pdf"
       = Some Demo.pdf_with_text).
Proof. repeat split; vm_compute; reflexivity. Qed.

(** The exception made for the sidecar is met: a suggested file name that is
    an absolute path can put the JSON sidecar where the working copy was. *)
Lemma sidecar_can_replace_the_working_copy :
  (embed_metadata_into_pdf Demo.E Demo.settings "x.json" "Invoice 42"
     Demo.metadata_with_a_path Demo.staged_as_json).1
  = Ret [("file", JStr "/tmp/processed_x.pdf");
         ("metadata_file", JStr "/tmp/processed_x.json");
         ("status", JStr "Metadata embedded")]
  ∧ fs (embed_metadata_into_pdf Demo.E Demo.settings "x.json" "Invoice 42"
          Demo.metadata_with_a_path Demo.staged_as_json).2
    !! "/tmp/processed_x.json"
    = Some (json_dumps Demo.E Demo.metadata_with_a_path).
Proof. split; vm_compute; reflexivity. Qed.

(** ** C3: the lock of the poller *)

Section Preserves.
  Context {B : Type} (f : world → B).

Lemma preserves_ret {A} (a : A) : preserves f (ret a).
  Proof. by intros w. Qed.

Lemma preserves_raise {A} (e : exn) : preserves f (raise e : M A).
  Proof. by intros w. Qed.

Lemma preserves_get : preserves f get.
  Proof. by intros w. Qed.

Lemma preserves_lift_option {A} e (o : option A) : preserves f (lift_option e o).
  Proof. by destruct o. Qed.

Lemma preserves_lift_result {A} (r : result A) : preserves f (lift_result r).
  Proof. by intros w. Qed.

Lemma preserves_modify (g : world → world) :
    (∀ w, f (g w) = f w) → preserves f (modify g).
  Proof. intros H w. apply H. Qed.

Lemma preserves_bind {A C} (m : M A) (k : A → M C) :
    preserves f m → (∀ a, preserves f (k a)) → preserves f (bind m k).
  Proof.
    intros Hm Hk w. unfold bind. specialize (Hm w).
    destruct (m w) as [[a|e] w1]; cbn in *; [|done].
    by rewrite Hk.
  Qed.

Lemma preserves_try_catch {A} cls (m : M A) (h : exn → M A) :
    preserves f m → (∀ e, preserves f (h e)) → preserves f (try_catch cls m h).
  Proof.
    intros Hm Hh w. unfold try_catch. specialize (Hm w).
    destruct (m w) as [[a|e] w1]; cbn in *; [done|].
    destruct (cls e); [|done]. by rewrite Hh.
  Qed.

Lemma preserves_try_except {A} (m : M A) (h : exn → M A) :
    preserves f m → (∀ e, preserves f (h e)) → preserves f (try_except m h).
  Proof.
    intros Hm Hh w. unfold try_except. specialize (Hm w).
    destruct (m w) as [[a|e] w1]; cbn in *; [done|]. by rewrite Hh.
  Qed.

Lemma preserves_for_fold {A S} (l : list A) (s : S) (body : A → S → M S) :
    (∀ x s, preserves f (body x s)) → preserves f (for_fold l s body).
  Proof.
    intros Hbody. revert s. induction l as [|x l IH]; intros s; cbn.
    - apply preserves_ret.
    - apply preserves_bind; [apply Hbody|apply IH].
  Qed.

Lemma preserves_if {A} (b : bool) (m1 m2 : M A) :
    preserves f m1 → preserves f m2 → preserves f (if b then m1 else m2).
  Proof. by destruct b. Qed.

End Preserves.

Create HintDb preserves discriminated.
#[local] Hint Resolve preserves_ret preserves_raise preserves_get
  preserves_lift_option preserves_lift_result preserves_bind preserves_try_catch
  preserves_try_except preserves_for_fold preserves_if : preserves.
#[local] Hint Extern 1 (preserves _ (modify _)) =>
  (apply preserves_modify; intros; reflexivity) : preserves.
#[local] Hint Extern 2 (preserves _ (match ?x with _ => _ end)) =>
  destruct x : preserves.

Section PollerFrame.
  Context (E : collaborators) (settings : Settings).

Lemma cleanup_old_entries_preserves_redis processed_emails :
    preserves redis (cleanup_old_entries processed_emails).
  Proof.
    unfold cleanup_old_entries. apply preserves_bind; [apply preserves_get|].
    intros w0. apply (map_fold_weak_ind (λ acc _, preserves redis acc));
      eauto 10 with preserves.
  Qed.

Lemma load_processed_emails_preserves_redis : preserves redis load_processed_emails.
  Proof.
    unfold load_processed_emails.
    pose proof cleanup_old_entries_preserves_redis.
    eauto 10 with preserves.
  Qed.

Lemma delay_preserves_redis msg : preserves redis (delay E msg).
  Proof. by intros w. Qed.

Lemma fetch_attachments_and_enqueue_preserves_redis email_message :
    preserves redis (fetch_attachments_and_enqueue E settings email_message).
  Proof.
    unfold fetch_attachments_and_enqueue, write_file.
    apply preserves_for_fold. intros part has.
    repeat first
      [ apply preserves_bind; [|intros ?]
      | apply preserves_ret | apply preserves_raise | apply preserves_if
      | apply delay_preserves_redis
      | apply preserves_modify; intros w; reflexivity
      | match goal with |- preserves _ (match ?x with _ => _ end) => destruct x end ].
  Qed.

Lemma imap_store_preserves_redis mail num op flag :
    preserves redis (imap_store mail num op flag).
  Proof. intros w. by rewrite imap_store_run. Qed.

Lemma handle_message_preserves_redis mail host delete_after_process msg processed :
    preserves redis
      (handle_message E settings mail host delete_after_process msg processed).
  Proof.
    unfold handle_message, imap_do, save_processed_emails.
    pose proof imap_store_preserves_redis.
    pose proof fetch_attachments_and_enqueue_preserves_redis.
    assert (∀ label, preserves redis (email_already_has_label msg label)).
    { intros label w. by rewrite email_already_has_label_run. }
    assert (∀ num, preserves redis (mark_as_processed_with_star mail num)).
    { intros num w. by rewrite mark_as_processed_with_star_run. }
    assert (∀ num label, preserves redis (mark_as_processed_with_label mail num label)).
    { intros num label w. by rewrite mark_as_processed_with_label_run. }
    eauto 20 with preserves.
  Qed.

Lemma pull_inbox_preserves_redis mailbox_key host port username password use_ssl
      delete_after_process :
    preserves redis
      (pull_inbox E settings mailbox_key host port username password use_ssl
         delete_after_process).
  Proof.
    unfold pull_inbox, imap_do.
    pose proof load_processed_emails_preserves_redis.
    pose proof handle_message_preserves_redis.
    eauto 20 with preserves.
  Qed.

  (** The mailbox-processing body never touches Redis. *)
Lemma pull_configured_mailboxes_preserves_redis :
    preserves redis (pull_configured_mailboxes E settings).
  Proof.
    unfold pull_configured_mailboxes, check_and_pull_mailbox.
    pose proof pull_inbox_preserves_redis.
    eauto 20 with preserves.
  Qed.

End PollerFrame.

Section TickFacts.
  Context (E : collaborators) (settings : Settings).

Lemma redis_setnx_run key value w :
    redis_setnx key value w
    = match redis w !! key with
      | Some _ => (Ret false, w)
      | None =>
          (Ret true,
           set_redis <[key := {| redis_value := value; redis_ttl := None |}]> w)
      end.
  Proof. unfold redis_setnx. rewrite bind_get. by destruct (redis w !! key). Qed.

  (** One command of a tick keeps the invariant, whatever the other tick is
      doing, as long as Redis does not expire the key. *)
Lemma tick_step_keeps_invariant p other w p' w' :
    tick_step E settings p w = Some (p', w') →
    holding p && holding other = false →
    (holding p || holding other = true → lock_held w) →
    holding p' && holding other = false
    ∧ (holding p' || holding other = true → lock_held w').
  Proof.
    intros Hstep Hexcl Hheld. destruct p as [| | |outcome|outcome acquired];
      cbn [tick_step] in Hstep.
    - rewrite redis_setnx_run in Hstep.
      destruct (redis w !! LOCK_KEY) as [entry|] eqn:Hlock; simplify_eq; cbn in *.
      + done.
      + split; [|intros _; unfold lock_held; wsimpl; by rewrite lookup_insert_eq].
        destruct (holding other); [|done].
        destruct (Hheld eq_refl) as [? ?]. congruence.
    - simplify_eq. cbn in *. split; [done|]. intros _.
      unfold lock_held, redis_expire, modify in *. wsimpl.
      rewrite lookup_alter_eq. by apply fmap_is_Some, Hheld.
    - destruct (pull_configured_mailboxes E settings w) as [outcome w1] eqn:Hbody.
      simplify_eq. cbn in *. split; [done|]. intros _.
      unfold lock_held.
      pose proof (pull_configured_mailboxes_preserves_redis E settings w) as Hredis.
      rewrite Hbody in Hredis. cbn in Hredis. rewrite Hredis. by apply Hheld.
    - simplify_eq. cbn in *. split; [done|]. intros Hother. congruence.
    - done.
  Qed.

Lemma tick_moves_keep_invariant s s' :
    tick_moves E settings s s' → lock_invariant s → lock_invariant s'.
  Proof.
    intros [w p1 p2 p1' w' Hstep|w p1 p2 p2' w' Hstep] [Hexcl Hheld]; cbn in *.
    - by eapply tick_step_keeps_invariant.
    - rewrite andb_comm in Hexcl. rewrite orb_comm in Hheld.
      destruct (tick_step_keeps_invariant p2 p1 w p2' w' Hstep Hexcl Hheld)
        as [Hexcl' Hheld'].
      split; cbn; [by rewrite andb_comm|by rewrite orb_comm].
  Qed.

Lemma reachable_states_keep_invariant s s' :
    rtc (tick_moves E settings) s s' → lock_invariant s → lock_invariant s'.
  Proof.
    induction 1 as [|s1 s2 s3 Hmove _ IH]; [done|].
    intros Hinv. apply IH. by eapply tick_moves_keep_invariant.
  Qed.

  (** The step-by-step tick is [pull_all_inboxes]. *)
Lemma run_tick_is_pull_all_inboxes w :
    ∃ acquired,
      run_tick E settings 4 AtStart w
      = (Returned (pull_all_inboxes E settings w).1 acquired,
         (pull_all_inboxes E settings w).2).
  Proof.
    unfold pull_all_inboxes, acquire_lock, run_tick, tick_step.
    unfold bind, try_finally, release_lock, redis_delete, redis_expire, modify, ret.
    rewrite redis_setnx_run.
    destruct (redis w !! LOCK_KEY) as [entry|]; cbn.
    - by eexists.
    - destruct (pull_configured_mailboxes E settings _) as [outcome w1].
      by eexists.
  Qed.

End TickFacts.

(** C3, as the code has it. As long as Redis does not expire the lock key
    under its holder, two ticks whose commands interleave in any order are
    never both past lock acquisition; a tick that finds the key present
    returns at once and leaves the world, hence the mailboxes, untouched; and
    a tick that finds it absent runs the mailbox body under the lock and has
    deleted the key when it ends, whether the body returned or raised, in
    which case the exception is passed on. *)
Theorem poller_lock_discipline (E : collaborators) (settings : Settings) :
  (∀ w s, rtc (tick_moves E settings) (starting w) s →
          holding (tick1 s) && holding (tick2 s) = false)
  ∧ (∀ w, lock_held w → pull_all_inboxes E settings w = (Ret tt, w))
  ∧ (∀ w, ¬ lock_held w →
          ∃ w_locked,
            lock_held w_locked
            ∧ (pull_all_inboxes E settings w).1
              = (pull_configured_mailboxes E settings w_locked).1
            ∧ redis (pull_all_inboxes E settings w).2 !! LOCK_KEY = None).
Proof.
  split; [|split].
  - intros w s Hreach.
    by destruct (reachable_states_keep_invariant E settings _ _ Hreach) as [? _].
  - intros w [entry Hheld]. unfold pull_all_inboxes, acquire_lock.
    rewrite bind_bind. unfold bind. by rewrite redis_setnx_run, Hheld.
  - intros w Hfree. apply eq_None_not_Some in Hfree.
    pose (w_locked :=
            set_redis
              (alter (λ e, {| redis_value := redis_value e;
                              redis_ttl := Some LOCK_EXPIRE |}) LOCK_KEY)
              (set_redis
                 <[LOCK_KEY := {| redis_value := "locked"; redis_ttl := None |}]> w)).
    assert (acquire_lock w = (Ret true, w_locked)) as Hacquire.
    { unfold acquire_lock, bind. by rewrite redis_setnx_run, Hfree. }
    exists w_locked. unfold pull_all_inboxes.
    rewrite (bind_ret_eq _ _ _ _ _ Hacquire). cbn [negb].
    unfold try_finally, release_lock, redis_delete, modify.
    destruct (pull_configured_mailboxes E settings w_locked) as [outcome w1].
    cbn [fst snd]. split; [|split; [done|]].
    + unfold lock_held, w_locked. wsimpl.
      rewrite lookup_alter_eq, lookup_insert_eq. by eexists.
    + wsimpl. apply lookup_delete_eq.
Qed.

(** C3 as stated fails: the key carries a time to live of 300 seconds, and
    once Redis has dropped it under a tick that is still in its mailbox body,
    the next tick acquires it too.  Both are then past lock acquisition. *)
Lemma expired_lock_admits_a_second_tick :
  ∃ s, rtc (moves Demo.E Demo.settings) (starting Demo.empty_world) s
       ∧ tick1 s = InBody ∧ tick2 s = InBody.
Proof.
  eexists. split; [|split].
  - unfold starting.
    eapply rtc_l; [apply move_tick, move_tick1; reflexivity|].
    eapply rtc_l; [apply move_tick, move_tick1; reflexivity|].
    eapply rtc_l; [apply move_expiry; reflexivity|].
    eapply rtc_l; [apply move_tick, move_tick2; reflexivity|].
    eapply rtc_l; [apply move_tick, move_tick2; reflexivity|].
    apply rtc_refl.
  - reflexivity.
  - reflexivity.
Qed.

(** A cache entry that does not parse makes the mailbox body raise; the
    exception leaves [pull_all_inboxes] and the lock is released all the
    same. *)
Example lock_is_released_when_the_body_raises :
  (pull_all_inboxes Demo.E Demo.settings
     (set_cache_file (Some (Mapping {["<a@example.org>" := "yesterday"]}))
        Demo.empty_world)).1 = Raise ValueError
  ∧ redis (pull_all_inboxes Demo.E Demo.settings
             (set_cache_file (Some (Mapping {["<a@example.org>" := "yesterday"]}))
                Demo.empty_world)).2 !! LOCK_KEY = None.
Proof. split; vm_compute; reflexivity. Qed.

(** ** C7: how a FileRecord comes into being *)

Section InvocationFacts.
  Context (E : collaborators) (settings : Settings).

Lemma preserves_task_logger {B} (f : world → B) message level task_id step_name
      status file_path file_id :
    (∀ l n w, f (with_audit l n w) = f w) →
    preserves f (task_logger E message level task_id step_name status file_path file_id).
  Proof.
    intros Hf w.
    destruct (task_logger_run E message level task_id step_name status file_path
                file_id w) as (r & l & n & ->).
    apply Hf.
  Qed.

Lemma ingest_keeps_hashes_distinct self_id path w :
    NoDup (hashes w) → NoDup (hashes (ingest E self_id path w).2).
  Proof.
    intros Hnd. unfold hashes in *.
    destruct (fs w !! path) as [data|] eqn:Hfs.
    - destruct (List.filter (λ r, bool_decide (filehash r = sha256 E data)) (files w))
        as [|r1 [|r2 rs]] eqn:Hfilter.
      + destruct (ingest_new E self_id path data w Hfs Hfilter) as (l & n & ->).
        wsimpl. rewrite fmap_app. apply NoDup_app. split; [done|]. split.
        * intros h Hh [->|[]%elem_of_nil]%elem_of_cons.
          by apply (filter_hash_elem_of _ _ Hfilter).
        * apply NoDup_singleton.
      + by destruct (ingest_duplicate E self_id path data w r1 Hfs Hfilter)
          as (l & n & ->).
      + by destruct (ingest_ambiguous E self_id path data w r1 r2 rs Hfs Hfilter)
          as (l & n & ->).
    - by destruct (ingest_missing E self_id path w Hfs) as (l & n & ->).
  Qed.

Lemma place_working_copy_keeps_hashes self_id path new_record :
    preserves hashes (place_working_copy E settings self_id path new_record).
  Proof.
    unfold place_working_copy, draw_uuid, os_makedirs, shutil_copy, read_file,
      write_file, update_local_filename.
    apply preserves_bind; [by apply preserves_task_logger|intros _].
    repeat first
      [ apply preserves_bind; [|intros ?]
      | apply preserves_get | apply preserves_ret | apply preserves_raise
      | apply preserves_lift_option | apply preserves_if
      | apply preserves_modify; intros w; unfold hashes; wsimpl;
        first [reflexivity
              | rewrite <- list_fmap_compose; apply list_fmap_ext;
                intros i r _; cbn; by case_decide]
      | match goal with |- preserves _ (match ?x with _ => _ end) => destruct x end ].
  Qed.

Lemma dispatch_text_extraction_keeps_files self_id path new_record name p :
    preserves files (dispatch_text_extraction E self_id path new_record name p).
  Proof.
    unfold dispatch_text_extraction, fitz_open_text, read_file, delay, draw_uuid.
    repeat first
      [ apply preserves_task_logger; reflexivity
      | apply preserves_bind; [|intros ?]
      | apply preserves_get | apply preserves_ret | apply preserves_raise
      | apply preserves_lift_option | apply preserves_if
      | apply preserves_modify; intros w; reflexivity ].
  Qed.

Lemma stage_step_keeps_hashes_distinct s w s' w' :
    stage_step E settings s w = Some (s', w') → NoDup (hashes w) → NoDup (hashes w').
  Proof.
    destruct s as [self_id path|self_id path new_record
                  |self_id path new_record name p|outcome]; cbn [stage_step].
    - pose proof (ingest_keeps_hashes_distinct self_id path w) as Hstep.
      destruct (ingest E self_id path w) as [[[result|new_record]|e] w1];
        intros [= <- <-]; exact Hstep.
    - pose proof (place_working_copy_keeps_hashes self_id path new_record w) as Hstep.
      destruct (place_working_copy E settings self_id path new_record w)
        as [[placed|e] w1]; intros [= <- <-] Hnd; cbn [snd] in Hstep; by rewrite Hstep.
    - pose proof (dispatch_text_extraction_keeps_files self_id path new_record name p w)
        as Hstep.
      destruct (dispatch_text_extraction E self_id path new_record name p w)
        as [outcome w1]; intros [= <- <-] Hnd. unfold hashes. cbn [snd] in Hstep.
      by rewrite Hstep.
    - done.
  Qed.

Lemma pool_keeps_hashes_distinct p p' :
    rtc (pool_moves E settings) p p' →
    NoDup (hashes (store p)) → NoDup (hashes (store p')).
  Proof.
    induction 1 as [|p1 p2 p3 Hmove _ IH]; [done|].
    intros Hnd. apply IH. destruct Hmove as [w stages i s s' w' _ Hstep].
    cbn. by eapply stage_step_keeps_hashes_distinct.
  Qed.

Lemma run_stages_is_process_document_body self_id path w :
    run_stages E settings 3 (Queued self_id path) w
    = (Over (process_document_body E settings self_id path w).1,
       (process_document_body E settings self_id path w).2).
  Proof.
    unfold process_document_body, bind. cbn [run_stages stage_step].
    destruct (ingest E self_id path w) as [[[result|new_record]|e] w1]; [done| |done].
    cbn [run_stages stage_step].
    destruct (place_working_copy E settings self_id path new_record w1)
      as [[placed|e] w2]; [|done].
    cbn [run_stages stage_step].
    by destruct (dispatch_text_extraction E self_id path new_record placed.1 placed.2 w2).
  Qed.

End InvocationFacts.



(** Two invocations on files with the same content, side by side: the
    second one checks for a duplicate between the two commits of the first,
    is answered with the row that has no working copy yet, and the table
    ends with one row for the hash. *)
Example interleaved_invocations_share_one_row :
  ∃ p',
    rtc (pool_moves Demo.E Demo.settings)
      {| store := Demo.inbox;
         running := [Queued "task-1" "/workdir/a.pdf";
                     Queued "task-2" "/workdir/renamed.pdf"] |} p'
    ∧ running p'
      = [Over (Ret [("file", JStr "/workdir/tmp/uuid-0.pdf");
                    ("status", JStr "Text extracted locally");
                    ("file_id", JNum 1)]);
         Over (Ret [("status", JStr "duplicate_file"); ("file_id", JNum 1);
                    ("detail", JStr "File already processed.")])]
    ∧ files (store p')
      = [{| id := 1; filehash := "2550444601"; original_filename := "a.pdf";
            local_filename := "/workdir/tmp/uuid-0.pdf"; file_size := 5;
            mime_type := "application/pdf" |}].
Proof.
  eexists. split.
  - eapply rtc_l.
    { eapply (move_invocation _ _ _ _ 0%nat); [reflexivity|]. vm_compute. reflexivity. }
    eapply rtc_l.
    { eapply (move_invocation _ _ _ _ 1%nat); [reflexivity|]. vm_compute. reflexivity. }
    eapply rtc_l.
    { eapply (move_invocation _ _ _ _ 0%nat); [reflexivity|]. vm_compute. reflexivity. }
    eapply rtc_l.
    { eapply (move_invocation _ _ _ _ 0%nat); [reflexivity|]. vm_compute. reflexivity. }
    apply rtc_refl.
  - split; vm_compute; reflexivity.
Qed.

(** * Further properties of the pipeline stages *)

(** ** Names for processed files *)

Lemma unique_filepath_loop_first_free w directory base_filename extension fuel counter p :
  unique_filepath_loop w directory base_filename extension fuel counter = Some p →
  ∃ k, (counter ≤ k < counter + fuel)%nat
       ∧ p = candidate directory base_filename extension k
       ∧ fs w !! p = None
       ∧ ∀ j, (counter ≤ j < k)%nat →
              is_Some (fs w !! candidate directory base_filename extension j).
Proof.
  revert counter. induction fuel as [|fuel IH]; intros counter; [done|].
  cbn [unique_filepath_loop].
  fold (candidate directory base_filename extension counter).
  destruct (path_exists w _) eqn:Hex.
  - intros H. destruct (IH _ H) as (k & Hk & -> & Hfree & Hbelow).
    exists k. split_and!; [lia|lia|done|done|].
    intros j Hj. destruct (decide (j = counter)) as [->|].
    + by apply bool_decide_eq_true in Hex.
    + apply Hbelow. lia.
  - intros [= <-]. exists counter. split_and!; [lia|lia|done| |intros; lia].
    apply bool_decide_eq_false in Hex. by apply eq_None_not_Some.
Qed.

(** X1. [unique_filepath] returns on every file system, changes nothing, and
    its answer is the first name in the sequence [base.ext], [base_1.ext],
    [base_2.ext], ... at which no file exists: every earlier name of the
    sequence is taken. *)
Theorem unique_filepath_returns_the_first_free_name
    (directory base_filename extension : string) (w : world) :
  ∃ p,
    unique_filepath directory base_filename extension w = (Ret p, w)
    ∧ fs w !! p = None
    ∧ (p = OsPath.join directory (base_filename +:+ extension)
       ∨ is_Some (fs w !! OsPath.join directory (base_filename +:+ extension))
         ∧ ∃ k, (1 ≤ k)%nat
                ∧ p = candidate directory base_filename extension k
                ∧ ∀ j, (1 ≤ j < k)%nat →
                       is_Some (fs w !! candidate directory base_filename extension j)).
Proof.
  unfold unique_filepath. rewrite bind_get.
  destruct (path_exists w _) eqn:Hexists; cbn [negb].
  - destruct (unique_filepath_loop_total w directory base_filename extension)
      as [p Hp].
    rewrite Hp. exists p. split; [done|].
    apply unique_filepath_loop_first_free in Hp as (k & Hk & -> & Hfree & Hbelow).
    split; [done|]. right. split; [by apply bool_decide_eq_true in Hexists|].
    exists k. split_and!; [lia|done|done].
  - eexists. split; [done|]. split; [|by left].
    apply bool_decide_eq_false in Hexists. by apply eq_None_not_Some.
Qed.

(** ** The JSON object cut out of a model response *)

Lemma find_char_lookup c l i : PyStr.find_char c l = Some i → l !! i = Some c.
Proof.
  revert i. induction l as [|x l IH]; intros i; [done|]. cbn.
  destruct (decide (x = c)) as [->|]; [by intros [= <-]|].
  destruct (PyStr.find_char c l); [|done]. intros [= <-]. by apply IH.
Qed.

Lemma skip_space_suffix l : ∃ pre, l = pre ++ Re.skip_space l.
Proof.
  induction l as [|c l [pre IH]]; [by exists []|]. cbn.
  destruct (Re.is_space c); [|by exists []].
  exists (c :: pre). cbn. by rewrite <-IH.
Qed.

Lemma close_group_shape l acc g :
  Re.close_group l acc = Some g →
  ∃ body rest, l = body ++ "}"%char :: rest ∧ g = rev acc ++ body ++ ["}"%char].
Proof.
  revert acc. induction l as [|c l IH]; intros acc; [done|]. cbn [Re.close_group].
  destruct (bool_decide (c = "}"%char) && _) eqn:Hc.
  - intros [= <-]. apply andb_true_iff in Hc as [->%bool_decide_eq_true _].
    exists [], l. split; [done|]. done.
  - intros (body & rest & -> & ->)%IH. exists (c :: body), rest. split; [done|].
    cbn [rev]. by rewrite <-app_assoc.
Qed.

Lemma open_group_shape l g :
  Re.open_group l = Some g →
  ∃ pre body rest,
    l = pre ++ "{"%char :: body ++ "}"%char :: rest
    ∧ g = "{"%char :: body ++ ["}"%char].
Proof.
  unfold Re.open_group. destruct (skip_space_suffix l) as [pre Hpre].
  destruct (Re.skip_space l) as [|c l'] eqn:Hskip; [done|].
  case_bool_decide as Hc; [subst c|done].
  intros (body & rest & -> & ->)%close_group_shape.
  by exists pre, body, rest.
Qed.

Lemma match_here_shape l g :
  Re.match_here l = Some g →
  ∃ pre body rest,
    l = pre ++ "{"%char :: body ++ "}"%char :: rest
    ∧ g = "{"%char :: body ++ ["}"%char].
Proof.
  unfold Re.match_here. destruct (PyStr.starts_with Re.fence l); [|done].
  assert (∀ k, (∃ pre body rest,
                  drop k l = pre ++ "{"%char :: body ++ "}"%char :: rest
                  ∧ g = "{"%char :: body ++ ["}"%char]) →
               ∃ pre body rest,
                 l = pre ++ "{"%char :: body ++ "}"%char :: rest
                 ∧ g = "{"%char :: body ++ ["}"%char]) as Hdrop.
  { intros k (pre & body & rest & Hl & ->).
    exists (take k l ++ pre), body, rest. split; [|done].
    by rewrite <-app_assoc, <-Hl, take_drop. }
  destruct (PyStr.starts_with _ (drop 3 l)).
  - destruct (Re.open_group (drop 4 (drop 3 l))) eqn:Hopen.
    + intros [= <-]. apply open_group_shape in Hopen. rewrite drop_drop in Hopen.
      by eapply Hdrop.
    + intros Hopen'%open_group_shape. by eapply Hdrop.
  - intros Hopen'%open_group_shape. by eapply Hdrop.
Qed.

Lemma search_shape l g :
  Re.search l = Some g →
  ∃ pre body rest,
    l = pre ++ "{"%char :: body ++ "}"%char :: rest
    ∧ g = "{"%char :: body ++ ["}"%char].
Proof.
  induction l as [|c l IH]; cbn [Re.search].
  - destruct (Re.match_here []) eqn:Hm; [|done].
    intros [= <-]. by apply match_here_shape.
  - destruct (Re.match_here (c :: l)) eqn:Hm.
    + intros [= <-]. by apply match_here_shape.
    + intros (pre & body & rest & -> & ->)%IH. by exists (c :: pre), body, rest.
Qed.

Lemma extract_json_from_text_shape text s :
  extract_json_from_text text = Some s →
  ∃ pre body rest,
    PyStr.chars text = pre ++ "{"%char :: body ++ "}"%char :: rest
    ∧ PyStr.chars s = "{"%char :: body ++ ["}"%char].
Proof.
  unfold extract_json_from_text.
  destruct (Re.search _) as [g|] eqn:Hsearch.
  - intros [= <-]. apply search_shape in Hsearch as (pre & body & rest & ? & ->).
    exists pre, body, rest. by rewrite chars_str.
  - destruct (PyStr.find_char _ _) as [start|] eqn:Hfind; [|done].
    destruct (PyStr.rfind_char _ _) as [end_|] eqn:Hrfind; [|done].
    case_bool_decide as Hlt; [|done]. intros [= <-].
    apply find_char_lookup in Hfind. apply rfind_char_lookup in Hrfind.
    set (l := PyStr.chars text) in *.
    set (l2 := drop (S start) l).
    assert (l2 !! (end_ - S start)%nat = Some "}"%char) as Hclose.
    { unfold l2. rewrite lookup_drop. by replace (S start + (end_ - S start))%nat with end_ by lia. }
    exists (take start l), (take (end_ - S start) l2), (drop (S (end_ - S start)) l2).
    rewrite chars_str. split.
    + rewrite (take_drop_middle l2 _ _ Hclose). unfold l2.
      by rewrite (take_drop_middle l _ _ Hfind).
    + rewrite <-(take_drop_middle l _ _ Hfind) at 1.
      rewrite drop_app_length'; [|by rewrite length_take_le; [|apply lookup_lt_Some in Hfind; lia]].
      fold l2. replace (S end_ - start)%nat with (S (S (end_ - S start))) by lia.
      cbn [take]. f_equal. by apply take_S_r.
Qed.

(** X2. Whatever [extract_json_from_text] returns is cut out of the response
    in one piece, and that piece opens with a brace and closes with one,
    whether it came from a fenced block or from the first-to-last-brace
    fallback. *)
Theorem extracted_json_is_a_braced_piece_of_the_response (text s : string) :
  extract_json_from_text text = Some s →
  ∃ pre body rest,
    PyStr.chars text = pre ++ PyStr.chars s ++ rest
    ∧ PyStr.chars s = "{"%char :: body ++ ["}"%char].
Proof.
  intros (pre & body & rest & Htext & Hs)%extract_json_from_text_shape.
  exists pre, body, rest. split; [|done].
  rewrite Htext, Hs. cbn. by rewrite <-app_assoc.
Qed.

Lemma extracted_json_is_a_braced_piece_of_the_response_witness :
  ∃ pre body rest,
    PyStr.chars "Sure: {'a': {'b': 1}} done" = pre ++ PyStr.chars "{'a': {'b': 1}}" ++ rest
    ∧ PyStr.chars "{'a': {'b': 1}}" = "{"%char :: body ++ ["}"%char].
Proof.
  apply (extracted_json_is_a_braced_piece_of_the_response
           "Sure: {'a': {'b': 1}} done" "{'a': {'b': 1}}").
  reflexivity.
Defined.

(** X3. A response that lacks an opening brace, or lacks a closing one,
    yields no JSON at all: neither the fenced-block pattern nor the fallback
    can produce a result. *)
Theorem response_without_braces_has_no_json (text : string) :
  "{"%char ∉ PyStr.chars text ∨ "}"%char ∉ PyStr.chars text →
  extract_json_from_text text = None.
Proof.
  intros Hno. destruct (extract_json_from_text text) as [s|] eqn:Hs; [|done].
  apply extract_json_from_text_shape in Hs as (pre & body & rest & Htext & _).
  exfalso. destruct Hno as [Hno|Hno]; apply Hno; rewrite Htext; set_solver.
Qed.

Lemma response_without_braces_has_no_json_witness :
  extract_json_from_text "```json [1, 2, 3} ```" = None.
Proof.
  apply (response_without_braces_has_no_json "```json [1, 2, 3} ```").
  left. vm_compute. intros H. repeat (apply elem_of_cons in H as [H|H]; [discriminate|]).
  by apply elem_of_nil in H.
Defined.

(** ** The [log_task] decorator *)

(** X4. The [log_task] decorator is transparent: the wrapped function runs
    in the world it was called in, audit trail apart; the wrapper returns
    what the function returns and raises what it raises; and of what the
    function leaves behind the wrapper changes the audit trail only. *)
Theorem log_task_passes_the_outcome_through (E : collaborators) {A : Type}
    (step_name arg0 : string) (func : M A) (w : world) :
  ∃ l n l' n',
    (log_task E step_name arg0 func w).1 = (func (with_audit l n w)).1
    ∧ (log_task E step_name arg0 func w).2
      = with_audit l' n' (func (with_audit l n w)).2.
Proof.
  destruct (log_task_run E step_name arg0 func w) as (l & n & l' & n' & ->).
  by exists l, n, l', n'.
Qed.

Lemma log_task_progress_without_faults (E : collaborators)
    task_id step_name status message file_path w :
  (∀ n, audit_fault E n = None) →
  ∃ entry,
    log_task_progress E task_id step_name status message None file_path w
    = (Ret (Some (log_id entry)), with_audit (logs w ++ [entry]) (S (audits w)) w)
    ∧ log_task_id entry = task_id
    ∧ log_step_name entry = step_name
    ∧ log_status entry = status
    ∧ log_message entry = message.
Proof.
  intros Hfault.
  destruct (log_task_progress_cases E task_id step_name status message None file_path w)
    as (r & l & Hrun & Hcases).
  unfold fault_hits in Hcases. rewrite Hfault in Hcases.
  destruct Hcases as (entry & -> & -> & _ & ? & ? & ? & ?).
  by exists entry.
Qed.

(** X5. When no audit write fails, one decorated invocation leaves this
    trail: an entry [pending] and an entry [in_progress] before the function
    runs, and after it one closing entry, [success] if the function returned
    and [failure] if it raised; all three carry the step name of the
    decorator and the task id [unknown_task]. *)
Theorem log_task_trail_without_faults (E : collaborators) {A : Type}
    (step_name arg0 : string) (func : M A) (w : world) :
  (∀ n, audit_fault E n = None) →
  ∃ queued started closing w_in,
    w_in = with_audit (logs w ++ [queued; started]) (2 + audits w) w
    ∧ (log_task E step_name arg0 func w).1 = (func w_in).1
    ∧ (log_task E step_name arg0 func w).2
      = with_audit (logs (func w_in).2 ++ [closing]) (S (audits (func w_in).2))
          (func w_in).2
    ∧ log_status queued = "pending"
    ∧ log_status started = "in_progress"
    ∧ log_status closing
      = match (func w_in).1 with Ret _ => "success" | Raise _ => "failure" end
    ∧ Forall (λ entry, log_step_name entry = step_name
                       ∧ log_task_id entry = "unknown_task")
        [queued; started; closing].
Proof.
  intros Hfault. unfold log_task.
  destruct (log_task_progress_without_faults E "unknown_task" step_name "pending"
              (Some "Task queued") (Some arg0) w Hfault)
    as (queued & Hrun0 & ? & ? & ? & _).
  rewrite (bind_ret_eq _ _ _ _ _ Hrun0).
  destruct (log_task_progress_without_faults E "unknown_task" step_name "in_progress"
              (Some "Task started") (Some arg0)
              (with_audit (logs w ++ [queued]) (S (audits w)) w) Hfault)
    as (started & Hrun1 & ? & ? & ? & _).
  rewrite with_audit_with_audit in Hrun1. wsimpl. rewrite <-app_assoc in Hrun1.
  cbn [app] in Hrun1.
  set (w_in := with_audit (logs w ++ [queued; started]) (S (S (audits w))) w) in *.
  destruct (func w_in) as [[a|e] w2] eqn:Hf.
  - destruct (log_task_progress_without_faults E "unknown_task" step_name "success"
                (Some "Task completed") (Some arg0) w2 Hfault)
      as (closing & Hrun2 & ? & ? & ? & _).
    exists queued, started, closing, w_in. rewrite Hf. cbn [fst snd].
    erewrite try_except_ret_eq; last first.
    { rewrite (bind_ret_eq _ _ _ _ _ Hrun1). rewrite (bind_ret_eq _ _ _ _ _ Hf).
      by rewrite (bind_ret_eq _ _ _ _ _ Hrun2). }
    split_and!; try done. by repeat constructor.
  - destruct (log_task_progress_without_faults E "unknown_task" step_name "failure"
                (Some ("Error: " +:+ exn_str e)) (Some arg0) w2 Hfault)
      as (closing & Hrun2 & ? & ? & ? & _).
    exists queued, started, closing, w_in. rewrite Hf. cbn [fst snd].
    erewrite try_except_raise_eq; last first.
    { rewrite (bind_ret_eq _ _ _ _ _ Hrun1). by rewrite (bind_raise_eq _ _ _ _ _ Hf). }
    rewrite (bind_ret_eq _ _ _ _ _ Hrun2).
    split_and!; try done. by repeat constructor.
Qed.

Lemma log_task_trail_without_faults_witness :
  ∃ queued started closing w_in,
    w_in = with_audit (logs Demo.inbox ++ [queued; started]) (2 + audits Demo.inbox)
             Demo.inbox
    ∧ (log_task Demo.E "hash" "/workdir/none.pdf" (hash_file Demo.E "/workdir/none.pdf")
         Demo.inbox).1
      = (hash_file Demo.E "/workdir/none.pdf" w_in).1
    ∧ (log_task Demo.E "hash" "/workdir/none.pdf" (hash_file Demo.E "/workdir/none.pdf")
         Demo.inbox).2
      = with_audit (logs (hash_file Demo.E "/workdir/none.pdf" w_in).2 ++ [closing])
          (S (audits (hash_file Demo.E "/workdir/none.pdf" w_in).2))
          (hash_file Demo.E "/workdir/none.pdf" w_in).2
    ∧ log_status queued = "pending"
    ∧ log_status started = "in_progress"
    ∧ log_status closing
      = match (hash_file Demo.E "/workdir/none.pdf" w_in).1 with
        | Ret _ => "success"
        | Raise _ => "failure"
        end
    ∧ Forall (λ entry, log_step_name entry = "hash"
                       ∧ log_task_id entry = "unknown_task")
        [queued; started; closing].
Proof.
  apply (log_task_trail_without_faults Demo.E "hash" "/workdir/none.pdf"
           (hash_file Demo.E "/workdir/none.pdf") Demo.inbox).
  reflexivity.
Defined.

(** ** [process_document]: what it leaves untouched *)

Section ProcessDocumentExtras.
  Context (E : collaborators) (settings : Settings).

Lemma process_document_missing self_id path w :
    fs w !! path = None →
    ∃ l n,
      process_document E settings self_id path w
      = (Ret [("error", JStr "File not found")], with_audit l n w).
  Proof.
    intros Hfs. unfold process_document.
    destruct (log_task_run E "process_document" path
                (process_document_body E settings self_id path) w)
      as (l & n & l' & n' & ->).
    destruct (process_document_body_missing E settings self_id path
                (with_audit l n w) Hfs) as (l2 & n2 & ->).
    by eexists _, _.
  Qed.

End ProcessDocumentExtras.

(** X6. [process_document] only ever appends: whatever the input and however
    the invocation ends, the rows of [files] it found are still there,
    unchanged and in place, followed by at most one new row; the messages on
    the broker likewise, followed by at most one new message; and a message
    is added only by an invocation that also added a row. *)
Theorem process_document_only_appends (E : collaborators) (settings : Settings)
    (self_id path : string) (w : world) :
  ∃ added queued,
    files (process_document E settings self_id path w).2 = files w ++ added
    ∧ broker (process_document E settings self_id path w).2 = broker w ++ queued
    ∧ (length queued ≤ length added ≤ 1)%nat.
Proof.
  destruct (fs w !! path) as [data|] eqn:Hfs.
  - destruct (process_document_cases E settings self_id path data w Hfs)
      as (l & n & Hrun).
    destruct (List.filter _ (files w)) as [|r1 [|r2 rs]];
      [destruct (placement_error E settings w path) as [e|];
         [|destruct (fitz_get_text E data) as [pages|]]|..]; rewrite Hrun; wsimpl.
    + eexists [_], []. rewrite app_nil_r. split_and!; [done|done|cbn; lia..].
    + eexists [_], [_]. split_and!; [done|done|cbn; lia..].
    + eexists [_], []. rewrite app_nil_r. split_and!; [done|done|cbn; lia..].
    + exists [], []. rewrite !app_nil_r. split_and!; [done|done|cbn; lia..].
    + exists [], []. rewrite !app_nil_r. split_and!; [done|done|cbn; lia..].
  - destruct (process_document_missing E settings self_id path w Hfs)
      as (l & n & ->). wsimpl.
    exists [], []. rewrite !app_nil_r. split_and!; [done|done|cbn; lia..].
Qed.



(** X8. A first sighting that does not open as a PDF is a dead end.  When
    the working copy can be placed, the invocation raises [FileDataError]
    only after the row has been committed and the working copy written, and
    it enqueues nothing; an attempt to process the same file again then
    finds the row, answers [duplicate_file], and enqueues nothing either. *)
Theorem unreadable_file_is_never_retried (E : collaborators) (settings : Settings)
    (id1 id2 path : string) (data : bytes) (w : world) :
  fs w !! path = Some data →
  (∀ r, r ∈ files w → filehash r ≠ sha256 E data) →
  placement_error E settings w path = None →
  fitz_get_text E data = None →
  ∃ w1 w2,
    process_document E settings id1 path w = (Raise FileDataError, w1)
    ∧ files w1 = files w ++ [placed_record E settings w path data]
    ∧ fs w1 !! working_path E settings w path = Some data
    ∧ broker w1 = broker w
    ∧ process_document E settings id2 path w1
      = (Ret (duplicate_result (placed_record E settings w path data)), w2)
    ∧ files w2 = files w1
    ∧ broker w2 = broker w.
Proof.
  intros Hfs Hnew Hplace Hpdf.
  destruct (process_document_cases E settings id1 path data w Hfs) as (l & n & Hrun).
  rewrite (filter_hash_nil _ _ Hnew), Hplace, Hpdf in Hrun.
  set (w1 := with_audit l n (after_placement E settings w path data)) in *.
  assert (fs w1 !! path = Some data) as Hfs1.
  { unfold w1, after_placement. wsimpl.
    destruct (decide (working_path E settings w path = path)) as [->|Hne].
    - by rewrite lookup_insert_eq.
    - by rewrite lookup_insert_ne. }
  destruct (process_document_cases E settings id2 path data w1 Hfs1) as (l2 & n2 & Hrun2).
  assert (List.filter (λ r, bool_decide (filehash r = sha256 E data)) (files w1)
          = [placed_record E settings w path data]) as Hfilter.
  { unfold w1, after_placement. wsimpl.
    apply filter_hash_app_new; [by apply filter_hash_nil|done]. }
  rewrite Hfilter in Hrun2.
  eexists _, _. split_and!; [exact Hrun| | | |exact Hrun2| |]; unfold w1, after_placement;
    wsimpl; try done.
  by rewrite lookup_insert_eq.
Qed.

Lemma unreadable_file_is_never_retried_witness :
  ∃ w1 w2,
    process_document Demo.E Demo.settings "task-1" "/workdir/notes.txt" Demo.inbox
    = (Raise FileDataError, w1)
    ∧ files w1
      = files Demo.inbox
        ++ [placed_record Demo.E Demo.settings Demo.inbox "/workdir/notes.txt"
              Demo.not_a_pdf]
    ∧ fs w1 !! working_path Demo.E Demo.settings Demo.inbox "/workdir/notes.txt"
      = Some Demo.not_a_pdf
    ∧ broker w1 = broker Demo.inbox
    ∧ process_document Demo.E Demo.settings "task-2" "/workdir/notes.txt" w1
      = (Ret (duplicate_result
                (placed_record Demo.E Demo.settings Demo.inbox "/workdir/notes.txt"
                   Demo.not_a_pdf)), w2)
    ∧ files w2 = files w1
    ∧ broker w2 = broker Demo.inbox.
Proof.
  apply (unreadable_file_is_never_retried Demo.E Demo.settings "task-1" "task-2"
           "/workdir/notes.txt" Demo.not_a_pdf Demo.inbox).
  - reflexivity.
  - intros r Hr. by apply elem_of_nil in Hr.
  - reflexivity.
  - reflexivity.
Defined.

(** X9. If the table already holds more than one row with the hash of the
    file, [one_or_none] makes [process_document] raise
    [MultipleResultsFound]; nothing but the audit trail has changed by
    then. *)
Theorem ambiguous_hash_stops_process_document (E : collaborators)
    (settings : Settings) (self_id path : string) (data : bytes)
    (r1 r2 : FileRecord) (w : world) :
  fs w !! path = Some data →
  r1 ∈ files w → r2 ∈ files w → r1 ≠ r2 →
  filehash r1 = sha256 E data → filehash r2 = sha256 E data →
  ∃ l n,
    process_document E settings self_id path w
    = (Raise MultipleResultsFound, with_audit l n w).
Proof.
  intros Hfs Hin1 Hin2 Hne Hh1 Hh2.
  destruct (process_document_cases E settings self_id path data w Hfs) as (l & n & Hrun).
  assert (r1 ∈ List.filter (λ r, bool_decide (filehash r = sha256 E data)) (files w))
    as Hf1.
  { apply list_elem_of_In, filter_In. split; [by apply list_elem_of_In|].
    by apply bool_decide_eq_true. }
  assert (r2 ∈ List.filter (λ r, bool_decide (filehash r = sha256 E data)) (files w))
    as Hf2.
  { apply list_elem_of_In, filter_In. split; [by apply list_elem_of_In|].
    by apply bool_decide_eq_true. }
  destruct (List.filter _ (files w)) as [|x [|y rs]].
  - by apply elem_of_nil in Hf1.
  - apply list_elem_of_singleton in Hf1, Hf2. congruence.
  - by exists l, n.
Qed.

Lemma ambiguous_hash_stops_process_document_witness :
  ∃ l n,
    process_document Demo.E Demo.settings "task-1" "/workdir/a.pdf"
      (set_files
         (λ _, [{| id := 1; filehash := "2550444601"; original_filename := "a.pdf";
                   local_filename := "/workdir/tmp/x.pdf"; file_size := 5;
                   mime_type := "application/pdf" |};
                {| id := 2; filehash := "2550444601"; original_filename := "b.pdf";
                   local_filename := "/workdir/tmp/y.pdf"; file_size := 5;
                   mime_type := "application/pdf" |}]) Demo.inbox)
    = (Raise MultipleResultsFound,
       with_audit l n
         (set_files
            (λ _, [{| id := 1; filehash := "2550444601"; original_filename := "a.pdf";
                      local_filename := "/workdir/tmp/x.pdf"; file_size := 5;
                      mime_type := "application/pdf" |};
                   {| id := 2; filehash := "2550444601"; original_filename := "b.pdf";
                      local_filename := "/workdir/tmp/y.pdf"; file_size := 5;
                      mime_type := "application/pdf" |}]) Demo.inbox)).
Proof.
  eapply (ambiguous_hash_stops_process_document Demo.E Demo.settings "task-1"
            "/workdir/a.pdf" Demo.pdf_with_text).
  - reflexivity.
  - apply list_elem_of_here.
  - apply list_elem_of_further, list_elem_of_here.
  - discriminate.
  - reflexivity.
  - reflexivity.
Defined.

(** ** The hand-off to the uploads *)

(** X10. [finalize_document_storage] returns on every input and appends
    exactly one message to the broker, the fan-out task for the processed
    file; the original file and the metadata it is passed play no part, and
    neither the file system nor the file table changes. *)
Theorem finalize_enqueues_the_fan_out (E : collaborators)
    (original_file processed_file : string) (metadata : dict) (w : world) :
  ∃ send_task w',
    finalize_document_storage E original_file processed_file metadata w
    = (Ret [("status", JStr "Completed");
            ("file", JStr processed_file);
            ("send_task_id", JStr send_task)], w')
    ∧ broker w' = broker w ++ [(send_task, SendToAllDestinations processed_file)]
    ∧ fs w' = fs w ∧ files w' = files w.
Proof.
  unfold finalize_document_storage.
  destruct (log_task_run E "finalize_storage" original_file
              (finalize_document_storage_body E original_file processed_file metadata) w)
    as (l & n & l' & n' & ->).
  unfold finalize_document_storage_body.
  mlog. mdelay. mlog.
  unfold ret. cbn [fst snd].
  eexists _, _. split; [reflexivity|]. by wsimpl.
Qed.

(** ** Metadata extraction: failures and success *)

Lemma extracted_json_is_nonempty text s :
  extract_json_from_text text = Some s → PyStr.nonempty s = true.
Proof.
  intros (pre & body & rest & _ & Hs)%extract_json_from_text_shape.
  by destruct s.
Qed.

(** X11. Metadata extraction swallows its failures: when the
    chat-completion call raises, and when the JSON object cut out of the
    response does not decode, the task still returns, with an empty dict,
    and the broker is as before; the pipeline ends there for the document. *)
Theorem failed_classification_ends_the_pipeline (E : collaborators)
    (self_id s3_filename cleaned_text : string) (w : world) :
  (∃ e, chat_completion E cleaned_text = Raise e)
  ∨ (∃ content json_text,
       chat_completion E cleaned_text = Ret content
       ∧ extract_json_from_text content = Some json_text
       ∧ json_loads E json_text = None) →
  ∃ w',
    extract_metadata_with_gpt E self_id s3_filename cleaned_text w = (Ret [], w')
    ∧ broker w' = broker w ∧ fs w' = fs w ∧ files w' = files w.
Proof.
  intros Hfail. unfold extract_metadata_with_gpt.
  destruct (log_task_run E "extract_metadata" s3_filename
              (extract_metadata_with_gpt_body E self_id s3_filename cleaned_text) w)
    as (l & n & l' & n' & ->).
  unfold extract_metadata_with_gpt_body.
  rewrite try_finally_ret_tt.
  match goal with
  | |- context [try_except ?m ?h ?w0] =>
      assert (∃ e l0 n0, m w0 = (Raise e, with_audit l0 n0 w0)) as (e & l0 & n0 & Hbody)
  end.
  { mlog. mlog. destruct Hfail as [[e Hchat]|(content & json_text & Hchat & Hjson & Hloads)].
    - rewrite Hchat. by eexists _, _, _.
    - rewrite Hchat, bind_lift_result_ret. mlog.
      rewrite Hjson, (extracted_json_is_nonempty _ _ Hjson). cbn [negb].
      rewrite Hloads. by eexists _, _, _. }
  rewrite (try_except_raise_eq _ _ _ _ _ Hbody).
  mlog. unfold ret. cbn [fst snd].
  eexists. split; [reflexivity|]. by wsimpl.
Qed.

Lemma failed_classification_ends_the_pipeline_witness :
  ∃ w',
    extract_metadata_with_gpt
      {| sha256 := sha256 Demo.E; guess_type := guess_type Demo.E;
         uuid4 := uuid4 Demo.E; fitz_get_text := fitz_get_text Demo.E;
         fitz_set_metadata := fitz_set_metadata Demo.E;
         chat_completion := λ _, Raise APIError;
         json_loads := json_loads Demo.E; json_dumps := json_dumps Demo.E;
         sql_like := sql_like Demo.E; audit_fault := audit_fault Demo.E;
         imap_connect := imap_connect Demo.E;
         os_refuses := os_refuses Demo.E |}
      "task-3" "uuid-0.pdf" "Invoice 42" Demo.inbox = (Ret [], w')
    ∧ broker w' = broker Demo.inbox ∧ fs w' = fs Demo.inbox
    ∧ files w' = files Demo.inbox.
Proof.
  apply failed_classification_ends_the_pipeline.
  left. by exists APIError.
Defined.

(** X12. When the model answers, a JSON object is found in the answer and
    it decodes, metadata extraction returns the decoded metadata and appends
    exactly one message to the broker: the embedding task, for the same file
    name, with the text it was given, unchanged, and the decoded metadata. *)
Theorem classified_document_goes_to_embedding (E : collaborators)
    (self_id s3_filename cleaned_text content json_text : string) (metadata : dict)
    (w : world) :
  chat_completion E cleaned_text = Ret content →
  extract_json_from_text content = Some json_text →
  json_loads E json_text = Some metadata →
  ∃ embed_task w',
    extract_metadata_with_gpt E self_id s3_filename cleaned_text w
    = (Ret [("file", JStr s3_filename); ("metadata", JObj metadata)], w')
    ∧ broker w'
      = broker w ++ [(embed_task, EmbedMetadataIntoPdf s3_filename cleaned_text metadata)]
    ∧ fs w' = fs w ∧ files w' = files w.
Proof.
  intros Hchat Hjson Hloads. unfold extract_metadata_with_gpt.
  destruct (log_task_run E "extract_metadata" s3_filename
              (extract_metadata_with_gpt_body E self_id s3_filename cleaned_text) w)
    as (l & n & l' & n' & ->).
  unfold extract_metadata_with_gpt_body.
  rewrite try_finally_ret_tt.
  match goal with
  | |- context [try_except ?m ?h ?w0] =>
      assert (∃ l0 n0,
                m w0 = (Ret [("file", JStr s3_filename); ("metadata", JObj metadata)],
                        with_audit l0 n0
                          (set_broker
                             (λ b, b ++ [(uuid4 E (entropy w0),
                                          EmbedMetadataIntoPdf s3_filename cleaned_text
                                            metadata)])
                             (set_entropy S w0))))
        as (l0 & n0 & Hbody)
  end.
  { mlog. mlog. rewrite Hchat, bind_lift_result_ret. mlog.
    rewrite Hjson, (extracted_json_is_nonempty _ _ Hjson). cbn [negb].
    rewrite Hloads. cbn [lift_option]. rewrite bind_ret. mlog. mdelay. mlog.
    rewrite bind_get.
    destruct (query_first _ _); mlog; unfold ret; by eexists _, _. }
  rewrite (try_except_ret_eq _ _ _ _ _ Hbody). cbn [fst snd].
  eexists _, _. split; [reflexivity|]. by wsimpl.
Qed.

Lemma classified_document_goes_to_embedding_witness :
  ∃ embed_task w',
    extract_metadata_with_gpt Demo.E "task-3" "uuid-0.pdf" "{Invoice 42}" Demo.inbox
    = (Ret [("file", JStr "uuid-0.pdf");
            ("metadata", JObj [("filename", JStr "2024-01-01_Invoice")])], w')
    ∧ broker w'
      = broker Demo.inbox
        ++ [(embed_task,
             EmbedMetadataIntoPdf "uuid-0.pdf" "{Invoice 42}"
               [("filename", JStr "2024-01-01_Invoice")])]
    ∧ fs w' = fs Demo.inbox ∧ files w' = files Demo.inbox.
Proof.
  apply (classified_document_goes_to_embedding Demo.E "task-3" "uuid-0.pdf"
           "{Invoice 42}" "{Invoice 42}" "{Invoice 42}").
  - reflexivity.
  - reflexivity.
  - reflexivity.
Defined.

(** ** Embedding: the input that cannot be found *)



(** ** Timestamps of the seen-mail cache *)

Lemma digit_val_digit_char d : 0 ≤ d ≤ 9 → digit_val (digit_char d) = Some d.
Proof.
  intros Hd.
  assert (d = 0 ∨ d = 1 ∨ d = 2 ∨ d = 3 ∨ d = 4 ∨ d = 5 ∨ d = 6 ∨ d = 7 ∨ d = 8 ∨ d = 9)
    as Hcases by lia.
  repeat destruct Hcases as [->|Hcases]; try subst d; reflexivity.
Qed.

Lemma digit_is_no_separator c :
  is_Some (digit_val c) →
  is_char "-" c = false ∧ is_T c = false ∧ is_char ":" c = false
  ∧ ∀ b, field_d [c; b] = field 1 1 31 [c; b].
Proof.
  destruct c as [[] [] [] [] [] [] [] []]; intros [d Hd];
    first [discriminate Hd | by split_and!].
Qed.

Lemma split_at_separator (sep : ascii → bool) ds c rest :
  Forall (λ x, sep x = false) ds → sep c = true →
  split_at sep (ds ++ c :: rest) = Some (ds, rest).
Proof.
  intros Hds Hc. induction Hds as [|x ds Hx _ IH]; cbn.
  - by rewrite Hc.
  - by rewrite Hx, IH.
Qed.

Lemma pad2_digits v :
  0 ≤ v ≤ 99 →
  digits (pad2 v) = Some v ∧ Forall (λ c, is_Some (digit_val c)) (pad2 v).
Proof.
  intros Hv. unfold pad2, digits. cbn [foldl].
  assert (0 ≤ v / 10 ≤ 9) as Hhi by (Z.div_mod_to_equations; lia).
  assert (0 ≤ v mod 10 ≤ 9) as Hlo by (Z.div_mod_to_equations; lia).
  rewrite !digit_val_digit_char by done. cbn. split.
  - f_equal. Z.div_mod_to_equations. lia.
  - repeat constructor; by rewrite digit_val_digit_char.
Qed.

Lemma digits_app f1 c1 c2 a b :
  digits f1 = Some a → digits [c1; c2] = Some b → 0 ≤ b →
  digits (f1 ++ [c1; c2]) = Some (100 * a + b).
Proof.
  unfold digits. rewrite foldl_app. intros -> . cbn.
  destruct (digit_val c1) as [d1|]; [|done]. cbn.
  destruct (digit_val c2) as [d2|]; [|done]. cbn.
  intros [= <-] _. f_equal. lia.
Qed.

Lemma pad4_digits v :
  0 ≤ v ≤ 9999 →
  digits (pad4 v) = Some v ∧ Forall (λ c, is_Some (digit_val c)) (pad4 v)
  ∧ length (pad4 v) = 4%nat.
Proof.
  intros Hv. unfold pad4.
  assert (0 ≤ v / 100 ≤ 99) as Hhi by (Z.div_mod_to_equations; lia).
  assert (0 ≤ v mod 100 ≤ 99) as Hlo by (Z.div_mod_to_equations; lia).
  assert (100 * (v / 100) + v mod 100 = v) as Hsum by (Z.div_mod_to_equations; lia).
  revert Hhi Hlo Hsum. generalize (v / 100) (v mod 100). clear Hv.
  intros a b Ha Hb Hsum.
  destruct (pad2_digits a Ha) as [Hd1 Hf1]. destruct (pad2_digits b Hb) as [Hd2 Hf2].
  split; [|split].
  - unfold pad2 at 2.
    rewrite (digits_app (pad2 a) (digit_char (b / 10)) (digit_char (b mod 10)) a b
               Hd1 Hd2 (proj1 Hb)).
    by rewrite Hsum.
  - by apply Forall_app.
  - reflexivity.
Qed.

Lemma strftime_chars dt :
  PyStr.chars (strftime dt)
  = pad4 (year dt) ++ "-"%char :: pad2 (month dt) ++ "-"%char :: pad2 (day dt)
    ++ "T"%char :: pad2 (hour dt) ++ ":"%char :: pad2 (minute dt)
    ++ ":"%char :: pad2 (second dt).
Proof. unfold strftime. by rewrite chars_str. Qed.

Lemma field_pad2 lo1 lo2 hi2 v :
  0 ≤ v ≤ 99 → lo2 ≤ v ≤ hi2 → field lo1 lo2 hi2 (pad2 v) = Some v.
Proof.
  intros Hv Hrange. destruct (pad2_digits v Hv) as [Hd _].
  change (field lo1 lo2 hi2 (pad2 v)) with (v' ← digits (pad2 v); in_range lo2 hi2 v').
  rewrite Hd. cbn. unfold in_range.
  by rewrite (proj2 (Z.leb_le _ _)), (proj2 (Z.leb_le _ _)) by lia.
Qed.

Lemma strptime_strftime dt :
  is_datetime dt → 1000 ≤ year dt → strptime (strftime dt) = Some (whole_second dt).
Proof.
  intros (Hy & Hm & Hd & HH & HM & HS & _) Hy4.
  assert (days_in_month (year dt) (month dt) ≤ 31) as Hdim.
  { unfold days_in_month. repeat case_match; lia. }
  unfold strptime. rewrite strftime_chars.
  destruct (pad4_digits (year dt)) as (HdY & HfY & HlY); [lia|].
  assert (∀ v, 0 ≤ v ≤ 99 →
               Forall (λ x, is_char "-" x = false) (pad2 v)
               ∧ Forall (λ x, is_T x = false) (pad2 v)
               ∧ Forall (λ x, is_char ":" x = false) (pad2 v)) as Hsep.
  { intros v Hv. destruct (pad2_digits v Hv) as [_ Hf].
    split_and!; eapply Forall_impl; try exact Hf; intros c Hc;
      by destruct (digit_is_no_separator c Hc) as (? & ? & ? & _). }
  rewrite split_at_separator; [|eapply Forall_impl; [exact HfY|]|done]; last first.
  { intros c Hc. by destruct (digit_is_no_separator c Hc) as (? & _). }
  cbn [mbind option_bind].
  rewrite split_at_separator; [|apply Hsep; lia|done]. cbn [mbind option_bind].
  rewrite split_at_separator; [|apply Hsep; lia|done]. cbn [mbind option_bind].
  rewrite split_at_separator; [|apply Hsep; lia|done]. cbn [mbind option_bind].
  rewrite split_at_separator; [|apply Hsep; lia|done]. cbn [mbind option_bind].
  unfold field_Y. rewrite decide_True by done. rewrite HdY. cbn [mbind option_bind].
  rewrite field_pad2 by lia. cbn [mbind option_bind].
  assert (field_d (pad2 (day dt)) = Some (day dt)) as ->.
  { destruct (pad2_digits (day dt)) as [_ Hf]; [lia|].
    apply Forall_cons in Hf as [Hc _].
    destruct (digit_is_no_separator _ Hc) as (_ & _ & _ & Hfd).
    unfold pad2 at 1. rewrite Hfd. apply (field_pad2 1 1 31 (day dt)); lia. }
  cbn [mbind option_bind].
  rewrite !field_pad2 by lia. cbn [mbind option_bind].
  by rewrite !(proj2 (Z.leb_le _ _)) by lia.
Qed.

Lemma stamp_is_recent now :
  is_datetime now → 1000 ≤ year now → is_recent now (strftime now) = true.
Proof.
  intros Hdt Hy. unfold is_recent. rewrite strptime_strftime by done.
  destruct Hdt as (_ & _ & _ & _ & _ & _ & Hus).
  apply Z.ltb_lt. unfold instant, timedelta_days.
  change (toordinal (whole_second now)) with (toordinal now).
  cbn [whole_second hour minute second microsecond].
  generalize (toordinal now). intros days. lia.
Qed.

(** X14. The timestamp format of the seen-mail cache round-trips: what the
    poller writes with [strftime] for a valid clock reading with a
    four-digit year, [cleanup_old_entries] parses back with [strptime] to
    the same instant cut to the whole second, so the entry does not raise
    [ValueError] and counts as recent at the moment it is written. *)
Theorem cache_timestamp_round_trips (now : datetime) :
  is_datetime now → 1000 ≤ year now →
  strptime (strftime now) = Some (whole_second now)
  ∧ is_recent now (strftime now) = true.
Proof.
  intros Hdt Hy. split; [by apply strptime_strftime|by apply stamp_is_recent].
Qed.

Lemma cache_timestamp_round_trips_witness :
  strptime (strftime Demo.noon) = Some (whole_second Demo.noon)
  ∧ is_recent Demo.noon (strftime Demo.noon) = true.
Proof.
  apply (cache_timestamp_round_trips Demo.noon).
  - unfold is_datetime. cbn. lia.
  - cbn. lia.
Defined.

(** ** The poller: skipped messages, the cache, missing configuration *)

(** X15. A message whose fetch failed, that carries no Message-ID, or whose
    Message-ID is in the seen-mail cache is skipped: apart from the fetch
    command that was sent, nothing happens, in particular nothing is stored
    or enqueued, no flag is changed and the cache is as before. *)
Theorem unusable_or_seen_message_is_skipped (E : collaborators) (settings : Settings)
    (mail : imap_server) (host : string) (delete_after_process : bool)
    (msg : fetched) (processed_emails : gmap string string) (w : world) :
  fetch_ok msg = false
  ∨ truthy_str (message_id msg) = false
  ∨ is_Some (processed_emails !! default "" (message_id msg)) →
  handle_message E settings mail host delete_after_process msg processed_emails w
  = (Ret processed_emails,
     set_imap_log (λ l, l ++ [ImapFetch (msg_num msg) "(RFC822)"]) w).
Proof.
  intros Hskip. unfold handle_message, imap_do. rewrite bind_modify.
  destruct (fetch_ok msg); [|done]. cbn [negb].
  destruct (truthy_str (message_id msg)); [|done]. cbn [negb].
  destruct Hskip as [|[|Hseen]]; [done..|].
  by rewrite bool_decide_eq_true_2.
Qed.

Lemma unusable_or_seen_message_is_skipped_witness :
  handle_message Demo.E Demo.settings Demo.mailbox "mail.example.org" false
    Demo.invoice_mail {["<invoice-42@example.org>" := "2025-03-09T08:15:00"]}
    Demo.empty_world
  = (Ret {["<invoice-42@example.org>" := "2025-03-09T08:15:00"]},
     set_imap_log (λ l, l ++ [ImapFetch (msg_num Demo.invoice_mail) "(RFC822)"])
       Demo.empty_world).
Proof.
  apply (unusable_or_seen_message_is_skipped Demo.E Demo.settings Demo.mailbox
           "mail.example.org" false Demo.invoice_mail
           {["<invoice-42@example.org>" := "2025-03-09T08:15:00"]} Demo.empty_world).
  right. right. by eexists.
Defined.

Section PollerExtras.
  Context (E : collaborators) (settings : Settings).

Lemma fetch_attachments_and_enqueue_preserves_clock email_message :
    preserves clock (fetch_attachments_and_enqueue E settings email_message).
  Proof.
    unfold fetch_attachments_and_enqueue, write_file.
    apply preserves_for_fold. intros part has.
    repeat first
      [ apply preserves_bind; [|intros ?]
      | apply preserves_ret | apply preserves_raise | apply preserves_if
      | by intros w
      | apply preserves_modify; intros w; reflexivity
      | match goal with |- preserves _ (match ?x with _ => _ end) => destruct x end ].
  Qed.

Lemma fetch_attachments_and_enqueue_returns email_message w :
    (∀ path, os_refuses E (OpWrite path) = None) →
    ∃ has_attachment w',
      fetch_attachments_and_enqueue E settings email_message w
      = (Ret has_attachment, w').
  Proof.
    intros Hwrite. unfold fetch_attachments_and_enqueue.
    match goal with
    | |- context [for_fold _ ?init ?body] =>
        cut (∀ has w, ∃ has_attachment w',
               for_fold email_message has body w = (Ret has_attachment, w'));
        [intros Hany; apply Hany|]
    end.
    clear w. induction email_message as [|part rest IH]; intros has w;
      cbn [for_fold]; [by eexists _, _|].
    destruct (decide (content_maintype part = _)); [rewrite bind_ret; apply IH|].
    destruct (truthy_str _ && _); [|rewrite bind_ret; apply IH].
    unfold write_file. rewrite Hwrite. mnorm. mdelay. mnorm. apply IH.
  Qed.

End PollerExtras.

(** X16. A message that is handled is written to the cache file, stamped
    with the current time, before its flags are changed on the server: when
    the attachments could be written, the entry is on disk whether the
    closing [store] command succeeds or raises, and when it succeeds the
    dict carried to the next message holds it too. *)
Theorem handled_message_is_recorded_before_flags_change (E : collaborators)
    (settings : Settings) (mail : imap_server) (host : string)
    (delete_after_process : bool) (msg : fetched) (msg_id : string)
    (processed_emails : gmap string string) (w : world) :
  (∀ path, os_refuses E (OpWrite path) = None) →
  fetch_ok msg = true →
  message_id msg = Some msg_id →
  msg_id ≠ "" →
  processed_emails !! msg_id = None →
  is_gmail host && labelled msg "Ingested" = false →
  ∃ outcome w',
    handle_message E settings mail host delete_after_process msg processed_emails w
    = (outcome, w')
    ∧ cache_file w'
      = Some (Mapping (<[msg_id := strftime (clock w)]> processed_emails))
    ∧ outcome
      = (if store_ok mail (msg_num msg)
              (if delete_after_process then "\Deleted" else "\Seen")
         then Ret (<[msg_id := strftime (clock w)]> processed_emails)
         else Raise IMAPError).
Proof.
  intros Hwrite Hfetch Hid Hne Hnew Hlabel. unfold handle_message, imap_do.
  rewrite bind_modify, Hfetch, Hid. cbn [negb truthy_str default].
  destruct msg_id as [|c msg_id]; [done|]. cbn [PyStr.nonempty negb].
  unfold Datatypes.id.
  rewrite bool_decide_eq_false_2 by (rewrite Hnew; by intros [? [=]]).
  fold (is_gmail host). unfold save_processed_emails.
  destruct (is_gmail host).
  - cbn [andb] in Hlabel.
    rewrite (bind_ret_eq _ _ _ _ _ (email_already_has_label_run msg "Ingested" _)).
    rewrite Hlabel.
    match goal with
    | |- context [bind (fetch_attachments_and_enqueue E settings ?m) _ ?w0] =>
        destruct (fetch_attachments_and_enqueue_returns E settings m w0 Hwrite)
          as (has & w1 & Hrun);
        pose proof (fetch_attachments_and_enqueue_preserves_clock E settings m w0)
          as Hclock
    end.
    rewrite Hrun in Hclock. cbn [snd] in Hclock. revert Hclock. wsimpl. intros Hclock.
    rewrite (bind_ret_eq _ _ _ _ _ Hrun).
    rewrite bind_bind.
    rewrite (bind_ret_eq _ _ _ _ _ (mark_as_processed_with_star_run mail _ _)).
    rewrite (bind_ret_eq _ _ _ _ _ (mark_as_processed_with_label_run mail _ _ _)).
    mnorm. wsimpl. rewrite Hclock.
    destruct delete_after_process; unfold bind; rewrite imap_store_run;
      destruct (store_ok mail _ _); eexists _, _; (split; [reflexivity|]); by wsimpl.
  - mnorm.
    match goal with
    | |- context [bind (fetch_attachments_and_enqueue E settings ?m) _ ?w0] =>
        destruct (fetch_attachments_and_enqueue_returns E settings m w0 Hwrite)
          as (has & w1 & Hrun);
        pose proof (fetch_attachments_and_enqueue_preserves_clock E settings m w0)
          as Hclock
    end.
    rewrite Hrun in Hclock. cbn [snd] in Hclock. revert Hclock. wsimpl. intros Hclock.
    rewrite (bind_ret_eq _ _ _ _ _ Hrun).
    mnorm. wsimpl. rewrite Hclock.
    destruct delete_after_process; unfold bind; rewrite imap_store_run;
      destruct (store_ok mail _ _); eexists _, _; (split; [reflexivity|]); by wsimpl.
Qed.

Lemma handled_message_is_recorded_before_flags_change_witness :
  ∃ outcome w',
    handle_message Demo.E Demo.settings Demo.mailbox "mail.example.org" false
      Demo.invoice_mail ∅ Demo.empty_world = (outcome, w')
    ∧ cache_file w'
      = Some (Mapping (<["<invoice-42@example.org>"
                         := strftime (clock Demo.empty_world)]> ∅))
    ∧ outcome
      = (if store_ok Demo.mailbox (msg_num Demo.invoice_mail)
              (if false then "\Deleted" else "\Seen")
         then Ret (<["<invoice-42@example.org>" := strftime (clock Demo.empty_world)]> ∅)
         else Raise IMAPError).
Proof.
  apply (handled_message_is_recorded_before_flags_change Demo.E Demo.settings
           Demo.mailbox "mail.example.org" false Demo.invoice_mail
           "<invoice-42@example.org>" ∅ Demo.empty_world).
  - reflexivity.
  - reflexivity.
  - reflexivity.
  - discriminate.
  - reflexivity.
  - reflexivity.
Defined.

(** X17. An entry that the poller stamped at [now] stays in the cache for
    seven days: every load performed while the clock is less than seven days
    past the stamp (cut to the whole second) returns it, under its message
    id and with its timestamp unchanged, provided the other entries of the
    file parse. *)
Theorem recorded_message_survives_later_loads (processed_emails : gmap string string)
    (msg_id : string) (now : datetime) (w : world) :
  is_datetime now → 1000 ≤ year now →
  cache_file w = Some (Mapping (<[msg_id := strftime now]> processed_emails)) →
  map_Forall (λ _ date_str, is_Some (strptime date_str)) processed_emails →
  instant (clock w) < instant (whole_second now) + timedelta_days 7 →
  ∃ kept,
    load_processed_emails w = (Ret kept, w)
    ∧ kept !! msg_id = Some (strftime now).
Proof.
  intros Hdt Hy Hcache Hparse Hclock.
  unfold load_processed_emails. rewrite bind_get, Hcache.
  unfold try_catch. rewrite bind_ret.
  rewrite cleanup_old_entries_run.
  - eexists. split; [reflexivity|].
    apply map_lookup_filter_Some. split; [by rewrite lookup_insert_eq|].
    cbn [snd]. unfold is_recent. rewrite strptime_strftime by done.
    apply Z.ltb_lt. lia.
  - apply map_Forall_insert_2; [|done]. rewrite strptime_strftime by done. by eexists.
Qed.

Lemma recorded_message_survives_later_loads_witness :
  ∃ kept,
    load_processed_emails
      (set_cache_file
         (Some (Mapping (<["<invoice-42@example.org>" := strftime Demo.noon]>
                           Demo.seen_mails))) Demo.empty_world)
    = (Ret kept,
       set_cache_file
         (Some (Mapping (<["<invoice-42@example.org>" := strftime Demo.noon]>
                           Demo.seen_mails))) Demo.empty_world)
    ∧ kept !! "<invoice-42@example.org>" = Some (strftime Demo.noon).
Proof.
  apply (recorded_message_survives_later_loads Demo.seen_mails
           "<invoice-42@example.org>" Demo.noon).
  - unfold is_datetime. cbn. lia.
  - cbn. lia.
  - reflexivity.
  - apply (bool_decide_unpack _). vm_compute. exact I.
  - vm_compute. reflexivity.
Defined.

Lemma cleanup_old_entries_unparsable (processed_emails : gmap string string)
    (w : world) :
  ¬ map_Forall (λ _ date_str, is_Some (strptime date_str)) processed_emails →
  cleanup_old_entries processed_emails w = (Raise ValueError, w).
Proof.
  unfold cleanup_old_entries. rewrite bind_get. cbv zeta.
  revert processed_emails.
  match goal with
  | |- ∀ m, _ → map_fold ?f ?b m w = _ =>
      assert (∀ m,
                (map_Forall (λ _ date_str, is_Some (strptime date_str)) m →
                 ∃ v, map_fold f b m w = (Ret v, w))
                ∧ (¬ map_Forall (λ _ date_str, is_Some (strptime date_str)) m →
                   map_fold f b m w = (Raise ValueError, w))) as Hind
  end.
  { apply (map_fold_weak_ind
      (λ (acc : M (gmap string string)) m,
         (map_Forall (λ _ date_str, is_Some (strptime date_str)) m →
          ∃ v, acc w = (Ret v, w))
         ∧ (¬ map_Forall (λ _ date_str, is_Some (strptime date_str)) m →
            acc w = (Raise ValueError, w)))).
    - split; [by eexists|]. intros []. apply map_Forall_empty.
    - intros msg_id date_str m acc Hfresh [IHok IHbad]. split.
      + intros [[dt Hdt] Hall]%map_Forall_insert; [|done].
        destruct (IHok Hall) as [v Hv].
        rewrite (bind_ret_eq _ _ _ _ _ Hv), Hdt. cbn [lift_option]. rewrite bind_ret.
        destruct (_ <? _); by eexists.
      + intros Hbad.
        destruct (decide (map_Forall (λ _ date_str, is_Some (strptime date_str)) m))
          as [Hall|Hnot].
        * destruct (IHok Hall) as [v Hv]. rewrite (bind_ret_eq _ _ _ _ _ Hv).
          destruct (strptime date_str) as [dt|] eqn:Hdt; [|done].
          exfalso. apply Hbad. apply map_Forall_insert_2; [by eexists|done].
        * by rewrite (bind_raise_eq _ _ _ _ _ (IHbad Hnot)). }
  intros m Hbad. by apply Hind.
Qed.

(** X18. One cache entry whose timestamp does not parse stops the polling of
    a mailbox before it starts: [pull_inbox] raises [ValueError] out of the
    cache load, which is outside its [try] block; no IMAP command has been
    sent and the world is as before. *)
Theorem unparsable_cache_entry_stops_the_mailbox (E : collaborators)
    (settings : Settings) (mailbox_key host : string) (port : Z)
    (username password : string) (use_ssl delete_after_process : bool)
    (stored : gmap string string) (msg_id date_str : string) (w : world) :
  cache_file w = Some (Mapping stored) →
  stored !! msg_id = Some date_str →
  strptime date_str = None →
  pull_inbox E settings mailbox_key host port username password use_ssl
    delete_after_process w
  = (Raise ValueError, w).
Proof.
  intros Hcache Hentry Hbad. unfold pull_inbox.
  apply bind_raise_eq.
  unfold load_processed_emails. rewrite bind_get, Hcache.
  unfold try_catch. rewrite bind_ret.
  rewrite cleanup_old_entries_unparsable; [done|].
  intros Hall. specialize (Hall _ _ Hentry). cbn in Hall. rewrite Hbad in Hall.
  by destruct Hall.
Qed.

Lemma unparsable_cache_entry_stops_the_mailbox_witness :
  pull_inbox Demo.E Demo.settings "imap1" "mail.example.org" 993 "scanner" "secret"
    true false
    (set_cache_file (Some (Mapping {["<a@example.org>" := "2025-03-09 08:15:00"]}))
       Demo.empty_world)
  = (Raise ValueError,
     set_cache_file (Some (Mapping {["<a@example.org>" := "2025-03-09 08:15:00"]}))
       Demo.empty_world).
Proof.
  apply (unparsable_cache_entry_stops_the_mailbox Demo.E Demo.settings "imap1"
           "mail.example.org" 993 "scanner" "secret" true false
           {["<a@example.org>" := "2025-03-09 08:15:00"]} "<a@example.org>"
           "2025-03-09 08:15:00").
  - reflexivity.
  - reflexivity.
  - reflexivity.
Defined.

(** X19. With neither mailbox fully configured a tick of the poller is a
    no-op: it returns, and the world it leaves is the world it found, the
    lock having been taken and released again, or never taken because it
    was held. *)
Theorem unconfigured_poller_does_nothing (E : collaborators) (settings : Settings)
    (w : world) :
  truthy_str (imap1_host settings) && truthy_id (imap1_port settings)
  && truthy_str (imap1_username settings) && truthy_str (imap1_password settings)
  = false →
  truthy_str (imap2_host settings) && truthy_id (imap2_port settings)
  && truthy_str (imap2_username settings) && truthy_str (imap2_password settings)
  = false →
  pull_all_inboxes E settings w = (Ret tt, w).
Proof.
  intros H1 H2.
  assert (∀ w0, pull_configured_mailboxes E settings w0 = (Ret tt, w0)) as Hbody.
  { intros w0. unfold pull_configured_mailboxes, check_and_pull_mailbox.
    by rewrite H1, H2. }
  unfold pull_all_inboxes, acquire_lock, redis_setnx, redis_expire, release_lock,
    redis_delete.
  mnorm. destruct (redis w !! LOCK_KEY) eqn:Hlock; mnorm; cbn [negb]; [done|].
  unfold try_finally. rewrite Hbody. unfold modify. f_equal.
  world_eq. apply map_eq. intros k.
  destruct (decide (k = LOCK_KEY)) as [->|Hne].
  - by rewrite lookup_delete_eq.
  - by rewrite lookup_delete_ne, lookup_alter_ne, lookup_insert_ne.
Qed.

Lemma unconfigured_poller_does_nothing_witness :
  pull_all_inboxes Demo.E
    {| workdir := "/workdir";
       imap1_host := Some "mail.example.org"; imap1_port := Some 993;
       imap1_username := Some "scanner"; imap1_password := None;
       imap1_ssl := true; imap1_delete_after_process := false;
       imap2_host := Some ""; imap2_port := Some 0;
       imap2_username := None; imap2_password := None;
       imap2_ssl := true; imap2_delete_after_process := false |}
    Demo.empty_world
  = (Ret tt, Demo.empty_world).
Proof.
  apply unconfigured_poller_does_nothing.
  - reflexivity.
  - reflexivity.
Defined.
